(** * Mixer: proxies for collections of datablocks and datablock references

    A shallow embedding of [mixer/blender_data/datablock_collection_proxy.py]
    (classes [DatablockCollectionProxy] and [DatablockRefCollectionProxy]) and
    of the helpers of [mixer/blender_data/specifics.py] they reach
    ([bpy_data_ctor], [add_datablock_ref_element]).

    Python objects that are mutated in place live in an explicit store: the
    Blender side is an abstract [World] reached through the operations of the
    class [Host]; [DatablockProxy] objects live in a heap addressed by
    references, so that the aliasing between [self._data],
    [context.proxy_state.proxies] and the proxies listed in a diff is kept.
    Every method is a computation in a state-and-exception monad. *)

From stdpp Require Import base option list functions gmap sets strings sorting.

#[global] Set Warnings "-clear-no-such-hyp".


(** ** Python values and exceptions *)

(** The exception classes the code raises or catches.  All of them derive from
    [Exception]; [MaxDepthExceeded] is the one of [mixer.blender_data.proxy]. *)
Inductive exn :=
  | AssertionError
  | AttributeError
  | KeyError
  | ReferenceError
  | RuntimeError
  | TypeError
  | OSError
  | MaxDepthExceeded
  | OtherException (name : string).

Global Instance exn_eq_dec : EqDecision exn.
Proof. solve_decision. Defined.

(** What a Python call produces: a value or a raised exception. *)
Inductive outcome (A : Type) :=
  | Ok (a : A)
  | Raise (e : exn).
Arguments Ok {A} a.
Arguments Raise {A} e.

(** Handles of live Blender objects (their identity, as [is] compares it). *)
Definition Datablock := N.   (* a [bpy.types.ID] *)
Definition Coll := N.        (* a [bpy_prop_collection] *)
Definition Parent := N.      (* the struct that owns a collection attribute *)
Definition ProxyRef := N.    (* the address of a [DatablockProxy] object *)

(** [DatablockRefProxy]: an identifier pointer plus a debug label. *)
Record DatablockRefProxy := mkRef {
  _datablock_uuid : string;
  _debug_name : string;
}.

Global Instance DatablockRefProxy_eq_dec : EqDecision DatablockRefProxy.
Proof. solve_decision. Defined.

(** The attribute values [bpy_data_ctor] reads from a proxy with
    [proxy.data(..)] and the arguments it hands to Blender. *)
Inductive PyVal :=
  | PNone
  | PStr (s : string)
  | PInt (z : Z)
  | PSeq (l : list Z)                    (* a flat array, e.g. [Image.size] *)
  | PLenProxy (length : Z)               (* a collection proxy with [.length] *)
  | PRefProxy (r : DatablockRefProxy)
  | PProxy (class_name : string)         (* any other proxy *)
  | PObj (d : Datablock).                (* a live datablock *)

Global Instance PyVal_eq_dec : EqDecision PyVal.
Proof. solve_decision. Defined.

(** A [DatablockProxy] object. [mixer_uuid()] returns [_datablock_uuid];
    [data(key)] is [_data.get(key)]. *)
Record ProxyObj := mkProxy {
  proxy_uuid : string;
  collection_name : string;
  proxy_data : gmap string PyVal;
}.

Definition mixer_uuid (p : ProxyObj) : string := proxy_uuid p.

Definition data (p : ProxyObj) (key : string) : PyVal :=
  default PNone (proxy_data p !! key).

Definition set_data (key : string) (v : PyVal) (p : ProxyObj) : ProxyObj :=
  mkProxy (proxy_uuid p) (collection_name p) (<[key := v]> (proxy_data p)).

(** ** Deltas (mixer.blender_data.proxy) *)

Inductive Delta (A : Type) :=
  | DeltaAddition (value : A)
  | DeltaDeletion (value : A)
  | DeltaUpdate (value : A).
Arguments DeltaAddition {A} value.
Arguments DeltaDeletion {A} value.
Arguments DeltaUpdate {A} value.

Definition delta_value {A} (d : Delta A) : A :=
  match d with
  | DeltaAddition v | DeltaDeletion v | DeltaUpdate v => v
  end.

Definition is_addition {A} (d : Delta A) : bool :=
  match d with DeltaAddition _ => true | _ => false end.
Definition is_deletion {A} (d : Delta A) : bool :=
  match d with DeltaDeletion _ => true | _ => false end.
Definition is_update {A} (d : Delta A) : bool :=
  match d with DeltaUpdate _ => true | _ => false end.

(** What [read_attribute] returns for a member of a collection, as far as the
    [isinstance] tests of the code tell values apart. *)
Inductive Value :=
  | VRefProxy (r : DatablockRefProxy)
  | VDatablockProxy (p : ProxyRef)
  | VOther (descr : string).

(** What the [_data] of a received collection update holds under a key: the
    code expects a delta and checks for it. *)
Inductive Member :=
  | MDelta (d : Delta Value)
  | MOther (descr : string).

(** The value carried by the [DeltaUpdate] handed to [apply]. *)
Inductive UpdateValue :=
  | URefCollection (items : list (string * Member))  (* [_data.items()], in order *)
  | UOther (descr : string).

(** ** Logging *)

Inductive level := DEBUG | INFO | WARNING | ERROR.

Global Instance level_eq_dec : EqDecision level.
Proof. solve_decision. Defined.

(** A log record: level, the constant part of the message, and the string
    arguments that the claims observe. *)
Record LogRecord := mkLog {
  log_level : level;
  log_msg : string;
  log_args : list string;
}.

Global Instance LogRecord_eq_dec : EqDecision LogRecord.
Proof. solve_decision. Defined.

(** ** Changesets and external diffs *)

Record Changeset := mkChangeset {
  creations : list ProxyRef;
  removals : list (string * string * string);
  renames : list (string * PyVal * string * string);
}.

Definition Changeset_new : Changeset := mkChangeset [] [] [].

(** [BpyPropCollectionDiff]: [items_added] is a dict from name to collection
    name, kept in insertion (discovery) order. *)
Record BpyPropCollectionDiff := mkDiff {
  items_added : list (string * string);
  items_removed : list ProxyRef;
  items_renamed : list (ProxyRef * string);
}.

(** Kinds of [bl_rna] that [add_datablock_ref_element] tells apart. *)
Inductive CollKind :=
  | NoRna
  | LinkCollection      (* CollectionObjects, CollectionChildren, SceneObjects *)
  | IDMaterials
  | OtherRna.

(** ** The program state *)

Section State.
Context {World : Type}.

(** [self_data] is the [_data] of the [DatablockCollectionProxy] at hand,
    [ref_data] the [_data] of the [DatablockRefCollectionProxy] at hand.
    [datablocks], [proxies] and [unresolved_refs] are the three tables of
    [context.proxy_state]; a datablock entry may hold Python's [None].
    A deferred action of [unresolved_refs] is
    [functools.partial(specifics.add_datablock_ref_element, collection)],
    recorded as its collection. *)
Record St := mkSt {
  world : World;
  heap : ProxyRef → ProxyObj;
  next_ref : ProxyRef;
  self_data : gmap string ProxyRef;
  ref_data : gmap string DatablockRefProxy;
  datablocks : gmap string (option Datablock);
  proxies : gmap string ProxyRef;
  unresolved_refs : gmap string (list Coll);
  log : list LogRecord;
}.

Definition set_world (w : World) (s : St) : St :=
  mkSt w (heap s) (next_ref s) (self_data s) (ref_data s) (datablocks s)
       (proxies s) (unresolved_refs s) (log s).
Definition set_heap (h : ProxyRef → ProxyObj) (s : St) : St :=
  mkSt (world s) h (next_ref s) (self_data s) (ref_data s) (datablocks s)
       (proxies s) (unresolved_refs s) (log s).
Definition set_next_ref (n : ProxyRef) (s : St) : St :=
  mkSt (world s) (heap s) n (self_data s) (ref_data s) (datablocks s)
       (proxies s) (unresolved_refs s) (log s).
Definition set_self_data (d : gmap string ProxyRef) (s : St) : St :=
  mkSt (world s) (heap s) (next_ref s) d (ref_data s) (datablocks s)
       (proxies s) (unresolved_refs s) (log s).
Definition set_ref_data (d : gmap string DatablockRefProxy) (s : St) : St :=
  mkSt (world s) (heap s) (next_ref s) (self_data s) d (datablocks s)
       (proxies s) (unresolved_refs s) (log s).
Definition set_datablocks (d : gmap string (option Datablock)) (s : St) : St :=
  mkSt (world s) (heap s) (next_ref s) (self_data s) (ref_data s) d
       (proxies s) (unresolved_refs s) (log s).
Definition set_proxies (d : gmap string ProxyRef) (s : St) : St :=
  mkSt (world s) (heap s) (next_ref s) (self_data s) (ref_data s) (datablocks s)
       d (unresolved_refs s) (log s).
Definition set_unresolved_refs (d : gmap string (list Coll)) (s : St) : St :=
  mkSt (world s) (heap s) (next_ref s) (self_data s) (ref_data s) (datablocks s)
       (proxies s) d (log s).
Definition set_log (l : list LogRecord) (s : St) : St :=
  mkSt (world s) (heap s) (next_ref s) (self_data s) (ref_data s) (datablocks s)
       (proxies s) (unresolved_refs s) l.

(** *** The monad: state passing with exceptions *)

Definition M (A : Type) : Type := St → outcome A * St.

Definition ret {A} (a : A) : M A := λ s, (Ok a, s).
Definition raise {A} (e : exn) : M A := λ s, (Raise e, s).
Definition bind {A B} (m : M A) (k : A → M B) : M B :=
  λ s, match m s with
       | (Ok a, s') => k a s'
       | (Raise e, s') => (Raise e, s')
       end.
(** [try: body except <classes matched by handles>: handler] *)
Definition try_except {A} (body : M A) (handles : exn → bool)
    (handler : exn → M A) : M A :=
  λ s, match body s with
       | (Ok a, s') => (Ok a, s')
       | (Raise e, s') => if handles e then handler e s' else (Raise e, s')
       end.

Definition gets {A} (f : St → A) : M A := λ s, (Ok (f s), s).
Definition modify (f : St → St) : M unit := λ s, (Ok tt, f s).

(** A call into Blender that may change the world and may raise. *)
Definition host {A} (op : World → outcome A * World) : M A :=
  λ s, let '(r, w) := op (world s) in (r, set_world w s).
(** A read of Blender state that may raise. *)
Definition host_read {A} (op : World → outcome A) : M A :=
  λ s, (op (world s), s).

(** A call that receives the [context]: it may read the whole state, change
    the world and raise. *)
Definition context_call {A} (op : St → outcome A * World) : M A :=
  λ s, let '(r, w) := op s in (r, set_world w s).
(** A read that receives the [context]. *)
Definition context_read {A} (op : St → outcome A) : M A :=
  λ s, (op s, s).

(** [logger.<level>(msg, *args)] *)
Definition logger (l : level) (msg : string) (args : list string) : M unit :=
  modify (λ s, set_log (log s ++ [mkLog l msg args]) s).

(** [dict.get(key)] on a table whose values may be [None]. *)
Definition py_get {V} (m : gmap string (option V)) (key : string) : option V :=
  mjoin (m !! key).

(** [catch Exception]: every exception class of [exn]. *)
Definition any_exception (e : exn) : bool := true.
Definition is_ReferenceError (e : exn) : bool :=
  bool_decide (e = ReferenceError).
Definition is_RuntimeError (e : exn) : bool :=
  bool_decide (e = RuntimeError).
Definition is_TypeError (e : exn) : bool :=
  bool_decide (e = TypeError).
Definition is_MaxDepthExceeded (e : exn) : bool :=
  bool_decide (e = MaxDepthExceeded).
End State.

Arguments St World : clear implicits.
Arguments M World A : clear implicits.

Declare Scope py_scope.
Delimit Scope py_scope with py.
Notation "'do' x <- e ; k" := (bind e (λ x, k))
  (at level 10, x name, e at level 100, k at level 200,
   format "'[v' 'do'  x  <-  e ; '/' k ']'") : py_scope.
Notation "'do' ' p <- e ; k" := (bind e (λ p, k))
  (at level 10, p pattern, e at level 100, k at level 200,
   format "'[v' 'do'  ' p  <-  e ; '/' k ']'") : py_scope.
Notation "e ;; k" := (bind e (λ _, k))
  (at level 100, k at level 200, right associativity,
   format "'[v' e ;; '/' k ']'") : py_scope.
Open Scope py_scope.

(** ** The Blender side

    The live scene graph and the repository functions whose source is not part
    of this development are operations on an abstract world.  Nothing is
    assumed about them: each may return any value of its type and, where the
    Python call can raise, any exception. *)
Class Host (World : Type) := {
  (** [getattr(bpy.data, collection_name)] *)
  bpy_data_collection : string → World → outcome Coll;
  (** [getattr(parent, key)] *)
  parent_getattr : Parent → string → World → outcome Coll;
  (** [collection.get(name)]; [collection[name]] raises [KeyError] where this
      is [None], and [name in collection] is whether it is not [None]. *)
  coll_get : World → Coll → string → option Datablock;
  (** [len(collection)] *)
  coll_len : World → Coll → nat;
  (** [collection.values()] *)
  coll_values : World → Coll → list Datablock;
  (** [getattr(collection, "bl_rna", None)], classified *)
  coll_kind : World → Coll → CollKind;
  (** [datablock.mixer_uuid] *)
  db_mixer_uuid : World → Datablock → string;
  (** [isinstance(datablock, T.Scene)] *)
  db_is_scene : World → Datablock → bool;
  (** [collection.link(datablock)], [.unlink], [.append], [.remove] *)
  coll_link : Coll → Datablock → World → outcome unit * World;
  coll_unlink : Coll → Datablock → World → outcome unit * World;
  coll_append : Coll → Datablock → World → outcome unit * World;
  coll_remove : Coll → Datablock → World → outcome unit * World;
  (** [collection.new(..)] with its arguments, [collection.load(filepath)] *)
  coll_new : Coll → list PyVal → World → outcome Datablock * World;
  coll_load : Coll → PyVal → World → outcome Datablock * World;
  (** [image.pack(data=buffer, data_len=len(buffer))] *)
  image_pack : Datablock → string → World → outcome unit * World;
  (** [datablock.name = value] *)
  db_set_name : Datablock → PyVal → World → outcome unit * World;
  (** [open(path, "rb").read()] *)
  file_read : PyVal → World → outcome string * World;
  (** [mixer.local_data.get_resolved_file_path] *)
  get_resolved_file_path : World → PyVal → PyVal;
  (** [mixer.blender_client.scene.delete_scene] *)
  delete_scene : Datablock → World → outcome unit * World;
  (** [mixer.blender_data.proxy.ensure_uuid] *)
  ensure_uuid : Datablock → World → outcome string * World;
  (** [DatablockProxy.make(id_).load(id_, name, context,
      bpy_data_collection_name=collection_name)]: the object it builds; it
      receives the context *)
  load_datablock : Datablock → string → string → St World → outcome ProxyObj * World;
  (** [mixer.blender_data.attributes.read_attribute(item, key, .., context)] *)
  read_attribute : St World → Datablock → string → outcome Value;
  (** [mixer.blender_data.attributes.diff_attribute(item, key, .., value,
      context)] *)
  diff_attribute :
    St World → Datablock → string → Value → outcome (option (Delta Value));
  (** [proxy.update_standalone_datablock(existing_id, delta, context)], which
      receives the whole context *)
  update_standalone_datablock :
    ProxyRef → Datablock → Delta ProxyRef → St World → outcome (option Datablock) * St World;
  (** The rename information [create_standalone_datablock] returns beside the
      datablock *)
  standalone_renames : World → ProxyObj → option (list (string * string * string));
  (** [str(proxy)] *)
  proxy_str : ProxyObj → string;
}.

(** [traceback.format_exc().splitlines()] in an [except] clause: the lines
    that describe the exception at hand, of which nothing is assumed. *)
Class Traceback (World : Type) := {
  format_exc : St World → exn → list string;
}.

(** ** The methods *)

Section Model.
Context {World : Type} `{!Host World} `{!Traceback World}.

Abbreviation M := (M World).
Abbreviation St := (St World).

(** *** Python idioms *)

(** [for x in l: acc = body(acc, x)] *)
Fixpoint for_each {A B} (l : list A) (acc : B) (body : B → A → M B) : M B :=
  match l with
  | [] => ret acc
  | x :: rest => do acc' <- body acc x; for_each rest acc' body
  end.

(** [for line in traceback.format_exc().splitlines(): logger.<level>(..)],
    where [render] is the text logged for a line. *)
Definition log_traceback (l : level) (render : string → string) (e : exn) : M unit :=
  do lines <- gets (λ s, format_exc s e);
  for_each lines tt (λ _ line, logger l (render line) []).

(** [d[key]] on a dict given by its items *)
Fixpoint dict_getitem {V} (items : list (string * V)) (key : string) : option V :=
  match items with
  | [] => None
  | (k, v) :: rest => if decide (k = key) then Some v else dict_getitem rest key
  end.

(** [d.keys()] *)
Definition dict_keys {V} (items : list (string * V)) : list string := items.*1.

(** [sorted(names)]: strings compare by code point, which on the bytes of
    their UTF-8 encoding is the lexicographic order of [String.le]. *)
Definition sorted (names : list string) : list string :=
  merge_sort String.le names.

(** [value = m[key]], raising [KeyError] *)
Definition getitem {V} (m : St → gmap string V) (key : string) : M V :=
  do v <- gets (λ s, m s !! key);
  match v with
  | Some v => ret v
  | None => raise KeyError
  end.

(** [del m[key]], raising [KeyError] *)
Definition delitem {V} (m : St → gmap string V)
    (set : gmap string V → St → St) (key : string) : M unit :=
  do v <- gets (λ s, m s !! key);
  match v with
  | Some _ => modify (λ s, set (delete key (m s)) s)
  | None => raise KeyError
  end.

(** [m[key] = value] *)
Definition setitem {V} (m : St → gmap string V)
    (set : gmap string V → St → St) (key : string) (value : V) : M unit :=
  modify (λ s, set (<[key := value]> (m s)) s).

(** The object behind a proxy reference. *)
Definition deref (proxy : ProxyRef) : M ProxyObj := gets (λ s, heap s proxy).

(** Construction of a new [DatablockProxy] object. *)
Definition alloc (obj : ProxyObj) : M ProxyRef :=
  do r <- gets next_ref;
  modify (λ s, set_next_ref (N.succ r) (set_heap (<[r := obj]> (heap s)) s));;
  ret r.

(** [proxy.collection], the property [getattr(bpy.data, collection_name)] *)
Definition proxy_collection (proxy : ProxyRef) : M Coll :=
  do p <- deref proxy;
  host_read (bpy_data_collection (collection_name p)).

(** *** Helpers of the repository whose source is not at hand *)

(** Modelled from the spec: [DatablockProxy.rename], of which the spec says
    that it "updates the proxy's cached name field" and that the "Identifier
    is unchanged".  The cached name is the entry ["name"] that
    [proxy.data("name")] reads. *)
Definition rename (proxy : ProxyRef) (new_name : string) : M unit :=
  modify (λ s,
    set_heap (<[proxy := set_data "name" (PStr new_name) (heap s proxy)]> (heap s)) s).

(** Modelled from the spec: [DatablockRefProxy.target]; a reference proxy
    "wraps a target Identifier" and is unresolved when "the Identifier is not
    yet in the Registry". *)
Definition target (r : DatablockRefProxy) : M (option Datablock) :=
  gets (λ s, py_get (datablocks s) (_datablock_uuid r)).

(** *** specifics.py *)

Definition node_tree_type (key : PyVal) : option string :=
  match key with
  | PStr k =>
      if decide (k = "SHADER") then Some "ShaderNodeTree"
      else if decide (k = "COMPOSITOR") then Some "CompositorNodeTree"
      else if decide (k = "TEXTURE") then Some "TextureNodeTree"
      else None
  | _ => None
  end.

(** [width, height = value] *)
Definition unpack2 (value : PyVal) : M (PyVal * PyVal) :=
  match value with
  | PSeq [w; h] => ret (PInt w, PInt h)
  | PStr (String a (String b EmptyString)) =>
      ret (PStr (String a EmptyString), PStr (String b EmptyString))
  | PSeq _ | PStr _ => raise (OtherException "ValueError")
  | _ => raise TypeError
  end.

(** [packed_files is not None and packed_files.length] as a condition *)
Definition has_packed_files (packed_files : PyVal) : M bool :=
  match packed_files with
  | PNone => ret false
  | PLenProxy n => ret (negb (n =? 0)%Z)
  | _ => raise AttributeError
  end.

Definition bpy_data_ctor (collection_name : string) (proxy : ProxyRef)
    : M (option Datablock) :=
  do collection <- host_read (bpy_data_collection collection_name);
  do p <- deref proxy;
  if decide (collection_name = "images") then
    let image_name := data p "name" in
    let filepath := data p "filepath" in
    do resolved_filepath <- gets (λ s, get_resolved_file_path (world s) filepath);
    let packed_files := data p "packed_files" in
    do packed <- has_packed_files packed_files;
    do image <-
      (if packed then
         let name := data p "name" in
         do '(width, height) <- unpack2 (data p "size");
         try_except
           (do buffer <- host (file_read resolved_filepath);
            do image <- host (coll_new collection [name; width; height]);
            host (image_pack image buffer);;
            ret (Some image))
           is_RuntimeError
           (λ e, logger WARNING "Cannot load packed image original" [];;
                 logger WARNING "..." [];;
                 ret None)
       else
         try_except
           (do image <- host (coll_load collection resolved_filepath);
            host (db_set_name image image_name);;
            ret (Some image))
           is_RuntimeError
           (λ e, logger WARNING "Cannot load image original" [];;
                 logger WARNING "..." [];;
                 ret None));
    match image with
    | None => ret None
    | Some image =>
        modify (λ s, set_heap
          (<[proxy := set_data "filepath_raw" resolved_filepath
                        (set_data "filepath" resolved_filepath (heap s proxy))]>
             (heap s)) s);;
        ret (Some image)
    end
  else if decide (collection_name = "objects") then
    let name := data p "name" in
    let target_proxy := data p "data" in
    do target <-
      match target_proxy with
      | PNone => ret PNone
      | PRefProxy r =>
          do t <- target r;
          ret (from_option PObj PNone t)
      | _ =>
          logger WARNING "bpy.data.objects[].data proxy is a . Expected a DatablockRefProxy" [];;
          logger WARNING "... loaded as Empty" [];;
          ret PNone
      end;
    do object_ <- host (coll_new collection [name; target]);
    ret (Some object_)
  else if decide (collection_name = "lights") then
    let name := data p "name" in
    let light_type := data p "type" in
    do light <- host (coll_new collection [name; light_type]);
    ret (Some light)
  else if decide (collection_name = "node_groups") then
    let name := data p "name" in
    match node_tree_type (data p "type") with
    | None => raise KeyError
    | Some type_ =>
        do id_ <- host (coll_new collection [name; PStr type_]);
        ret (Some id_)
    end
  else if decide (collection_name = "sounds") then
    let filepath := data p "filepath" in
    do id_ <- host (coll_load collection filepath);
    host (db_set_name id_ (data p "name"));;
    ret (Some id_)
  else
    let name := data p "name" in
    try_except
      (do id_ <- host (coll_new collection [name]);
       ret (Some id_))
      is_TypeError
      (λ e, logger ERROR "Exception while calling : bpy.data..new()" [];;
            logger ERROR "TypeError : " [];;
            ret None).

Definition add_datablock_ref_element (collection : Coll) (datablock : Datablock)
    : M unit :=
  do bl_rna <- gets (λ s, coll_kind (world s) collection);
  match bl_rna with
  | LinkCollection => host (coll_link collection datablock)
  | IDMaterials => host (coll_append collection datablock)
  | NoRna | OtherRna =>
      logger WARNING "add_datablock_ref_element : no implementation for" []
  end.

(** Modelled from the spec: [UnresolvedRefs.resolve], which "runs and clears
    every deferred action registered for that Identifier, in registration
    order".  A deferred action is
    [functools.partial(specifics.add_datablock_ref_element, collection)]. *)
Fixpoint run_deferred (actions : list Coll) (datablock : Datablock) : M unit :=
  match actions with
  | [] => ret tt
  | collection :: rest =>
      add_datablock_ref_element collection datablock;;
      run_deferred rest datablock
  end.

Definition resolve (uuid : string) (datablock : Datablock) : M unit :=
  do pending <- gets (λ s, unresolved_refs s !! uuid);
  match pending with
  | None => ret tt
  | Some actions =>
      run_deferred actions datablock;;
      modify (λ s, set_unresolved_refs (delete uuid (unresolved_refs s)) s)
  end.

(** Modelled from the spec: [DatablockProxy.create_standalone_datablock],
    which "instantiates a live entity from a received proxy via the
    Construction Strategy Table" and yields no live entity when the table
    "returns none"; the table is [specifics.bpy_data_ctor]. *)
Definition create_standalone_datablock (proxy : ProxyRef)
    : M (option Datablock * option (list (string * string * string))) :=
  do p <- deref proxy;
  do datablock <- bpy_data_ctor (collection_name p) proxy;
  match datablock with
  | None => ret (None, None)
  | Some datablock =>
      do p <- deref proxy;
      do renames <- gets (λ s, standalone_renames (world s) p);
      ret (Some datablock, renames)
  end.

(** *** DatablockCollectionProxy *)

(** The block [if incoming_proxy.collection_name == "scenes": ..] of
    [create_datablock]: one existing scene from the document loaded at join
    time could not be removed before and is removed now. *)
Definition remove_placeholder_scene (incoming_proxy : ProxyRef) : M unit :=
  do p <- deref incoming_proxy;
  if decide (collection_name p = "scenes") then
    logger WARNING "Creating scene '' uuid: ''" [mixer_uuid p];;
    do scenes <- host_read (bpy_data_collection "scenes");
    do len_scenes <- gets (λ s, coll_len (world s) scenes);
    do placeholder <- gets (λ s, coll_get (world s) scenes "_mixer_to_be_removed_");
    match placeholder with
    | Some scene_to_remove =>
        if decide (len_scenes = 2) then
          logger WARNING "After create scene '' uuid: ''''" [mixer_uuid p];;
          logger WARNING "... delete  uuid ''" [];;
          host (delete_scene scene_to_remove)
        else ret tt
    | None => ret tt
    end
  else ret tt.

Definition create_datablock (incoming_proxy : ProxyRef)
    : M (option Datablock * option (list (string * string * string))) :=
  do '(datablock, renames) <- create_standalone_datablock incoming_proxy;
  remove_placeholder_scene incoming_proxy;;
  match datablock with
  | None => ret (None, None)
  | Some datablock =>
      do uuid <- gets (λ s, mixer_uuid (heap s incoming_proxy));
      setitem self_data set_self_data uuid incoming_proxy;;
      setitem datablocks set_datablocks uuid (Some datablock);;
      setitem proxies set_proxies uuid incoming_proxy;;
      resolve uuid datablock;;
      ret (Some datablock, renames)
  end.

Definition update_datablock (delta : Delta ProxyRef) : M (option Datablock) :=
  let incoming_proxy := delta_value delta in
  do uuid <- gets (λ s, mixer_uuid (heap s incoming_proxy));
  do proxy <- gets (λ s, proxies s !! uuid);
  match proxy with
  | None =>
      logger ERROR "update_datablock(): Missing proxy for bpy.data.[] uuid" [uuid];;
      ret None
  | Some proxy =>
      do proxy_uuid <- gets (λ s, mixer_uuid (heap s proxy));
      do incoming_uuid <- gets (λ s, mixer_uuid (heap s incoming_proxy));
      if decide (proxy_uuid ≠ incoming_uuid) then
        logger ERROR "update_datablock : uuid mismatch between incoming and existing"
               [incoming_uuid];;
        ret None
      else
        (* the ID will have changed if the object has been morphed *)
        do existing_id <- gets (λ s, py_get (datablocks s) uuid);
        match existing_id with
        | None =>
            logger WARNING "Non existent uuid  while updating" [uuid];;
            ret None
        | Some existing_id =>
            do id_ <- update_standalone_datablock proxy existing_id delta;
            (if decide (Some existing_id ≠ id_) then
               (* Not a problem for light morphing *)
               logger WARNING "Update_datablock changes datablock  to" [];;
               setitem datablocks set_datablocks uuid id_
             else ret tt);;
            ret id_
        end
  end.

(** The body of the [try] of [remove_datablock]: the removal of the live
    datablock. *)
Definition remove_datablock_try (proxy : ProxyRef) (datablock : Datablock) : M unit :=
  do is_scene <- gets (λ s, db_is_scene (world s) datablock);
  if is_scene then host (delete_scene datablock)
  else
    do collection <- proxy_collection proxy;
    host (coll_remove collection datablock).

Definition remove_datablock (proxy : ProxyRef) (datablock : Datablock) : M unit :=
  logger INFO "Perform removal for %s" [];;
  try_except
    (remove_datablock_try proxy datablock)
    is_ReferenceError
    (λ e, logger WARNING "Exception during remove_datablock for" [];;
          logger WARNING "..." []);;
  do uuid <- gets (λ s, mixer_uuid (heap s proxy));
  delitem self_data set_self_data uuid.

Definition rename_datablock (proxy : ProxyRef) (new_name : string)
    (datablock : Datablock) : M unit :=
  logger INFO "rename_datablock proxy %s datablock %s into %s" [new_name];;
  rename proxy new_name;;
  host (db_set_name datablock (PStr new_name)).

Definition add_creation (proxy : ProxyRef) (c : Changeset) : Changeset :=
  mkChangeset (creations c ++ [proxy]) (removals c) (renames c).
Definition add_removal (r : string * string * string) (c : Changeset) : Changeset :=
  mkChangeset (creations c) (removals c ++ [r]) (renames c).
Definition add_rename (r : string * PyVal * string * string) (c : Changeset)
    : Changeset :=
  mkChangeset (creations c) (removals c) (renames c ++ [r]).

(** The body of the [try] of the additions loop. [DatablockProxy.make(id_)]
    builds the object that [load] fills; it is unreachable when [load] raises,
    so it is put in the heap once [load] has returned. *)
Definition update_addition_try (changeset : Changeset) (collection_name name : string)
    : M Changeset :=
  do collection <- host_read (bpy_data_collection collection_name);
  do id_ <- gets (λ s, coll_get (world s) collection name);
  match id_ with
  | None =>
      logger ERROR "update/ request addition for %s[%s] : not found"
             [collection_name; name];;
      ret changeset
  | Some id_ =>
      do uuid <- host (ensure_uuid id_);
      setitem datablocks set_datablocks uuid (Some id_);;
      do loaded <- context_call (load_datablock id_ name collection_name);
      do proxy <- alloc loaded;
      setitem proxies set_proxies uuid proxy;;
      setitem self_data set_self_data uuid proxy;;
      ret (add_creation proxy changeset)
  end.

(** The two [except] clauses. *)
Definition update_addition_except (changeset : Changeset) (e : exn) : M Changeset :=
  (if is_MaxDepthExceeded e then
     logger ERROR "MaxDepthExceeded while loading []:" [];;
     logger ERROR "... Nested attribute depth is too large: " [];;
     logger ERROR "... " []
   else
     logger ERROR "Exception while loading []:" [];;
     log_traceback ERROR (λ line, line) e);;
  ret changeset.

Definition update_addition (added : list (string * string)) (changeset : Changeset)
    (name : string) : M Changeset :=
  do collection_name <-
    match dict_getitem added name with
    | Some c => ret c
    | None => raise KeyError
    end;
  logger INFO "Perform update/creation for %s[%s]" [collection_name; name];;
  try_except (update_addition_try changeset collection_name name)
             any_exception (update_addition_except changeset).

(** One removal. [changeset.removals.append(..)] mutates the changeset before
    anything in the [try] can raise, so the changeset it yields is the
    extended one on both paths. *)
Definition update_removal (changeset : Changeset) (proxy : ProxyRef) : M Changeset :=
  do p <- deref proxy;
  let uuid := mixer_uuid p in
  let changeset := add_removal (uuid, collection_name p, proxy_str p) changeset in
  try_except
    (logger INFO "Perform removal for %s" [];;
     delitem self_data set_self_data uuid;;
     do id_ <- getitem datablocks uuid;
     delitem proxies set_proxies uuid;;
     delitem datablocks set_datablocks uuid;;
     ret changeset)
    any_exception
    (λ e, logger ERROR "Exception during update/removed for proxy )  :" [];;
          log_traceback ERROR (λ line, line) e;;
          ret changeset).

Definition update_rename (changeset : Changeset) (item : ProxyRef * string)
    : M Changeset :=
  let '(proxy, new_name) := item in
  do uuid <- gets (λ s, mixer_uuid (heap s proxy));
  do collection <- proxy_collection proxy;
  do live <- gets (λ s, coll_get (world s) collection new_name);
  do live <- match live with Some d => ret d | None => raise KeyError end;
  do registered <- getitem datablocks uuid;
  (if decide (Some live ≠ registered) then
     logger ERROR "update rename : [] is not  for" [new_name; uuid]
   else ret tt);;
  do p <- deref proxy;
  let old_name := data p "name" in
  let changeset := add_rename (mixer_uuid p, old_name, new_name, proxy_str p) changeset in
  rename proxy new_name;;
  ret changeset.

(** The first loop of [update]. *)
Definition update_additions (diff : BpyPropCollectionDiff) (changeset : Changeset)
    : M Changeset :=
  (* Sort so that the tests receive the messages in deterministic order. *)
  let added_names := sorted (dict_keys (items_added diff)) in
  for_each added_names changeset (update_addition (items_added diff)).

Definition update (diff : BpyPropCollectionDiff) : M Changeset :=
  let changeset := Changeset_new in
  do changeset <- update_additions diff changeset;
  do changeset <- for_each (items_removed diff) changeset update_removal;
  do changeset <- for_each (items_renamed diff) changeset update_rename;
  ret changeset.

(** *** DatablockRefCollectionProxy *)

(** The body of the [try] of [apply], for one item of
    [collection_update._data]. *)
Definition apply_member_try (collection : Coll) (to_blender : bool)
    (k : string) (ref_delta : Member) : M unit :=
  match ref_delta with
  | MDelta (DeltaAddition ref_update as d) | MDelta (DeltaDeletion ref_update as d) =>
      match ref_update with
      | VRefProxy ref_update =>
          (if to_blender then
             let uuid := _datablock_uuid ref_update in
             do datablock <- gets (λ s, py_get (datablocks s) uuid);
             if is_addition d then
               match datablock with
               | Some datablock => host (coll_link collection datablock)
               | None =>
                   logger WARNING "delta apply add for []: unregistered uuid  for"
                          [uuid; _debug_name ref_update]
               end
             else
               match datablock with
               | Some datablock => host (coll_unlink collection datablock)
               | None =>
                   (* we have already processed an Objet removal. Not an error *)
                   ret tt
               end
           else ret tt);;
          if is_addition d then setitem ref_data set_ref_data k ref_update
          else delitem ref_data set_ref_data k
      | _ =>
          logger WARNING "unexpected type for delta_value at []: . Ignored" [k]
      end
  | _ =>
      logger WARNING "unexpected type for delta at []: . Ignored" [k]
  end.

Definition apply_member_except (to_blender : bool) (k : string) (e : exn) : M unit :=
  logger WARNING "DatablockCollectionProxy.apply(). Processing  to_blender" [];;
  logger WARNING "... for []" [k];;
  logger WARNING "... Exception: " [];;
  logger WARNING "... Update ignored" [].

Definition apply_member (collection : Coll) (to_blender : bool)
    (_ : unit) (item : string * Member) : M unit :=
  let '(k, ref_delta) := item in
  try_except (apply_member_try collection to_blender k ref_delta)
             any_exception (apply_member_except to_blender k).

(** [apply] returns [self]; the proxy is [ref_data] of the state it leaves. *)
Definition apply (parent : Parent) (key : string)
    (collection_delta : option (Delta UpdateValue)) (to_blender : bool) : M unit :=
  match collection_delta with
  | None => raise AttributeError
  | Some collection_delta =>
      match delta_value collection_delta with
      | UOther _ => raise AssertionError
      | URefCollection items =>
          do collection <- host_read (parent_getattr parent key);
          for_each items tt (apply_member collection to_blender)
      end
  end.

(** [{item.mixer_uuid: item for item in collection.values()}] *)
Definition blender_items_of (w : World) (collection : Coll) : gmap string Datablock :=
  foldl (λ m item, <[db_mixer_uuid w item := item]> m) ∅ (coll_values w collection).

Definition diff_added (blender_items : gmap string Datablock)
    (diff : gmap string (Delta Value)) (k : string) : M (gmap string (Delta Value)) :=
  do item <- match blender_items !! k with Some i => ret i | None => raise KeyError end;
  do value <- context_read (λ s, read_attribute s item k);
  match value with
  | VDatablockProxy _ | VRefProxy _ => ret (<[k := DeltaAddition value]> diff)
  | VOther _ => raise AssertionError
  end.

Definition diff_deleted (diff : gmap string (Delta Value)) (k : string)
    : M (gmap string (Delta Value)) :=
  do old <- getitem ref_data k;
  ret (<[k := DeltaDeletion (VRefProxy old)]> diff).

(** [self.data(k)] on a [DatablockRefCollectionProxy]: the reference proxy
    under [k], and [None] when there is none. *)
Definition ref_collection_data (proxy_data : gmap string DatablockRefProxy)
    (k : string) : Value :=
  from_option VRefProxy (VOther "None") (proxy_data !! k).

Definition diff_maybe_updated (blender_items : gmap string Datablock)
    (diff : gmap string (Delta Value)) (k : string) : M (gmap string (Delta Value)) :=
  do item <- match blender_items !! k with Some i => ret i | None => raise KeyError end;
  do old <- gets (λ s, ref_collection_data (ref_data s) k);
  do delta <- context_read (λ s, diff_attribute s item k old);
  match delta with
  | None => ret diff
  | Some (DeltaUpdate _ as delta) => ret (<[k := delta]> diff)
  | Some _ => raise AssertionError
  end.

(** [diff]: the three loops run over Python sets, whose iteration order is
    not specified; the order of [elements] stands for it. *)
Definition diff (collection : Coll)
    : M (option (Delta (gmap string (Delta Value)))) :=
  let diff : gmap string (Delta Value) := ∅ in
  (* keys are uuids *)
  do proxy_keys <- gets (λ s, dom (ref_data s));
  do blender_items <- gets (λ s, blender_items_of (world s) collection);
  let blender_keys : gset string := dom blender_items in
  let added_keys := blender_keys ∖ proxy_keys in
  let deleted_keys := proxy_keys ∖ blender_keys in
  let maybe_updated_keys := proxy_keys ∩ blender_keys in
  do diff <- for_each (elements added_keys) diff (diff_added blender_items);
  do diff <- for_each (elements deleted_keys) diff diff_deleted;
  do diff <- for_each (elements maybe_updated_keys) diff (diff_maybe_updated blender_items);
  if decide (size diff ≠ 0) then ret (Some (DeltaUpdate diff))
  else ret None.

(** *** Vocabulary of the statements *)

(** A state with one more log record. *)
Definition logged (l : level) (msg : string) (args : list string) (s : St) : St :=
  set_log (log s ++ [mkLog l msg args]) s.

(** The three ways [update_datablock] gives up. *)
Definition fails_soft (delta : Delta ProxyRef) (s : St) : Prop :=
  let uuid := mixer_uuid (heap s (delta_value delta)) in
  proxies s !! uuid = None
  ∨ (∃ proxy, proxies s !! uuid = Some proxy ∧ mixer_uuid (heap s proxy) ≠ uuid)
  ∨ py_get (datablocks s) uuid = None.

(** The tables of the proxy side are the same in two states: the snapshot
    maps and the three tables of [context.proxy_state]. *)
Definition same_tables (s s' : St) : Prop :=
  self_data s' = self_data s ∧ ref_data s' = ref_data s
  ∧ datablocks s' = datablocks s ∧ proxies s' = proxies s
  ∧ unresolved_refs s' = unresolved_refs s.

(** Every proxy object has the same identifier and collection name in two
    states. *)
Definition same_ids (s s' : St) : Prop :=
  ∀ q, proxy_uuid (heap s' q) = proxy_uuid (heap s q)
       ∧ collection_name (heap s' q) = collection_name (heap s q).

(** The proxy objects are the same in two states. *)
Definition same_heap (s s' : St) : Prop :=
  heap s' = heap s ∧ next_ref s' = next_ref s.

(** The tables of [context.proxy_state] are the same in two states. *)
Definition same_proxy_state (s s' : St) : Prop :=
  datablocks s' = datablocks s ∧ proxies s' = proxies s
  ∧ unresolved_refs s' = unresolved_refs s.

(** The reference snapshot holds the same under key [k] in two states. *)
Definition same_ref_at (k : string) (s s' : St) : Prop :=
  ref_data s' !! k = ref_data s !! k.

(** The four warnings of the [except] clause of [apply]. *)
Definition apply_warnings (k : string) : list LogRecord :=
  [mkLog WARNING "DatablockCollectionProxy.apply(). Processing  to_blender" [];
   mkLog WARNING "... for []" [k];
   mkLog WARNING "... Exception: " [];
   mkLog WARNING "... Update ignored" []].

(** A computation whose final state is always related to its initial state. *)
Definition keeps {A} (R : relation St) (m : M A) : Prop := ∀ s, R s (m s).2.

(** Relations between states that calls into Blender and logging respect. *)
Class Frame (R : relation St) := {
  frame_preorder :: PreOrder R;
  frame_world w s : R s (set_world w s);
  frame_log l s : R s (set_log l s);
}.

(** The records appended to the log between two states. *)
Definition log_since (s s' : St) : list LogRecord := drop (length (log s)) (log s').

(** The three assignments by which [create_datablock] registers a proxy and
    its datablock under an identifier. *)
Definition registered (uuid : string) (proxy : ProxyRef) (datablock : Datablock)
    (s : St) : St :=
  set_proxies (<[uuid := proxy]> (proxies s))
    (set_datablocks (<[uuid := Some datablock]> (datablocks s))
       (set_self_data (<[uuid := proxy]> (self_data s)) s)).

(** The record that opens the processing of an added name. *)
Definition creation_record (added : list (string * string)) (name : string)
    : LogRecord :=
  mkLog INFO "Perform update/creation for %s[%s]"
        [default EmptyString (dict_getitem added name); name].

(** The records of the clause [except MaxDepthExceeded] of [update]. *)
Definition max_depth_records : list LogRecord :=
  [mkLog ERROR "MaxDepthExceeded while loading []:" [];
   mkLog ERROR "... Nested attribute depth is too large: " [];
   mkLog ERROR "... " []].

(** In state [s], the object of [proxy] is one that
    [DatablockProxy.make(id_).load(id_, name, ..)] has returned. *)
Definition loaded_for (s : St) (name : string) (proxy : ProxyRef) : Prop :=
  ∃ id_ collection_name context w',
    load_datablock id_ name collection_name context = (Ok (heap s proxy), w').

(** The identifiers of the members of a live collection. *)
Definition live_ids (w : World) (collection : Coll) : gset string :=
  list_to_set (db_mixer_uuid w <$> coll_values w collection).

(** What the three loops of [diff] put under a key, or the exception they
    stop with. *)
Definition added_entry (context : St) (blender_items : gmap string Datablock)
    (k : string) : outcome (option (Delta Value)) :=
  match blender_items !! k with
  | None => Raise KeyError
  | Some item =>
      match read_attribute context item k with
      | Ok (VOther _) => Raise AssertionError
      | Ok value => Ok (Some (DeltaAddition value))
      | Raise e => Raise e
      end
  end.

Definition deleted_entry (proxy_data : gmap string DatablockRefProxy)
    (k : string) : outcome (option (Delta Value)) :=
  match proxy_data !! k with
  | None => Raise KeyError
  | Some old => Ok (Some (DeltaDeletion (VRefProxy old)))
  end.

Definition updated_entry (context : St) (proxy_data : gmap string DatablockRefProxy)
    (blender_items : gmap string Datablock) (k : string)
    : outcome (option (Delta Value)) :=
  match blender_items !! k with
  | None => Raise KeyError
  | Some item =>
      match diff_attribute context item k (ref_collection_data proxy_data k) with
      | Ok None => Ok None
      | Ok (Some (DeltaUpdate _ as delta)) => Ok (Some delta)
      | Ok (Some _) => Raise AssertionError
      | Raise e => Raise e
      end
  end.

(** [acc[k] = delta] when there is a delta. *)
Definition set_entry (k : string) (entry : option (Delta Value))
    (acc : gmap string (Delta Value)) : gmap string (Delta Value) :=
  match entry with
  | Some delta => <[k := delta]> acc
  | None => acc
  end.

(** The member map [m] of a delta is the difference between the live
    collection with items [blender_items], read in [context], and the snapshot
    [proxy_data]. *)
Definition diff_members (context : St) (proxy_data : gmap string DatablockRefProxy)
    (blender_items : gmap string Datablock) (m : gmap string (Delta Value)) : Prop :=
  (∀ k, k ∈ dom blender_items ∖ dom proxy_data →
     ∃ item value, blender_items !! k = Some item
       ∧ read_attribute context item k = Ok value
       ∧ m !! k = Some (DeltaAddition value))
  ∧ (∀ k, k ∈ dom proxy_data ∖ dom blender_items →
       ∃ old, proxy_data !! k = Some old
         ∧ m !! k = Some (DeltaDeletion (VRefProxy old)))
  ∧ (∀ k, k ∈ dom proxy_data ∩ dom blender_items →
       ∃ item old, blender_items !! k = Some item
         ∧ proxy_data !! k = Some old
         ∧ diff_attribute context item k (VRefProxy old) = Ok (m !! k)
         ∧ ∀ delta, m !! k = Some delta → is_update delta = true)
  ∧ (∀ k, k ∉ dom proxy_data ∪ dom blender_items → m !! k = None).

(** The reads that [diff] makes return, with values of the asserted classes. *)
Definition diff_reads_succeed (context : St)
    (proxy_data : gmap string DatablockRefProxy)
    (blender_items : gmap string Datablock) : Prop :=
  (∀ k item, proxy_data !! k = None → blender_items !! k = Some item →
     ∃ value, read_attribute context item k = Ok value ∧ ∀ descr, value ≠ VOther descr)
  ∧ (∀ k item old, blender_items !! k = Some item → proxy_data !! k = Some old →
       ∃ delta, diff_attribute context item k (VRefProxy old) = Ok delta
         ∧ ∀ d, delta = Some d → is_update d = true).

(** What [diff] returns for a member map. *)
Definition diff_result (m : gmap string (Delta Value))
    : option (Delta (gmap string (Delta Value))) :=
  if decide (m = ∅) then None else Some (DeltaUpdate m).

End Model.

(** * More of the code

    ** node_proxy.py: the links of a node tree *)

(** A node socket: its identity and its [identifier]. *)
Record NodeSocket := mkSocket {
  socket_handle : N;
  identifier : string;
}.

Global Instance NodeSocket_eq_dec : EqDecision NodeSocket.
Proof. solve_decision. Defined.

(** A node, as far as the links proxy reads it. *)
Record Node := mkNode {
  node_name : string;
  node_inputs : list NodeSocket;
  node_outputs : list NodeSocket;
}.

(** A [bpy.types.NodeLink]: [link.from_node], [link.from_socket],
    [link.to_node], [link.to_socket]. *)
Record NodeLink := mkLink {
  link_from_node : Node;
  link_from_socket : NodeSocket;
  link_to_node : Node;
  link_to_socket : NodeSocket;
}.

(** An item of [NodeLinksProxy._sequence]: the dict with the keys
    ["from_node"], ["from_socket"], ["to_node"], ["to_socket"]. *)
Record LinkItem := mkItem {
  from_node : string;
  from_socket : Z;
  to_node : string;
  to_socket : Z;
}.

Global Instance LinkItem_eq_dec : EqDecision LinkItem.
Proof. solve_decision. Defined.

(** [for i, socket in enumerate(sockets)], from index [i] on. *)
Fixpoint find_socket_from (i : Z) (sockets : list NodeSocket) (identifier_ : string)
    : Z :=
  match sockets with
  | [] => -1
  | socket :: rest =>
      if decide (identifier socket = identifier_) then i
      else find_socket_from (i + 1) rest identifier_
  end.

Definition _find_socket (sockets : list NodeSocket) (identifier_ : string) : Z :=
  find_socket_from 0 sockets identifier_.

(** [NodeLinksProxy], a [StructCollectionProxy] of which the methods at hand
    use [_sequence] only. *)
Record NodeLinksProxy := mkNodeLinks {
  _sequence : list LinkItem;
}.

Global Instance NodeLinksProxy_eq_dec : EqDecision NodeLinksProxy.
Proof. solve_decision. Defined.

(** [NodeLinksProxy._load] *)
Definition _load (links : list NodeLink) : list LinkItem :=
  (λ link,
     (* Nodes names are unique in a node_tree.  Node socket names are *not*
        unique in a node_tree, so use index in array *)
     {| from_node := node_name (link_from_node link);
        from_socket := _find_socket (node_outputs (link_from_node link))
                                    (identifier (link_from_socket link));
        to_node := node_name (link_to_node link);
        to_socket := _find_socket (node_inputs (link_to_node link))
                                  (identifier (link_to_socket link)) |}) <$> links.

(** [NodeLinksProxy.load]: [self] with its new sequence. *)
Definition NodeLinksProxy_load (self : NodeLinksProxy) (links : list NodeLink)
    : NodeLinksProxy :=
  mkNodeLinks (_load links).

(** [NodeLinksProxy.diff]: always complete updates. *)
Definition NodeLinksProxy_diff (self : NodeLinksProxy) (links : list NodeLink)
    : option (Delta NodeLinksProxy) :=
  let blender_links := _load links in
  if decide (blender_links = _sequence self) then None
  else Some (DeltaUpdate (mkNodeLinks blender_links)).

(** [sequence[index]] on a Python sequence: a negative index counts from the
    end; out of range there is no item ([IndexError]). *)
Definition py_index {A} (sequence : list A) (index : Z) : option A :=
  if decide (0 ≤ index)%Z then sequence !! Z.to_nat index
  else if decide (- Z.of_nat (length sequence) ≤ index)%Z
       then sequence !! Z.to_nat (Z.of_nat (length sequence) + index)
       else None.

(** The node tree on the Blender side. *)
Class NodeHost (World : Type) := {
  (** [isinstance(node_tree, T.NodeTree)] *)
  is_node_tree : World → Parent → bool;
  (** [node_tree.links.clear()] *)
  links_clear : Parent → World → outcome unit * World;
  (** [node_tree.nodes.get(name)] *)
  nodes_get : World → Parent → string → option N;
  (** [node.outputs] and [node.inputs], as sequences *)
  outputs_of : World → N → list (option NodeSocket);
  inputs_of : World → N → list (option NodeSocket);
  (** [node_tree.links.new(from_socket, to_socket)] *)
  links_new : Parent → NodeSocket → NodeSocket → World → outcome unit * World;
}.

Section NodeLinks.
Context {World : Type} `{!NodeHost World}.

Abbreviation M := (M World).
Abbreviation St := (St World).

(** [sequence[index]], raising [IndexError] *)
Definition getitem_index {A} (sequence : St → list A) (index : Z) : M A :=
  do item <- gets (λ s, py_index (sequence s) index);
  match item with
  | Some item => ret item
  | None => raise (OtherException "IndexError")
  end.

(** The body of the loop of [NodeLinksProxy.save] for one item; [false] when
    the method returns from inside the loop. *)
Definition save_link (node_tree : Parent) (link_proxy : LinkItem) : M bool :=
  let from_node_name := from_node link_proxy in
  let from_socket_index := from_socket link_proxy in
  let to_node_name := to_node link_proxy in
  let to_socket_index := to_socket link_proxy in
  do from_node <- gets (λ s, nodes_get (world s) node_tree from_node_name);
  match from_node with
  | None =>
      logger ERROR "save(): from_node is None for .nodes[]" [from_node_name];;
      ret false
  | Some from_node =>
      do from_socket <-
        getitem_index (λ s, outputs_of (world s) from_node) from_socket_index;
      match from_socket with
      | None =>
          logger ERROR "save(): from_socket is None for .nodes[].ouputs[]"
                 [from_node_name];;
          ret false
      | Some from_socket =>
          do to_node <- gets (λ s, nodes_get (world s) node_tree to_node_name);
          match to_node with
          | None =>
              logger ERROR "save(): to_node is None for .nodes[]" [to_node_name];;
              ret false
          | Some to_node =>
              do to_socket <-
                getitem_index (λ s, inputs_of (world s) to_node) to_socket_index;
              match to_socket with
              | None =>
                  logger ERROR "save(): to_socket is None for .nodes[].inputs[]"
                         [to_node_name];;
                  ret false
              | Some to_socket =>
                  host (links_new node_tree from_socket to_socket);;
                  ret true
              end
          end
      end
  end.

(** [for link_proxy in self._sequence: ..], which a [return] leaves. *)
Fixpoint save_links (node_tree : Parent) (sequence : list LinkItem) : M unit :=
  match sequence with
  | [] => ret tt
  | link_proxy :: rest =>
      do go_on <- save_link node_tree link_proxy;
      if go_on then save_links node_tree rest else ret tt
  end.

(** [NodeLinksProxy.save]: saves this proxy into [node_tree.links]. *)
Definition NodeLinksProxy_save (self : NodeLinksProxy) (node_tree : Parent) : M unit :=
  do is_tree <- gets (λ s, is_node_tree (world s) node_tree);
  if negb is_tree then
    logger ERROR "save(): attribute  ..." [];;
    logger ERROR "... has type " [];;
    logger ERROR "... expected a bpy.types.NodeTree" []
  else
    host (links_clear node_tree);;
    save_links node_tree (_sequence self).

(** [NodeLinksProxy.apply]: [self] is assigned the sequence of the update
    before [save] runs, so the proxy after the call is given beside the
    outcome, whatever the outcome is. *)
Definition NodeLinksProxy_apply (self : NodeLinksProxy) (parent : Parent) (key : PyVal)
    (delta : Delta NodeLinksProxy) (to_blender : bool)
    : St → outcome unit * NodeLinksProxy * St :=
  λ s,
    match key with
    | PStr _ =>
        let update := delta_value delta in
        let self := mkNodeLinks (_sequence update) in
        (* update Blender *)
        if to_blender then
          let '(r, s') := NodeLinksProxy_save self parent s in (r, self, s')
        else (Ok tt, self, s)
    | _ => (Raise AssertionError, self, s)
    end.

End NodeLinks.

(** ** specifics.py: the properties that depend on other properties *)

(** A [bpy_struct], as far as [conditional_properties] looks at it: the
    classes it is an instance of and the truth value of its attributes. *)
Record BpyStruct := mkStruct {
  isinstance : string → bool;
  attribute : string → bool;
}.

Definition filter_crop_transform : list string :=
  ["EffectSequence"; "ImageSequence"; "MaskSequence"; "MetaSequence";
   "MovieClipSequence"; "MovieSequence"; "SceneSequence"].

(** [d[k] = v] on a dict given by its items: a key keeps its place. *)
Fixpoint dict_setitem {V} (items : list (string * V)) (k : string) (v : V)
    : list (string * V) :=
  match items with
  | [] => [(k, v)]
  | (k', v') :: rest =>
      if decide (k' = k) then (k, v) :: rest else (k', v') :: dict_setitem rest k v
  end.

(** [{k: v for k, v in properties if k not in filter_props}.items()] *)
Definition filtered_items {V} (properties : list (string * V))
    (filter_props : list string) : list (string * V) :=
  foldl (λ filtered kv, if decide (kv.1 ∈ filter_props) then filtered
                         else dict_setitem filtered kv.1 kv.2)
        [] properties.

Definition conditional_properties {V} (bpy_struct : BpyStruct)
    (properties : list (string * V)) : list (string * V) :=
  if isinstance bpy_struct "ColorManagedViewSettings" then
    if attribute bpy_struct "use_curve_mapping" then properties
    else filtered_items properties ["curve_mapping"]
  else if isinstance bpy_struct "Object" then
    if negb (attribute bpy_struct "data") then properties
    else filtered_items properties ["instance_collection"]
  else if isinstance bpy_struct "Mesh" then
    if negb (attribute bpy_struct "use_auto_texspace") then properties
    else filtered_items properties ["texspace_location"; "texspace_size"]
  else if isinstance bpy_struct "MetaBall" then
    if negb (attribute bpy_struct "use_auto_texspace") then properties
    else filtered_items properties ["texspace_location"; "texspace_size"]
  else if isinstance bpy_struct "Node" then
    if attribute bpy_struct "hide" then properties
    else (* not hidden: saving width_hidden is ignored *)
      filtered_items properties ["width_hidden"]
  else if isinstance bpy_struct "NodeTree" then
    if negb (attribute bpy_struct "is_embedded_data") then properties
    else filtered_items properties ["name"]
  else
    let filter_props :=
      if existsb (isinstance bpy_struct) filter_crop_transform then
        (if negb (attribute bpy_struct "use_crop") then ["crop"] else [])
        ++ (if negb (attribute bpy_struct "use_translation") then ["transform"] else [])
      else [] in
    match filter_props with
    | [] => properties
    | _ => filtered_items properties filter_props
    end.

(** The names that [conditional_properties] may leave out. *)
Definition conditional_names : list string :=
  ["curve_mapping"; "instance_collection"; "texspace_location"; "texspace_size";
   "width_hidden"; "name"; "crop"; "transform"].

(** ** Vocabulary for the reference collection *)

(** What [DatablockRefCollectionProxy.apply] leaves under the key of a member
    when it does not write to Blender, given what was there. *)
Definition applied_entry (member : Member) (old : option DatablockRefProxy)
    : option DatablockRefProxy :=
  match member with
  | MDelta (DeltaAddition (VRefProxy ref_update)) => Some ref_update
  | MDelta (DeltaDeletion (VRefProxy _)) => None
  | _ => old
  end.

(** ** More of the collections, and misc_proxies.py *)

(** What these methods ask of Blender and of [DatablockRefProxy] beside
    [Host]. *)
Class CollectionHost (World : Type) := {
  (** [for item in bl_collection]: the items, [None] included *)
  coll_iter : World → Coll → list (option Datablock);
  (** [item.name] *)
  db_name : World → Datablock → string;
  (** [DatablockRefProxy().load(item, item.name, context)]: the proxy that the
      call leaves, or the exception it raises *)
  ref_proxy_load : St World → Datablock → string → outcome DatablockRefProxy;
  (** [setattr(bl_instance, attr_name, value)] for a pointer attribute *)
  struct_setattr : Parent → string → option Datablock → World → outcome unit * World;
}.

Definition is_AttributeError (e : exn) : bool :=
  bool_decide (e = AttributeError).

Section Collections.
Context {World : Type} `{!Host World} `{!CollectionHost World}.

Abbreviation M := (M World).
Abbreviation St := (St World).

(** [{datablock.mixer_uuid: datablock for datablock in collection}] *)
Definition datablocks_by_uuid (collection : Coll)
    : M (gmap string (option Datablock)) :=
  do items <- gets (λ s, coll_iter (world s) collection);
  for_each items ∅ (λ by_uuid datablock,
    match datablock with
    | Some datablock =>
        do uuid <- gets (λ s, db_mixer_uuid (world s) datablock);
        ret (<[uuid := Some datablock]> by_uuid)
    | None => raise AttributeError
    end).

(** [DatablockCollectionProxy.reload_datablocks] of the proxy named [_name]:
    the dict it is given, after the update. *)
Definition reload_datablocks (_name : string)
    (datablocks : gmap string (option Datablock))
    : M (gmap string (option Datablock)) :=
  do collection <- host_read (bpy_data_collection _name);
  do by_uuid <- datablocks_by_uuid collection;
  ret (by_uuid ∪ datablocks).

(** The body of the loop of [DatablockRefCollectionProxy.load]. *)
Definition load_reference (key : string) (_ : unit) (item : option Datablock)
    : M unit :=
  match item with
  | Some item =>
      do uuid <- gets (λ s, db_mixer_uuid (world s) item);
      do name <- gets (λ s, db_name (world s) item);
      do proxy <- context_read (λ s, ref_proxy_load s item name);
      setitem ref_data set_ref_data uuid proxy
  | None => logger ERROR "unexpected None in ." [key]
  end.

(** [DatablockRefCollectionProxy.load]; it returns [self], the proxy is
    [ref_data] of the state it leaves. *)
Definition DatablockRefCollectionProxy_load (bl_collection : Coll) (key : string)
    : M unit :=
  do items <- gets (λ s, coll_iter (world s) bl_collection);
  for_each items tt (load_reference key).

(** [NonePtrProxy.save] *)
Definition NonePtrProxy_save (bl_instance : Parent) (attr_name : string) : M unit :=
  try_except
    (host (struct_setattr bl_instance attr_name None))
    is_AttributeError
    (λ e, logger DEBUG "NonePtrProxy.save() exception ..." [];;
          logger DEBUG "... " []).

(** [NonePtrProxy.apply]: the proxy that takes the place of this one. *)
Definition NonePtrProxy_apply (parent : Parent) (key : string) (delta : Delta Value)
    (to_blender : bool) : M (option DatablockRefProxy) :=
  let update := delta_value delta in
  match update with
  | VRefProxy update =>
      (if to_blender then
         do datablock <- gets (λ s, py_get (datablocks s) (_datablock_uuid update));
         host (struct_setattr parent key datablock)
       else ret tt);;
      ret (Some update)
  | _ =>
      (* A none PointerProperty that can point to something that is not a
         datablock. *)
      logger ERROR "apply(, ) called with a  at" [key];;
      ret None
  end.

End Collections.

(** ** specifics.py: [resize_geometry] and [truncate_collection] *)

(** The collection to truncate, its [bl_rna], and the function that the visit
    state keeps under ["Mesh.clear_geometry"]. *)
Class SequenceHost (World : Type) := {
  (** [hasattr(target, "bl_rna")] *)
  has_bl_rna : World → Coll → bool;
  (** [any(isinstance(target_rna, t) for t in always_clear)] *)
  rna_always_clear : World → Coll → bool;
  (** [isinstance(target_rna, _resize_geometry_types)] *)
  rna_resize_geometry : World → Coll → bool;
  (** [isinstance(target_rna, type(T.GPencilStrokePoints.bl_rna))] *)
  rna_stroke_points : World → Coll → bool;
  (** [isinstance(target_rna, type(T.KeyingSets.bl_rna))] *)
  rna_keying_sets : World → Coll → bool;
  (** [len(target)] *)
  target_len : World → Coll → Z;
  (** [target.clear()], [target.add(n)], [target.pop()] *)
  target_clear : Coll → World → outcome unit * World;
  target_add : Coll → Z → World → outcome unit * World;
  target_pop : Coll → World → outcome unit * World;
  (** [set(target.keys())] *)
  target_keys : World → Coll → gset string;
  (** [target.active_index = target.find(k)] *)
  target_activate : Coll → string → World → outcome unit * World;
  (** [bpy.ops.anim.keying_set_remove()] *)
  keying_set_remove : World → outcome unit * World;
  (** [target.remove(target[k])] *)
  target_remove_key : Coll → string → World → outcome unit * World;
  (** [visit_state.funcs["Mesh.clear_geometry"]()] and
      [del visit_state.funcs["Mesh.clear_geometry"]] *)
  call_clear_geometry : World → outcome unit * World;
  del_clear_geometry : World → outcome unit * World;
}.

Section Truncate.
Context {World : Type} `{!SequenceHost World} `{!Traceback World}.

Abbreviation M := (M World).
Abbreviation St := (St World).

(** [resize_geometry]; [incoming_length] is [proxy.length]. *)
Definition resize_geometry (mesh_geometry_item : Coll) (incoming_length : Z) : M unit :=
  do existing_length <- gets (λ s, target_len (world s) mesh_geometry_item);
  if decide (existing_length ≠ incoming_length) then
    (if decide (existing_length ≠ 0%Z) then
       logger DEBUG "resize_geometry(): calling clear() for" [];;
       host call_clear_geometry;;
       (* We should need it only once for a whole Mesh *)
       host del_clear_geometry
     else ret tt);;
    logger DEBUG "resize_geometry(): add() for" [];;
    host (target_add mesh_geometry_item incoming_length)
  else ret tt.

(** [while delta < 0: target.pop(); delta += 1], with the number of rounds
    bounded by [fuel]; [None] when the fuel runs out. *)
Fixpoint pop_while (fuel : nat) (target : Coll) (delta : Z) : M (option unit) :=
  match fuel with
  | O => ret None
  | S fuel =>
      if decide (delta < 0)%Z then
        host (target_pop target);;
        pop_while fuel target (delta + 1)%Z
      else ret (Some tt)
  end.

(** [truncate_collection]; [incoming_length] is [proxy.length] and
    [incoming_keys] is [set(proxy._data.keys())].  The loops over
    [truncate_keys] run over a Python set; the order of [elements] stands for
    its order. *)
Definition truncate_collection (fuel : nat) (target : Coll) (incoming_length : Z)
    (incoming_keys : gset string) : M (option unit) :=
  do with_rna <- gets (λ s, has_bl_rna (world s) target);
  if negb with_rna then ret (Some tt)
  else
    do always_clear <- gets (λ s, rna_always_clear (world s) target);
    if always_clear then
      host (target_clear target);;
      ret (Some tt)
    else
      do resize <- gets (λ s, rna_resize_geometry (world s) target);
      if resize then
        resize_geometry target incoming_length;;
        ret (Some tt)
      else
        do stroke_points <- gets (λ s, rna_stroke_points (world s) target);
        if stroke_points then
          do existing_length <- gets (λ s, target_len (world s) target);
          let delta := (incoming_length - existing_length)%Z in
          if decide (delta > 0)%Z then
            host (target_add target delta);;
            ret (Some tt)
          else pop_while fuel target delta
        else
          do existing_keys <- gets (λ s, target_keys (world s) target);
          let truncate_keys := existing_keys ∖ incoming_keys in
          if decide (truncate_keys = ∅) then ret (Some tt)
          else
            do keying_sets <- gets (λ s, rna_keying_sets (world s) target);
            if keying_sets then
              for_each (elements truncate_keys) tt (λ _ k,
                host (target_activate target k);;
                host keying_set_remove);;
              ret (Some tt)
            else
              try_except
                (for_each (elements truncate_keys) tt (λ _ k,
                   host (target_remove_key target k)))
                any_exception
                (λ e, logger WARNING "Not implemented truncate_collection for type  for  ..." [];;
                      log_traceback WARNING (λ line, "..." +:+ line) e);;
              ret (Some tt).

End Truncate.

(** * A small Blender

    A concrete world on which the methods run: the collections of [bpy.data]
    hold named datablocks, a struct has one attribute [objects] that is a
    collection of references, and a datablock can be linked once. *)

Module Sample.

Record World := mkWorld {
  named : list (Coll * string * Datablock);   (* the items of bpy.data.<collection> *)
  members : list (Coll * Datablock);          (* the members of reference collections *)
  uuids : list (Datablock * string);          (* datablock.mixer_uuid *)
}.

Definition lookup_named (w : World) (c : Coll) (name : string) : option Datablock :=
  (λ x, x.2) <$> head (filter (λ x, x.1.1 = c ∧ x.1.2 = name) (named w)).

Definition uuid_of (w : World) (d : Datablock) : string :=
  default EmptyString ((λ x, x.2) <$> head (filter (λ x, x.1 = d) (uuids w))).

Definition link (c : Coll) (d : Datablock) (w : World) : outcome unit * World :=
  if decide ((c, d) ∈ members w) then (Raise RuntimeError, w)
  else (Ok tt, mkWorld (named w) (members w ++ [(c, d)]) (uuids w)).

Definition unlink (c : Coll) (d : Datablock) (w : World) : outcome unit * World :=
  if decide ((c, d) ∈ members w)
  then (Ok tt, mkWorld (named w) (filter (λ x, x ≠ (c, d)) (members w)) (uuids w))
  else (Raise RuntimeError, w).

(** Removing a datablock that is gone raises [ReferenceError]. *)
Definition remove (c : Coll) (d : Datablock) (w : World) : outcome unit * World :=
  if decide (d ∈ (λ x, x.2) <$> filter (λ x, x.1.1 = c) (named w))
  then (Ok tt, mkWorld (filter (λ x, x.2 ≠ d) (named w))
                       (filter (λ x, x.2 ≠ d) (members w)) (uuids w))
  else (Raise ReferenceError, w).

(** [new] wants a name first; images cannot be made. *)
Definition new (c : Coll) (args : list PyVal) (w : World) : outcome Datablock * World :=
  match args with
  | PStr name :: _ =>
      if decide (c = 4%N) then (Raise RuntimeError, w)
      else
        let d := (1000 + N.of_nat (length (named w)))%N in
        (Ok d, mkWorld (named w ++ [(c, name, d)]) (members w) (uuids w))
  | _ => (Raise TypeError, w)
  end.

Definition collection_of (name : string) : outcome Coll :=
  if decide (name = "objects") then Ok 1%N
  else if decide (name = "lights") then Ok 2%N
  else if decide (name = "scenes") then Ok 3%N
  else if decide (name = "images") then Ok 4%N
  else if decide (name = "materials") then Ok 5%N
  else Raise AttributeError.

(** Loading the datablock named ["Deep"] exceeds the nesting depth. *)
Definition load (d : Datablock) (name collection_name : string) (w : World)
    : outcome ProxyObj * World :=
  if decide (name = "Deep") then (Raise MaxDepthExceeded, w)
  else (Ok (mkProxy (uuid_of w d) collection_name {["name" := PStr name]}), w).

(** Updating the light with handle 11 makes another light, with handle 21. *)
Definition update_standalone (proxy : ProxyRef) (existing : Datablock)
    (delta : Delta ProxyRef) (s : St World) : outcome (option Datablock) * St World :=
  if decide (existing = 11%N) then (Ok (Some 21%N), s) else (Ok (Some existing), s).

(** The delta of a member of both sides: none when the reference of the
    snapshot still points to the item. *)
Definition diff_reference (w : World) (item : Datablock) (k : string) (value : Value)
    : outcome (option (Delta Value)) :=
  match value with
  | VRefProxy r =>
      if decide (_datablock_uuid r = uuid_of w item) then Ok None
      else Ok (Some (DeltaUpdate (VRefProxy (mkRef (uuid_of w item) "ref"))))
  | _ => Ok None
  end.

#[export] Instance host : Host World := {|
  bpy_data_collection name w := collection_of name;
  parent_getattr parent key w :=
    if decide (key = "objects") then Ok (100 + parent)%N else Raise AttributeError;
  coll_get := lookup_named;
  coll_len w c := length (filter (λ x, x.1.1 = c) (named w));
  coll_values w c := (λ x, x.2) <$> filter (λ x, x.1 = c) (members w);
  coll_kind w c := if decide (100 ≤ c)%N then LinkCollection else OtherRna;
  db_mixer_uuid := uuid_of;
  db_is_scene w d := bool_decide (d ∈ (λ x, x.2) <$> filter (λ x, x.1.1 = 3%N) (named w));
  coll_link := link;
  coll_unlink := unlink;
  coll_append c d w := (Ok tt, mkWorld (named w) (members w ++ [(c, d)]) (uuids w));
  coll_remove := remove;
  coll_new := new;
  coll_load c path w := (Raise RuntimeError, w);
  image_pack d buffer w := (Ok tt, w);
  db_set_name d name w := (Ok tt, w);
  file_read path w := (Raise OSError, w);
  get_resolved_file_path w path := path;
  delete_scene d w := remove 3%N d w;
  ensure_uuid d w := (Ok (uuid_of w d), w);
  load_datablock d name collection_name s := load d name collection_name (world s);
  read_attribute s item k := Ok (VRefProxy (mkRef (uuid_of (world s) item) "ref"));
  diff_attribute s := diff_reference (world s);
  update_standalone_datablock := update_standalone;
  standalone_renames w p := None;
  proxy_str p := "DatablockProxy " +:+ proxy_uuid p;
|}.

(** The traceback of an exception has three lines. *)
#[export] Instance traceback : Traceback World := {|
  format_exc s e :=
    ["Traceback (most recent call last):"; "  File datablock_collection_proxy.py";
     "Exception"];
|}.

(** The scene: objects Cube (already renamed Box in Blender), Light and Cone;
    the light behind handle 13 is gone.  The struct 0 has the objects Cube and
    Cone in its collection. *)
Definition w0 : World := {|
  named := [(1, "Box", 10); (1, "Light", 11); (1, "Cone", 12); (1, "Deep", 14);
            (1, "Plane", 15)]%N;
  members := [(100, 10); (100, 12)]%N;
  uuids := [(10, "u-cube"); (11, "u-light"); (12, "u-cone"); (13, "u-gone");
            (14, "u-deep"); (15, "u-plane")]%N;
|}.

Definition cube : ProxyObj := mkProxy "u-cube" "objects" {["name" := PStr "Cube"]}.
Definition light : ProxyObj := mkProxy "u-light" "objects" {["name" := PStr "Light"]}.
Definition gone : ProxyObj := mkProxy "u-gone" "lights" {["name" := PStr "Gone"]}.
Definition incoming : ProxyObj := mkProxy "u-new" "materials" {["name" := PStr "Mat"]}.
Definition nameless : ProxyObj := mkProxy "u-bad" "materials" ∅.
Definition stray : ProxyObj := mkProxy "u-stray" "objects" ∅.

Definition heap0 (r : ProxyRef) : ProxyObj :=
  if decide (r = 0%N) then cube
  else if decide (r = 1%N) then light
  else if decide (r = 2%N) then gone
  else if decide (r = 3%N) then incoming
  else if decide (r = 4%N) then nameless
  else stray.

(** The snapshot of the reference collection has Cube and Light; the live
    collection has Cube and Cone. *)
Definition s0 : St World := {|
  world := w0;
  heap := heap0;
  next_ref := 6%N;
  self_data := {["u-cube" := 0%N; "u-light" := 1%N; "u-gone" := 2%N]};
  ref_data := {["u-cube" := mkRef "u-cube" "Cube"; "u-light" := mkRef "u-light" "Light"]};
  datablocks := {["u-cube" := Some 10%N; "u-light" := Some 11%N; "u-gone" := Some 13%N]};
  proxies := {["u-cube" := 0%N; "u-light" := 1%N; "u-gone" := 2%N]};
  unresolved_refs := {["u-new" := [100%N]]};
  log := [];
|}.

(** The member map of the delta between that live collection and that
    snapshot: Cone is added and Light is deleted. *)
Definition delta0 : gmap string (Delta Value) :=
  {["u-cone" := DeltaAddition (VRefProxy (mkRef "u-cone" "ref"));
    "u-light" := DeltaDeletion (VRefProxy (mkRef "u-light" "Light"))]}.

(** The same scene with a snapshot whose entry for Cube holds a stale
    reference, and the member map of its delta. *)
Definition s_stale : St World :=
  set_ref_data {["u-cube" := mkRef "u-stale" "Cube";
                 "u-light" := mkRef "u-light" "Light"]} s0.

Definition delta_stale : gmap string (Delta Value) :=
  {["u-cone" := DeltaAddition (VRefProxy (mkRef "u-cone" "ref"));
    "u-cube" := DeltaUpdate (VRefProxy (mkRef "u-cube" "ref"));
    "u-light" := DeltaDeletion (VRefProxy (mkRef "u-light" "Light"))]}.

End Sample.

(** * A small node tree, and more of the small Blender *)

Module SampleNodes.

(** The node tree 0 has the nodes Texture, with the outputs Color and Alpha,
    and Output, with the input Surface; the world is the list of its links. *)
Definition World := list (NodeSocket * NodeSocket).

Definition color : NodeSocket := mkSocket 1 "Color".
Definition alpha : NodeSocket := mkSocket 2 "Alpha".
Definition surface : NodeSocket := mkSocket 3 "Surface".

Definition texture : Node := mkNode "Texture" [] [color; alpha].
Definition output : Node := mkNode "Output" [surface] [].

#[export] Instance host : NodeHost World := {|
  is_node_tree w node_tree := bool_decide (node_tree = 0%N);
  links_clear node_tree w := (Ok tt, []);
  nodes_get w node_tree name :=
    if decide (name = "Texture") then Some 1%N
    else if decide (name = "Output") then Some 2%N
    else None;
  outputs_of w node := if decide (node = 1%N) then [Some color; Some alpha] else [];
  inputs_of w node := if decide (node = 2%N) then [Some surface] else [];
  links_new node_tree from_socket_ to_socket_ w := (Ok tt, w ++ [(from_socket_, to_socket_)]);
|}.

(** Alpha of Texture goes to Surface of Output. *)
Definition link0 : NodeLink := mkLink texture alpha output surface.

(** A link from a socket that its node no longer has. *)
Definition link_gone : NodeLink := mkLink texture (mkSocket 9 "Gone") output surface.

Definition good : LinkItem := mkItem "Texture" 1 "Output" 0.
Definition bad : LinkItem := mkItem "Missing" 0 "Output" 0.

Definition s0 : St World := {|
  world := [(color, surface)];
  heap := λ _, mkProxy EmptyString EmptyString ∅;
  next_ref := 0%N;
  self_data := ∅;
  ref_data := ∅;
  datablocks := ∅;
  proxies := ∅;
  unresolved_refs := ∅;
  log := [];
|}.

End SampleNodes.

Module SampleCollections.
Import Sample.

(** Iterating a collection of [bpy.data] gives its named datablocks; iterating
    a collection of references gives its members. *)
#[export] Instance collections : CollectionHost World := {|
  coll_iter w c :=
    if decide (c < 100)%N then Some <$> ((λ x, x.2) <$> filter (λ x, x.1.1 = c) (named w))
    else Some <$> ((λ x, x.2) <$> filter (λ x, x.1 = c) (members w));
  db_name w d :=
    default EmptyString ((λ x, x.1.2) <$> head (filter (λ x, x.2 = d) (named w)));
  ref_proxy_load s d name := Ok (mkRef (uuid_of (world s) d) name);
  struct_setattr bl_instance attr_name value w := (Ok tt, w);
|}.

(** An object struct with data, and its properties. *)
Definition object_with_data : BpyStruct :=
  mkStruct (λ class, bool_decide (class = "Object"))
           (λ attr, bool_decide (attr = "data")).

Definition object_properties : list (string * nat) :=
  [("name", 1%nat); ("instance_collection", 2%nat); ("location", 3%nat)].

(** A diff with one added datablock and one removed proxy. *)
Definition diff_plane : BpyPropCollectionDiff :=
  mkDiff [("Plane", "objects")] [1%N] [].

End SampleCollections.

Module SampleStrokes.

(** The collection 0 holds stroke points, and the world is their number; the
    collection 1 is of no special kind and has the keys a and b, of which b
    cannot be removed. *)
Definition World := nat.

#[export] Instance strokes : SequenceHost World := {|
  has_bl_rna w target := true;
  rna_always_clear w target := false;
  rna_resize_geometry w target := false;
  rna_stroke_points w target := bool_decide (target = 0%N);
  rna_keying_sets w target := false;
  target_len w target := Z.of_nat w;
  target_clear target w := (Ok tt, 0%nat);
  target_add target n w :=
    if decide (0 ≤ n)%Z then (Ok tt, (w + Z.to_nat n)%nat)
    else (Raise (OtherException "ValueError"), w);
  target_pop target w :=
    match w with
    | O => (Raise (OtherException "IndexError"), w)
    | S w' => (Ok tt, w')
    end;
  target_keys w target := {["a"; "b"]};
  target_activate target k w := (Ok tt, w);
  keying_set_remove w := (Ok tt, w);
  target_remove_key target k w :=
    if decide (k = "b") then (Raise TypeError, w) else (Ok tt, w);
  call_clear_geometry w := (Ok tt, 0%nat);
  del_clear_geometry w := (Ok tt, w);
|}.

#[export] Instance traceback : Traceback World := {|
  format_exc s e := ["Traceback (most recent call last):"; "TypeError"];
|}.

(** Five points. *)
Definition s0 : St World := {|
  world := 5%nat;
  heap := λ _, mkProxy EmptyString EmptyString ∅;
  next_ref := 0%N;
  self_data := ∅;
  ref_data := ∅;
  datablocks := ∅;
  proxies := ∅;
  unresolved_refs := ∅;
  log := [];
|}.

End SampleStrokes.

(** * Properties *)

Section Proofs.
Context {World : Type} `{!Host World} `{!Traceback World}.

Abbreviation M := (M World).
Abbreviation St := (St World).

Ltac munfold :=
  unfold proxy_collection, getitem, delitem, setitem, deref, logger,
    try_except, bind, ret, raise, gets, modify, host, host_read,
    context_call, context_read in *.

Lemma for_each_app {A B} (l1 l2 : list A) (acc : B) (body : B → A → M B) (s : St) :
  for_each (l1 ++ l2) acc body s =
  match for_each l1 acc body s with
  | (Ok acc', s') => for_each l2 acc' body s'
  | (Raise e, s') => (Raise e, s')
  end.
Proof.
  revert acc s. induction l1 as [|x l1 IH]; intros acc s; simpl; [done|].
  unfold bind. destruct (body acc x s) as [[acc'|e] s']; [apply IH|done].
Qed.

Lemma for_each_cons {A B} (x : A) (l : list A) (acc : B) (body : B → A → M B) (s : St) :
  for_each (x :: l) acc body s =
  match body acc x s with
  | (Ok acc', s') => for_each l acc' body s'
  | (Raise e, s') => (Raise e, s')
  end.
Proof. done. Qed.

(** The records that logging a traceback appends, one for each line. *)
Lemma log_traceback_run (l : level) (render : string → string) (e : exn) (s : St) :
  log_traceback l render e s
  = (Ok tt, set_log (log s ++ ((λ line, mkLog l (render line) []) <$> format_exc s e)) s).
Proof.
  unfold log_traceback. unfold bind at 1, gets at 1.
  assert (∀ (lines : list string) (s0 : St),
            for_each lines tt (λ _ line, logger l (render line) []) s0
            = (Ok tt, set_log (log s0 ++ ((λ line, mkLog l (render line) []) <$> lines)) s0))
    as Hlines; [|apply Hlines].
  induction lines as [|line lines IH]; intros s0.
  - simpl. rewrite app_nil_r. by destruct s0.
  - rewrite for_each_cons. unfold logger at 1, modify at 1. rewrite IH. simpl.
    by rewrite <- (assoc_L (++)).
Qed.

(** C6. [update_datablock] returns without touching anything but the log when
    the registry has no proxy for the incoming identifier, when the resolved
    proxy carries another identifier, or when no live datablock is registered;
    otherwise it returns what the proxy's own update routine returns, and when
    that is another datablock than the registered one, the registry entry of
    the identifier is repointed to it. *)
Theorem update_datablock_fail_soft_or_delegate (delta : Delta ProxyRef) (s : St) :
  let uuid := mixer_uuid (heap s (delta_value delta)) in
  (fails_soft delta s →
     ∃ l msg args, l ≠ INFO ∧ l ≠ DEBUG ∧
       update_datablock delta s = (Ok None, logged l msg args s))
  ∧ (∀ proxy existing_id,
       proxies s !! uuid = Some proxy →
       mixer_uuid (heap s proxy) = uuid →
       py_get (datablocks s) uuid = Some existing_id →
       match update_standalone_datablock proxy existing_id delta s with
       | (Ok id_, s1) =>
           ∃ s2, update_datablock delta s = (Ok id_, s2)
             ∧ (id_ = Some existing_id → s2 = s1)
             ∧ (id_ ≠ Some existing_id →
                  datablocks s2 = <[uuid := id_]> (datablocks s1)
                  ∧ s2 = set_datablocks (<[uuid := id_]> (datablocks s1))
                           (logged WARNING "Update_datablock changes datablock  to" [] s1))
       | (Raise e, s1) => update_datablock delta s = (Raise e, s1)
       end).
Proof.
  intros uuid. split.
  - intros Hsoft. unfold update_datablock. munfold. fold uuid.
    destruct (proxies s !! uuid) as [proxy|] eqn:Hp.
    + case_decide as Hne.
      * by eexists ERROR, _, _.
      * destruct (py_get (datablocks s) uuid) as [existing|] eqn:Hd.
        -- exfalso. unfold fails_soft in Hsoft. fold uuid in Hsoft.
           destruct Hsoft as [?|[(proxy' & ? & Hx)|?]]; [congruence| |congruence].
           apply Hx. rewrite Hp in H. injection H as <-. exact Hne.
        -- by eexists WARNING, _, _.
    + by eexists ERROR, _, _.
  - intros proxy existing Hp Hu Hd.
    unfold update_datablock. munfold. fold uuid. rewrite Hp.
    case_decide as Hne; [by rewrite Hu in Hne|]. rewrite Hd.
    destruct (update_standalone_datablock _ _ _ s) as [[id_|e] s1]; [|done].
    case_decide as Hmorph.
    + eexists. split; [done|]. split; [congruence|]. done.
    + eexists. split; [done|]. split; [done|]. congruence.
Qed.

(** ** Computations that leave part of the state alone *)

Lemma same_tables_frame : Frame (same_tables : relation St).
Proof.
  split; [split|..].
  - intros s. by repeat split.
  - intros s1 s2 s3 (?&?&?&?&?) (?&?&?&?&?). repeat split; congruence.
  - intros w s. by repeat split.
  - intros l s. by repeat split.
Qed.
#[local] Existing Instance same_tables_frame.

Lemma same_ids_frame : Frame (same_ids : relation St).
Proof.
  split; [split|..].
  - by intros s q.
  - intros s1 s2 s3 H1 H2 q. destruct (H1 q), (H2 q). split; congruence.
  - by intros w s q.
  - by intros l s q.
Qed.
#[local] Existing Instance same_ids_frame.

Lemma same_heap_frame : Frame (same_heap : relation St).
Proof.
  split; [split|..].
  - by intros s.
  - intros s1 s2 s3 [??] [??]. split; congruence.
  - by intros w s.
  - by intros l s.
Qed.
#[local] Existing Instance same_heap_frame.

Section keeps.
Context (R : relation St) `{!Frame R}.

Lemma keeps_ret {A} (a : A) : keeps R (ret a : M A).
Proof. intros s. reflexivity. Qed.

Lemma keeps_raise {A} (e : exn) : keeps R (raise e : M A).
Proof. intros s. reflexivity. Qed.

Lemma keeps_gets {A} (f : St → A) : keeps R (gets f).
Proof. intros s. reflexivity. Qed.

Lemma keeps_host {A} (op : World → outcome A * World) : keeps R (host op).
Proof. intros s. unfold host. destruct (op (world s)). apply frame_world. Qed.

Lemma keeps_host_read {A} (op : World → outcome A) : keeps R (host_read op).
Proof. intros s. reflexivity. Qed.

Lemma keeps_context_call {A} (op : St → outcome A * World) :
  keeps R (context_call op).
Proof. intros s. unfold context_call. destruct (op s). apply frame_world. Qed.

Lemma keeps_context_read {A} (op : St → outcome A) : keeps R (context_read op).
Proof. intros s. reflexivity. Qed.

Lemma keeps_logger (l : level) (msg : string) (args : list string) :
  keeps R (logger l msg args : M _).
Proof. intros s. apply frame_log. Qed.

Lemma keeps_bind {A B} (m : M A) (k : A → M B) :
  keeps R m → (∀ a, keeps R (k a)) → keeps R (bind m k).
Proof.
  intros Hm Hk s. unfold bind. specialize (Hm s).
  destruct (m s) as [[a|e] s1]; simpl in *; [|done].
  etrans; [done|apply Hk].
Qed.

Lemma keeps_try_except {A} (body : M A) (handles : exn → bool) (handler : exn → M A) :
  keeps R body → (∀ e, keeps R (handler e)) →
  keeps R (try_except body handles handler).
Proof.
  intros Hm Hk s. unfold try_except. specialize (Hm s).
  destruct (body s) as [[a|e] s1]; simpl in *; [done|].
  destruct (handles e); [|done].
  etrans; [done|apply Hk].
Qed.

Lemma keeps_if {A} (b : bool) (m1 m2 : M A) :
  keeps R m1 → keeps R m2 → keeps R (if b then m1 else m2).
Proof. by destruct b. Qed.

Lemma keeps_decide {A} (P : Prop) `{!Decision P} (m1 m2 : M A) :
  keeps R m1 → keeps R m2 → keeps R (if decide P then m1 else m2).
Proof. by destruct (decide P). Qed.

Lemma keeps_for_each {A B} (l : list A) (acc : B) (body : B → A → M B) :
  (∀ acc x, keeps R (body acc x)) → keeps R (for_each l acc body).
Proof.
  intros Hbody. revert acc. induction l as [|x l IH]; intros acc; simpl.
  - apply keeps_ret.
  - apply keeps_bind; [apply Hbody|apply IH].
Qed.

End keeps.

Create HintDb keeps discriminated.
#[local] Hint Resolve keeps_ret keeps_raise keeps_gets keeps_host
  keeps_host_read keeps_context_call keeps_context_read keeps_logger keeps_if
  keeps_decide : keeps.
#[local] Hint Extern 2 (keeps _ (bind _ _)) =>
  apply keeps_bind; [apply _| |intros ?] : keeps.
#[local] Hint Extern 2 (keeps _ (try_except _ _ _)) =>
  apply keeps_try_except; [apply _| |intros ?] : keeps.
#[local] Hint Extern 3 (keeps _ (match ?x with _ => _ end)) =>
  destruct x : keeps.
#[local] Hint Extern 1 (keeps _ (deref _)) => apply keeps_gets : keeps.
#[local] Hint Extern 1 (keeps _ (target _)) => apply keeps_gets : keeps.
#[local] Hint Extern 1 (Frame _) => apply _ : keeps.

Ltac keeps := solve [auto 50 with keeps].

(** Writes to the heap that keep identifiers. *)
Lemma keeps_tables_modify_heap (f : St → ProxyRef → ProxyObj) :
  keeps same_tables (modify (λ s, set_heap (f s) s) : M _).
Proof. intros s. by repeat split. Qed.

Lemma keeps_ids_modify_heap (g : St → ProxyObj) (proxy : ProxyRef) :
  (∀ s, proxy_uuid (g s) = proxy_uuid (heap s proxy)
        ∧ collection_name (g s) = collection_name (heap s proxy)) →
  keeps same_ids (modify (λ s, set_heap (<[proxy := g s]> (heap s)) s) : M _).
Proof.
  intros Hg s q. simpl. destruct (decide (proxy = q)) as [->|Hne].
  - rewrite fn_lookup_insert. apply Hg.
  - by rewrite fn_lookup_insert_ne.
Qed.

#[local] Hint Resolve keeps_tables_modify_heap : keeps.
#[local] Hint Extern 1 (keeps same_ids (modify _)) =>
  apply keeps_ids_modify_heap; intros ?; split; reflexivity : keeps.

Lemma keeps_unpack2 R `{!Frame R} (v : PyVal) : keeps R (unpack2 v : M _).
Proof. unfold unpack2. keeps. Qed.

Lemma keeps_has_packed_files R `{!Frame R} (v : PyVal) :
  keeps R (has_packed_files v : M _).
Proof. unfold has_packed_files. keeps. Qed.

#[local] Hint Resolve keeps_unpack2 keeps_has_packed_files : keeps.

Lemma bpy_data_ctor_keeps_tables (collection_name : string) (proxy : ProxyRef) :
  keeps same_tables (bpy_data_ctor collection_name proxy).
Proof. unfold bpy_data_ctor. keeps. Qed.

Lemma bpy_data_ctor_keeps_ids (collection_name : string) (proxy : ProxyRef) :
  keeps same_ids (bpy_data_ctor collection_name proxy).
Proof. unfold bpy_data_ctor. keeps. Qed.

Lemma add_datablock_ref_element_keeps R `{!Frame R}
    (collection : Coll) (datablock : Datablock) :
  keeps R (add_datablock_ref_element collection datablock).
Proof. unfold add_datablock_ref_element. keeps. Qed.

#[local] Hint Resolve bpy_data_ctor_keeps_tables bpy_data_ctor_keeps_ids
  add_datablock_ref_element_keeps : keeps.

Lemma run_deferred_keeps R `{!Frame R} (actions : list Coll) (datablock : Datablock) :
  keeps R (run_deferred actions datablock).
Proof. induction actions; simpl; keeps. Qed.

Lemma remove_placeholder_scene_keeps R `{!Frame R} (proxy : ProxyRef) :
  keeps R (remove_placeholder_scene proxy).
Proof. unfold remove_placeholder_scene. keeps. Qed.

Lemma remove_datablock_try_keeps R `{!Frame R}
    (proxy : ProxyRef) (datablock : Datablock) :
  keeps R (remove_datablock_try proxy datablock).
Proof. unfold remove_datablock_try, proxy_collection. keeps. Qed.

#[local] Hint Resolve run_deferred_keeps remove_placeholder_scene_keeps
  remove_datablock_try_keeps : keeps.

(** ** DatablockCollectionProxy: creation, removal *)

Lemma keeps_run {A} {R : relation St} {m : M A} {s s' : St} {r : outcome A} :
  keeps R m → m s = (r, s') → R s s'.
Proof. intros Hm Hs. specialize (Hm s). by rewrite Hs in Hm. Qed.

(** C5. When the removal of the live datablock raises [ReferenceError]
    (the datablock is already gone), [remove_datablock] on a proxy whose
    identifier has an entry in the collection map logs two warnings, deletes
    that entry, and returns normally. *)
Theorem remove_datablock_dangling_reference
    (proxy : ProxyRef) (datablock : Datablock) (s s1 : St) :
  let uuid := mixer_uuid (heap s proxy) in
  is_Some (self_data s !! uuid) →
  remove_datablock_try proxy datablock (logged INFO "Perform removal for %s" [] s)
    = (Raise ReferenceError, s1) →
  ∃ s2, remove_datablock proxy datablock s = (Ok tt, s2)
    ∧ self_data s2 = delete uuid (self_data s)
    ∧ self_data s2 !! uuid = None
    ∧ log s2 = log s1 ++ [mkLog WARNING "Exception during remove_datablock for" [];
                          mkLog WARNING "..." []]
    ∧ s2 = set_self_data (delete uuid (self_data s))
             (logged WARNING "..." []
                (logged WARNING "Exception during remove_datablock for" [] s1)).
Proof.
  intros uuid [entry Hentry] Htry.
  pose proof (keeps_run (remove_datablock_try_keeps same_tables proxy datablock) Htry)
    as (Hself & _).
  pose proof (keeps_run (remove_datablock_try_keeps same_heap proxy datablock) Htry)
    as (Hheap & _).
  simpl in Hself, Hheap.
  unfold remove_datablock. unfold bind at 1. unfold logger at 1, modify at 1.
  fold (logged INFO "Perform removal for %s" [] s).
  unfold bind at 1, try_except. rewrite Htry. simpl.
  munfold. simpl. rewrite Hheap, Hself. fold uuid. rewrite Hentry.
  eexists. split; [reflexivity|]. simpl. rewrite Hself.
  split; [done|]. split; [apply lookup_delete_eq|].
  split; [by rewrite <-app_assoc|]. done.
Qed.

(** The entry is what keeps [remove_datablock] from raising: without it the
    [del] raises [KeyError], whatever the removal of the live datablock did. *)
Lemma remove_datablock_untracked (proxy : ProxyRef) (datablock : Datablock) (s : St) :
  self_data s !! mixer_uuid (heap s proxy) = None →
  ∃ e s', remove_datablock proxy datablock s = (Raise e, s').
Proof.
  intros Hnone. unfold remove_datablock. unfold bind at 1.
  unfold logger at 1, modify at 1.
  set (s0 := set_log _ s).
  unfold bind at 1, try_except.
  pose proof (remove_datablock_try_keeps same_tables proxy datablock s0) as (Hself & _).
  pose proof (remove_datablock_try_keeps same_heap proxy datablock s0) as (Hheap & _).
  destruct (remove_datablock_try proxy datablock s0) as [[[]|e] s1] eqn:Htry;
    simpl in Hself, Hheap.
  - munfold. simpl. rewrite Hheap, Hself, Hnone. eauto.
  - destruct (is_ReferenceError e); [|eauto].
    munfold. simpl. rewrite Hheap, Hself, Hnone. eauto.
Qed.

(** C7. When the construction strategy returns [None], [create_datablock]
    registers nothing, and what it returns is [(None, None)]; when it returns
    a datablock, the proxy and the datablock are registered under the proxy's
    identifier and every deferred action pending for that identifier is run on
    the datablock, in registration order, and cleared. *)
Theorem create_datablock_registers_iff_constructed (incoming_proxy : ProxyRef) (s : St) :
  let p := heap s incoming_proxy in
  let uuid := mixer_uuid p in
  (∀ s1, bpy_data_ctor (collection_name p) incoming_proxy s = (Ok None, s1) →
     ∃ r s2, create_datablock incoming_proxy s = (r, s2)
       ∧ same_tables s s2
       ∧ (∀ v, r = Ok v → v = (None, None))
       ∧ (collection_name p ≠ "scenes" → r = Ok (None, None)))
  ∧ (∀ datablock s1 s2 s3,
       bpy_data_ctor (collection_name p) incoming_proxy s = (Ok (Some datablock), s1) →
       remove_placeholder_scene incoming_proxy s1 = (Ok tt, s2) →
       run_deferred (default [] (unresolved_refs s !! uuid)) datablock
         (registered uuid incoming_proxy datablock s2) = (Ok tt, s3) →
       ∃ renames s', create_datablock incoming_proxy s = (Ok (Some datablock, renames), s')
         ∧ self_data s' = <[uuid := incoming_proxy]> (self_data s)
         ∧ datablocks s' = <[uuid := Some datablock]> (datablocks s)
         ∧ proxies s' = <[uuid := incoming_proxy]> (proxies s)
         ∧ unresolved_refs s' = delete uuid (unresolved_refs s)
         ∧ unresolved_refs s' !! uuid = None
         ∧ world s' = world s3 ∧ log s' = log s3).
Proof.
  intros p uuid. split.
  - intros s1 Hctor.
    pose proof (keeps_run (bpy_data_ctor_keeps_tables _ _) Hctor) as Ht1.
    pose proof (keeps_run (bpy_data_ctor_keeps_ids _ _) Hctor) as Hi1.
    unfold create_datablock, create_standalone_datablock.
    unfold bind at 1. unfold bind at 1. unfold deref at 1, gets at 1.
    unfold bind at 1. fold p. rewrite Hctor. unfold ret at 1.
    unfold bind at 1.
    pose proof (remove_placeholder_scene_keeps same_tables incoming_proxy s1) as Ht2.
    destruct (remove_placeholder_scene incoming_proxy s1) as [[[]|e] s2] eqn:Hscene;
      simpl in Ht2.
    + eexists _, _. split; [reflexivity|]. split; [by etrans|].
      split; [by intros v [= <-]|done].
    + eexists _, _. split; [reflexivity|]. split; [by etrans|].
      split; [done|]. intros Hne. exfalso.
      revert Hscene. unfold remove_placeholder_scene. munfold.
      destruct (Hi1 incoming_proxy) as [_ Hc]. rewrite Hc. fold p.
      by rewrite decide_False.
  - intros datablock s1 s2 s3 Hctor Hscene Hrun.
    pose proof (keeps_run (bpy_data_ctor_keeps_tables _ _) Hctor) as Ht1.
    pose proof (keeps_run (bpy_data_ctor_keeps_ids _ _) Hctor) as Hi1.
    pose proof (keeps_run (remove_placeholder_scene_keeps same_tables _) Hscene) as Ht2.
    pose proof (keeps_run (remove_placeholder_scene_keeps same_ids _) Hscene) as Hi2.
    pose proof (keeps_run (run_deferred_keeps same_tables _ _) Hrun) as Ht3.
    assert (same_tables s s2) as (Hs & _ & Hd & Hp & Hu) by by etrans.
    assert (mixer_uuid (heap s2 incoming_proxy) = uuid) as Huuid.
    { unfold mixer_uuid. destruct (Hi2 incoming_proxy) as [-> _].
      by destruct (Hi1 incoming_proxy) as [-> _]. }
    destruct Ht3 as (Hs3 & _ & Hd3 & Hp3 & Hu3). simpl in *.
    unfold create_datablock, create_standalone_datablock.
    unfold bind at 1. unfold bind at 1. unfold deref at 1, gets at 1.
    unfold bind at 1. fold p. rewrite Hctor.
    unfold bind at 1, deref at 1, gets at 1. unfold bind at 1, gets at 1.
    unfold ret at 1. unfold bind at 1. rewrite Hscene.
    unfold bind at 1, gets at 1. rewrite Huuid.
    unfold setitem. unfold bind at 1, modify at 1.
    unfold bind at 1, modify at 1. unfold bind at 1, modify at 1.
    unfold bind at 1, resolve. unfold bind at 1, gets at 1. simpl.
    rewrite Hu.
    fold (registered uuid incoming_proxy datablock s2).
    destruct (unresolved_refs s !! uuid) as [actions|] eqn:Hpending; simpl in Hrun.
    + unfold bind at 1. rewrite Hrun. unfold modify, ret. simpl.
      eexists _, _. split; [reflexivity|]. simpl.
      rewrite Hs3, Hd3, Hp3, Hu3, Hs, Hd, Hp, Hu.
      repeat split; try done. apply lookup_delete_eq.
    + unfold ret in Hrun. injection Hrun as <-. unfold ret. simpl.
      eexists _, _. split; [reflexivity|]. simpl.
      rewrite Hs, Hd, Hp, Hu, delete_id by done. repeat split; done.
Qed.

(** ** DatablockRefCollectionProxy.apply *)

Lemma same_proxy_state_frame : Frame (same_proxy_state : relation St).
Proof.
  split; [split|..].
  - by intros s.
  - intros s1 s2 s3 (?&?&?) (?&?&?). repeat split; congruence.
  - by intros w s.
  - by intros l s.
Qed.
#[local] Existing Instance same_proxy_state_frame.

Lemma same_ref_at_frame (k : string) : Frame (same_ref_at k : relation St).
Proof.
  split; [split|..].
  - by intros s.
  - intros s1 s2 s3 ??. unfold same_ref_at in *. congruence.
  - by intros w s.
  - by intros l s.
Qed.
#[local] Existing Instance same_ref_at_frame.

Lemma keeps_proxy_state_set_ref (k : string) (r : DatablockRefProxy) :
  keeps same_proxy_state (setitem ref_data set_ref_data k r : M _).
Proof. by intros s. Qed.

Lemma keeps_proxy_state_del_ref (k : string) :
  keeps same_proxy_state (delitem ref_data set_ref_data k : M _).
Proof. intros s. munfold. by destruct (ref_data s !! k). Qed.

Lemma keeps_ref_at_set_ref (k k' : string) (r : DatablockRefProxy) :
  k' ≠ k → keeps (same_ref_at k) (setitem ref_data set_ref_data k' r : M _).
Proof. intros Hne s. unfold same_ref_at. simpl. by rewrite lookup_insert_ne. Qed.

Lemma keeps_ref_at_del_ref (k k' : string) :
  k' ≠ k → keeps (same_ref_at k) (delitem ref_data set_ref_data k' : M _).
Proof.
  intros Hne s. unfold same_ref_at. munfold.
  destruct (ref_data s !! k'); simpl; [by rewrite lookup_delete_ne|done].
Qed.

#[local] Hint Resolve keeps_proxy_state_set_ref keeps_proxy_state_del_ref
  keeps_ref_at_set_ref keeps_ref_at_del_ref : keeps.

Lemma apply_member_except_run (to_blender : bool) (k : string) (e : exn) (s : St) :
  apply_member_except to_blender k e s
  = (Ok tt, set_log (log s ++ apply_warnings k) s).
Proof.
  unfold apply_member_except, apply_warnings. munfold. simpl.
  by rewrite <-!app_assoc.
Qed.

Lemma apply_member_ok (collection : Coll) (to_blender : bool)
    (item : string * Member) (s : St) :
  ∃ s', apply_member collection to_blender tt item s = (Ok tt, s').
Proof.
  destruct item as [k ref_delta]. unfold apply_member, try_except.
  destruct (apply_member_try _ _ _ _ s) as [[[]|e] s1]; [by eauto|].
  simpl. rewrite apply_member_except_run. eauto.
Qed.

Lemma apply_loop_ok (collection : Coll) (to_blender : bool)
    (items : list (string * Member)) (s : St) :
  ∃ s', for_each items tt (apply_member collection to_blender) s = (Ok tt, s').
Proof.
  revert s. induction items as [|item items IH]; intros s; simpl.
  - by eexists.
  - unfold bind. destruct (apply_member_ok collection to_blender item s) as [s1 ->].
    apply IH.
Qed.

Lemma apply_member_keeps_proxy_state (collection : Coll) (to_blender : bool)
    (item : string * Member) :
  keeps same_proxy_state (apply_member collection to_blender tt item).
Proof.
  destruct item as [k ref_delta].
  unfold apply_member, apply_member_try, apply_member_except. keeps.
Qed.

Lemma apply_member_keeps_ref_at (collection : Coll) (to_blender : bool)
    (k : string) (item : string * Member) :
  item.1 ≠ k → keeps (same_ref_at k) (apply_member collection to_blender tt item).
Proof.
  destruct item as [k' ref_delta]. simpl. intros Hne.
  unfold apply_member, apply_member_try, apply_member_except. keeps.
Qed.

Lemma apply_loop_keeps_ref_at (collection : Coll) (to_blender : bool)
    (k : string) (items : list (string * Member)) :
  k ∉ items.*1 → keeps (same_ref_at k) (for_each items tt (apply_member collection to_blender)).
Proof.
  induction items as [|item items IH]; simpl; intros Hk.
  - apply keeps_ret; apply _.
  - apply not_elem_of_cons in Hk as [Hne Hk].
    apply keeps_bind; [apply _| |intros []; by apply IH].
    by apply apply_member_keeps_ref_at.
Qed.

(** A member whose processing raises leaves the snapshot as it was. *)
Lemma apply_member_try_raise (collection : Coll) (to_blender : bool)
    (k : string) (ref_delta : Member) (s s1 : St) (e : exn) :
  apply_member_try collection to_blender k ref_delta s = (Raise e, s1) →
  ref_data s1 = ref_data s.
Proof.
  unfold apply_member_try. munfold. intros Htry.
  repeat (case_match; simplify_eq/=; try done).
Qed.

(** C4. Whatever a member delta of the batch does, [apply] returns normally;
    when processing a member raises, the snapshot is left as it was for that
    member, four warnings are logged, and the member deltas after it are
    processed from there. *)
Theorem apply_isolates_member_failures (parent : Parent) (key : string)
    (collection_delta : Delta UpdateValue) (to_blender : bool) (collection : Coll)
    (before after : list (string * Member)) (k : string) (ref_delta : Member)
    (s : St) :
  delta_value collection_delta = URefCollection (before ++ (k, ref_delta) :: after) →
  parent_getattr parent key (world s) = Ok collection →
  ∃ s0 s',
    for_each before tt (apply_member collection to_blender) s = (Ok tt, s0)
    ∧ apply parent key (Some collection_delta) to_blender s = (Ok tt, s')
    ∧ ∀ e s1,
        apply_member_try collection to_blender k ref_delta s0 = (Raise e, s1) →
        ∃ s2,
          apply_member collection to_blender tt (k, ref_delta) s0 = (Ok tt, s2)
          ∧ ref_data s2 = ref_data s0
          ∧ log s2 = log s1 ++ apply_warnings k
          ∧ for_each after tt (apply_member collection to_blender) s2 = (Ok tt, s').
Proof.
  intros Hitems Hattr.
  destruct (apply_loop_ok collection to_blender before s) as [s0 Hbefore].
  destruct (apply_member_ok collection to_blender (k, ref_delta) s0) as [s2 Hmember].
  destruct (apply_loop_ok collection to_blender after s2) as [s' Hafter].
  exists s0, s'. split; [done|]. split.
  - unfold apply. rewrite Hitems. unfold bind at 1, host_read at 1. rewrite Hattr.
    rewrite for_each_app, Hbefore, for_each_cons. by rewrite Hmember.
  - intros e s1 Htry. exists s2.
    pose proof (apply_member_try_raise _ _ _ _ _ _ _ Htry) as Href.
    revert Hmember. unfold apply_member, try_except. rewrite Htry. simpl.
    rewrite apply_member_except_run. intros [= <-]. by repeat split.
Qed.

(** C10. With [to_blender], a [DeltaAddition] whose reference has no live
    datablock in the registry logs a warning, leaves the live collection
    alone, and still records the reference proxy in the snapshot under the
    member's key, where it is found after [apply]. *)
Theorem apply_addition_unregistered_recorded (parent : Parent) (key : string)
    (collection_delta : Delta UpdateValue) (collection : Coll)
    (before after : list (string * Member)) (k : string) (r : DatablockRefProxy)
    (s : St) :
  delta_value collection_delta
    = URefCollection (before ++ (k, MDelta (DeltaAddition (VRefProxy r))) :: after) →
  parent_getattr parent key (world s) = Ok collection →
  py_get (datablocks s) (_datablock_uuid r) = None →
  k ∉ after.*1 →
  ∃ s0 s',
    for_each before tt (apply_member collection true) s = (Ok tt, s0)
    ∧ apply_member collection true tt (k, MDelta (DeltaAddition (VRefProxy r))) s0
      = (Ok tt,
         set_ref_data (<[k := r]> (ref_data s0))
           (logged WARNING "delta apply add for []: unregistered uuid  for"
                   [_datablock_uuid r; _debug_name r] s0))
    ∧ apply parent key (Some collection_delta) true s = (Ok tt, s')
    ∧ ref_data s' !! k = Some r
    ∧ (k = _datablock_uuid r → ref_data s' !! _datablock_uuid r = Some r).
Proof.
  intros Hitems Hattr Hunreg Hk.
  destruct (apply_loop_ok collection true before s) as [s0 Hbefore].
  pose proof (keeps_run
    (keeps_for_each same_proxy_state before tt _
       (λ _ item, apply_member_keeps_proxy_state collection true item))
    Hbefore) as (Hd & _).
  set (s2 := set_ref_data (<[k := r]> (ref_data s0))
               (logged WARNING "delta apply add for []: unregistered uuid  for"
                       [_datablock_uuid r; _debug_name r] s0)).
  assert (apply_member collection true tt (k, MDelta (DeltaAddition (VRefProxy r))) s0
          = (Ok tt, s2)) as Hmember.
  { unfold apply_member, apply_member_try. munfold. simpl. by rewrite Hd, Hunreg. }
  destruct (apply_loop_ok collection true after s2) as [s' Hafter].
  pose proof (keeps_run (apply_loop_keeps_ref_at collection true _ _ Hk) Hafter) as Hat.
  assert (ref_data s' !! k = Some r) as Hfinal.
  { rewrite Hat. simpl. apply lookup_insert_eq. }
  exists s0, s'. repeat split; try done.
  - unfold apply. rewrite Hitems. unfold bind at 1, host_read at 1. rewrite Hattr.
    rewrite for_each_app, Hbefore, for_each_cons. by rewrite Hmember.
  - by intros <-.
Qed.

(** ** DatablockCollectionProxy.update: the additions *)

Lemma dict_getitem_is_Some {V} (items : list (string * V)) (key : string) :
  key ∈ dict_keys items → is_Some (dict_getitem items key).
Proof.
  unfold dict_keys. induction items as [|[k v] items IH]; simpl.
  - by intros ?%elem_of_nil.
  - intros [->|Hin]%elem_of_cons; case_decide; eauto; congruence.
Qed.

Lemma dict_getitem_elem_of {V} (items : list (string * V)) (key : string) (v : V) :
  NoDup (dict_keys items) →
  dict_getitem items key = Some v ↔ (key, v) ∈ items.
Proof.
  unfold dict_keys. induction items as [|[k v'] items IH]; simpl.
  - intros _. split; [done|by intros ?%elem_of_nil].
  - intros [Hk Hnd]%NoDup_cons. case_decide as Heq.
    + subst k. split.
      * intros [= ->]. apply elem_of_cons. by left.
      * intros [[= ->]|Hin]%elem_of_cons; [done|].
        exfalso. apply Hk. apply list_elem_of_fmap. by exists (key, v).
    + rewrite IH by done. split.
      * intros ?. apply elem_of_cons. by right.
      * intros [[= -> ->]|Hin]%elem_of_cons; done.
Qed.

Lemma dict_getitem_Permutation {V} (items items' : list (string * V)) (key : string) :
  NoDup (dict_keys items) → items ≡ₚ items' →
  dict_getitem items key = dict_getitem items' key.
Proof.
  intros Hnd Hperm.
  assert (NoDup (dict_keys items')) as Hnd'.
  { unfold dict_keys in *. by rewrite <-Hperm. }
  apply option_eq. intros v.
  rewrite !dict_getitem_elem_of by done. by rewrite Hperm.
Qed.

Lemma sorted_Permutation (l1 l2 : list string) : l1 ≡ₚ l2 → sorted l1 = sorted l2.
Proof.
  intros Hperm. unfold sorted.
  apply (Sorted_unique String.le); [apply Sorted_merge_sort, _..|].
  by rewrite !merge_sort_Permutation.
Qed.

Lemma for_each_ext {A B} (l : list A) (acc : B) (body body' : B → A → M B) (s : St) :
  (∀ acc x s, x ∈ l → body acc x s = body' acc x s) →
  for_each l acc body s = for_each l acc body' s.
Proof.
  revert acc s. induction l as [|x l IH]; intros acc s Hext; simpl; [done|].
  unfold bind. rewrite Hext by (apply elem_of_cons; by left).
  destruct (body' acc x s) as [[acc'|e] s']; [|done].
  apply IH. intros ??? Hin. apply Hext. apply elem_of_cons. by right.
Qed.

Lemma update_addition_except_run (changeset : Changeset) (e : exn) (s : St) :
  ∃ records,
    update_addition_except changeset e s = (Ok changeset, set_log (log s ++ records) s)
    ∧ records ≠ []
    ∧ Forall (λ r, log_level r = ERROR) records
    ∧ (e = MaxDepthExceeded → records = max_depth_records).
Proof.
  unfold update_addition_except, is_MaxDepthExceeded.
  case_bool_decide as He.
  - munfold; simpl. eexists [_; _; _]. rewrite <-!app_assoc. simpl.
    split; [done|]. split; [done|]. split; [by repeat constructor|done].
  - unfold bind, logger at 1, modify at 1, ret. rewrite log_traceback_run. simpl.
    eexists (_ :: _). rewrite <-!app_assoc. simpl.
    split; [done|]. split; [done|]. split; [|done].
    constructor; [done|]. apply Forall_fmap, Forall_true. done.
Qed.

Lemma update_addition_run (added : list (string * string)) (changeset : Changeset)
    (name collection_name : string) (s : St) :
  dict_getitem added name = Some collection_name →
  update_addition added changeset name s =
  match update_addition_try changeset collection_name name
          (logged INFO "Perform update/creation for %s[%s]" [collection_name; name] s)
  with
  | (Ok changeset', s') => (Ok changeset', s')
  | (Raise e, s') => update_addition_except changeset e s'
  end.
Proof.
  intros Hcn. unfold update_addition. rewrite Hcn.
  unfold bind at 1, ret at 1. unfold bind at 1, logger at 1, modify at 1.
  unfold try_except, any_exception, logged.
  by destruct (update_addition_try _ _ _ _) as [[cs'|e] s1].
Qed.

Lemma update_addition_ok (added : list (string * string)) (changeset : Changeset)
    (name : string) (s : St) :
  name ∈ dict_keys added →
  ∃ changeset' s', update_addition added changeset name s = (Ok changeset', s').
Proof.
  intros [cn Hcn]%dict_getitem_is_Some. rewrite (update_addition_run _ _ _ _ _ Hcn).
  destruct (update_addition_try _ _ _ _) as [[cs'|e] s1]; [by eauto|].
  destruct (update_addition_except_run changeset e s1) as (? & -> & _). eauto.
Qed.

Lemma update_addition_loop_ok (added : list (string * string)) (names : list string)
    (changeset : Changeset) (s : St) :
  names ⊆ dict_keys added →
  ∃ changeset' s', for_each names changeset (update_addition added) s = (Ok changeset', s').
Proof.
  revert changeset s. induction names as [|name names IH]; intros cs s Hsub.
  - by eexists _, _.
  - rewrite for_each_cons.
    destruct (update_addition_ok added cs name s) as (cs1 & s1 & ->).
    { apply Hsub. apply elem_of_cons. by left. }
    apply IH. intros x Hx. apply Hsub. apply elem_of_cons. by right.
Qed.

Lemma sorted_keys_subseteq (added : list (string * string)) :
  sorted (dict_keys added) ⊆ dict_keys added.
Proof. intros x. unfold sorted. by rewrite merge_sort_Permutation. Qed.

(** C8. In the additions loop of [update], when loading one added name
    raises (any exception, [MaxDepthExceeded] among them), the exception is
    caught and logged as errors, the changeset is returned as it was, and the
    names after it are processed: the loop as a whole returns normally. *)
Theorem update_additions_isolate_failures (diff : BpyPropCollectionDiff)
    (before after : list string) (name : string) (s : St) :
  sorted (dict_keys (items_added diff)) = before ++ name :: after →
  ∃ collection_name changeset0 s0 changeset' s',
    dict_getitem (items_added diff) name = Some collection_name
    ∧ for_each before Changeset_new (update_addition (items_added diff)) s
      = (Ok changeset0, s0)
    ∧ update_additions diff Changeset_new s = (Ok changeset', s')
    ∧ ∀ e s1,
        update_addition_try changeset0 collection_name name
          (logged INFO "Perform update/creation for %s[%s]" [collection_name; name] s0)
        = (Raise e, s1) →
        ∃ s2 records,
          update_addition (items_added diff) changeset0 name s0 = (Ok changeset0, s2)
          ∧ s2 = set_log (log s1 ++ records) s1
          ∧ records ≠ []
          ∧ Forall (λ r, log_level r = ERROR) records
          ∧ (e = MaxDepthExceeded → records = max_depth_records)
          ∧ for_each after changeset0 (update_addition (items_added diff)) s2
            = (Ok changeset', s').
Proof.
  intros Hsorted. set (added := items_added diff) in *.
  pose proof (sorted_keys_subseteq added) as Hsub. rewrite Hsorted in Hsub.
  assert (name ∈ dict_keys added) as Hname.
  { apply Hsub, elem_of_app. right. apply elem_of_cons. by left. }
  destruct (dict_getitem_is_Some _ _ Hname) as [cn Hcn].
  destruct (update_addition_loop_ok added before Changeset_new s) as (cs0 & s0 & Hbefore).
  { intros x Hx. apply Hsub, elem_of_app. by left. }
  destruct (update_addition_ok added cs0 name s0 Hname) as (cs1 & s2 & Hstep).
  destruct (update_addition_loop_ok added after cs1 s2) as (cs' & s' & Hafter).
  { intros x Hx. apply Hsub, elem_of_app. right. apply elem_of_cons. by right. }
  exists cn, cs0, s0, cs', s'. split; [done|]. split; [done|]. split.
  - unfold update_additions. fold added. rewrite Hsorted.
    by rewrite for_each_app, Hbefore, for_each_cons, Hstep.
  - intros e s1 Htry.
    rewrite (update_addition_run _ _ _ _ _ Hcn), Htry in Hstep.
    destruct (update_addition_except_run cs0 e s1) as (records & Hrun & Hne & Herr & Hmax).
    rewrite Hrun in Hstep. injection Hstep as <- <-.
    exists (set_log (log s1 ++ records) s1), records.
    split; [|done].
    by rewrite (update_addition_run _ _ _ _ _ Hcn), Htry.
Qed.

(** ** DatablockCollectionProxy.update: one step of each loop *)

(** What the [try] of the additions loop does to the log, the heap and the
    changeset: either no proxy object is made and the changeset is returned as
    it was, or the object that [load] returned is put at the next free
    address and appended to the creations. *)
Lemma update_addition_try_cases (changeset : Changeset) (collection_name name : string)
    (s s' : St) (r : outcome Changeset) :
  update_addition_try changeset collection_name name s = (r, s') →
  (∃ records, log s' = log s ++ records
              ∧ Forall (λ r, log_level r = ERROR) records)
  ∧ ((heap s' = heap s ∧ next_ref s' = next_ref s
      ∧ ∀ changeset', r = Ok changeset' → changeset' = changeset)
     ∨ (∃ id_ context w' loaded,
          load_datablock id_ name collection_name context = (Ok loaded, w')
          ∧ r = Ok (add_creation (next_ref s) changeset)
          ∧ heap s' = <[next_ref s := loaded]> (heap s)
          ∧ next_ref s' = N.succ (next_ref s))).
Proof.
  unfold update_addition_try, alloc. munfold. intros Hrun.
  repeat (case_match; simplify_eq/=);
    (split;
     [ first [ by exists []; rewrite app_nil_r
             | by eexists [_]; split; [|repeat constructor] ]
     | first [ by left; repeat split; intros; simplify_eq
             | right; eauto 10 ] ]).
Qed.

Lemma update_addition_cases (added : list (string * string)) (changeset changeset' : Changeset)
    (name : string) (s s' : St) :
  update_addition added changeset name s = (Ok changeset', s') →
  removals changeset' = removals changeset
  ∧ renames changeset' = renames changeset
  ∧ (∃ records, log s' = log s ++ creation_record added name :: records
                ∧ Forall (λ r, log_level r = ERROR) records)
  ∧ ((heap s' = heap s ∧ next_ref s' = next_ref s
      ∧ creations changeset' = creations changeset)
     ∨ (∃ id_ collection_name context w',
          load_datablock id_ name collection_name context
          = (Ok (heap s' (next_ref s)), w')
          ∧ creations changeset' = creations changeset ++ [next_ref s]
          ∧ heap s' = <[next_ref s := heap s' (next_ref s)]> (heap s)
          ∧ next_ref s' = N.succ (next_ref s))).
Proof.
  destruct (dict_getitem added name) as [cn|] eqn:Hcn.
  2:{ unfold update_addition. rewrite Hcn. by munfold. }
  rewrite (update_addition_run _ _ _ _ _ Hcn).
  destruct (update_addition_try _ _ _ _) as [r s1] eqn:Htry.
  apply update_addition_try_cases in Htry as [(records & Hlog & Herr) Hcases].
  simpl in Hlog. unfold creation_record. rewrite Hcn. simpl.
  destruct r as [cs1|e].
  - intros [= -> ->].
    assert (∃ records0, log s' = log s ++ mkLog INFO "Perform update/creation for %s[%s]" [cn; name] :: records0
              ∧ Forall (λ r, log_level r = ERROR) records0) as Hl.
    { exists records. by rewrite Hlog, <-app_assoc. }
    destruct Hcases as [(Hh & Hn & Hcs)|(id_ & w & w' & loaded & Hload & [= ->] & Hh & Hn)].
    + rewrite (Hcs _ eq_refl). repeat split; try done. by left.
    + simpl in *. repeat split; try done. right.
      exists id_, cn, w, w'. rewrite Hh, fn_lookup_insert. by repeat split.
  - destruct (update_addition_except_run changeset e s1) as (recs & -> & _ & Herr' & _).
    intros [= <- <-]. simpl.
    destruct Hcases as [(Hh & Hn & _)|(? & ? & ? & ? & _ & ? & _)]; [|done].
    repeat split; try done.
    + exists (records ++ recs). split.
      * by rewrite Hlog, <-!app_assoc.
      * by apply Forall_app.
    + by left.
Qed.

(** One addition whose datablock is found and loaded. *)
Lemma update_addition_loaded_run (added : list (string * string))
    (changeset : Changeset) (name collection_name : string) (s : St)
    (collection : Coll) (id_ : Datablock) (uuid : string) (w1 w2 : World)
    (loaded : ProxyObj) :
  let context :=
    set_datablocks (<[uuid := Some id_]> (datablocks s))
      (set_world w1
         (logged INFO "Perform update/creation for %s[%s]" [collection_name; name] s)) in
  dict_getitem added name = Some collection_name →
  bpy_data_collection collection_name (world s) = Ok collection →
  coll_get (world s) collection name = Some id_ →
  ensure_uuid id_ (world s) = (Ok uuid, w1) →
  load_datablock id_ name collection_name context = (Ok loaded, w2) →
  ∃ s', update_addition added changeset name s
        = (Ok (add_creation (next_ref s) changeset), s')
    ∧ datablocks s' = <[uuid := Some id_]> (datablocks s)
    ∧ proxies s' = <[uuid := next_ref s]> (proxies s)
    ∧ self_data s' = <[uuid := next_ref s]> (self_data s)
    ∧ heap s' = <[next_ref s := loaded]> (heap s)
    ∧ next_ref s' = N.succ (next_ref s)
    ∧ world s' = w2
    ∧ log s' = log s ++ [creation_record added name].
Proof.
  intros context Hname Hcoll Hget Huuid Hload.
  rewrite (update_addition_run _ _ _ _ _ Hname).
  unfold update_addition_try, alloc. munfold.
  set (sL := logged _ _ _ s) in *.
  change (world sL) with (world s). rewrite Hcoll, Hget.
  change (world sL) with (world s). rewrite Huuid.
  change (datablocks (set_world w1 sL)) with (datablocks s).
  fold context. rewrite Hload.
  eexists. split; [done|]. simpl. unfold creation_record. rewrite Hname. done.
Qed.

(** One removal, table by table.  The [try] is left at the first entry that
    is missing; the handler then logs its record and one record for each line
    of the traceback, which it reads in the state [raised]. *)
Lemma update_removal_cases (changeset : Changeset) (proxy : ProxyRef) (s : St) :
  let p := heap s proxy in
  let uuid := mixer_uuid p in
  let tracked := bool_decide (is_Some (self_data s !! uuid)) in
  let known := bool_decide (is_Some (datablocks s !! uuid)) in
  let proxied := bool_decide (is_Some (proxies s !! uuid)) in
  let started := logged INFO "Perform removal for %s" [] s in
  let raised :=
    logged ERROR "Exception during update/removed for proxy )  :" []
      (if tracked then set_self_data (delete uuid (self_data s)) started else started) in
  ∃ s', update_removal changeset proxy s
        = (Ok (add_removal (uuid, collection_name p, proxy_str p) changeset), s')
    ∧ self_data s' = delete uuid (self_data s)
    ∧ proxies s' = (if tracked && known then delete uuid (proxies s) else proxies s)
    ∧ datablocks s' = (if tracked && known && proxied then delete uuid (datablocks s)
                       else datablocks s)
    ∧ log s' = log s ++ mkLog INFO "Perform removal for %s" []
               :: (if tracked && known && proxied then []
                   else mkLog ERROR "Exception during update/removed for proxy )  :" []
                        :: ((λ line, mkLog ERROR line []) <$> format_exc raised KeyError))
    ∧ world s' = world s ∧ heap s' = heap s ∧ next_ref s' = next_ref s
    ∧ ref_data s' = ref_data s
    ∧ unresolved_refs s' = unresolved_refs s.
Proof.
  intros p uuid tracked known proxied started raised.
  subst tracked known proxied raised started.
  unfold update_removal. munfold. fold p. fold uuid. simpl.
  destruct (self_data s !! uuid) as [tracked|] eqn:Htracked; simpl;
    [destruct (datablocks s !! uuid) as [known|] eqn:Hknown; simpl;
     [destruct (proxies s !! uuid) as [proxied|] eqn:Hproxied; simpl;
      rewrite ?Hknown; simpl|]|];
    rewrite ?log_traceback_run;
    (eexists; split; [done|]); simpl;
    rewrite ?(delete_id (self_data s)) by done;
    rewrite ?(delete_id (proxies s)) by done;
    unfold logged; simpl; rewrite <- ?(assoc_L (++)); done.
Qed.

(** One removal always returns, with the changeset extended by the removal of
    the proxy, and leaves the proxy objects alone. *)
Lemma update_removal_run (changeset : Changeset) (proxy : ProxyRef) (s : St) :
  ∃ s', update_removal changeset proxy s
        = (Ok (add_removal (mixer_uuid (heap s proxy),
                            collection_name (heap s proxy),
                            proxy_str (heap s proxy)) changeset), s')
    ∧ same_heap s s'.
Proof.
  destruct (update_removal_cases changeset proxy s)
    as (s' & Hrun & _ & _ & _ & _ & _ & Hheap & Hnext & _).
  exists s'. split; [done|]. by split.
Qed.

(** One rename, when the live collection has the new name and the registry
    an entry for the identifier. *)
Lemma update_rename_run (changeset : Changeset) (proxy : ProxyRef) (new_name : string)
    (collection : Coll) (live : Datablock) (registered : option Datablock) (s : St) :
  let p := heap s proxy in
  bpy_data_collection (collection_name p) (world s) = Ok collection →
  coll_get (world s) collection new_name = Some live →
  datablocks s !! mixer_uuid p = Some registered →
  update_rename changeset (proxy, new_name) s
  = (Ok (add_rename (mixer_uuid p, data p "name", new_name, proxy_str p) changeset),
     let s0 := if decide (Some live ≠ registered)
               then logged ERROR "update rename : [] is not  for"
                           [new_name; mixer_uuid p] s
               else s in
     set_heap (<[proxy := set_data "name" (PStr new_name) p]> (heap s)) s0).
Proof.
  intros p Hcoll Hlive Hreg. unfold update_rename, rename. munfold. fold p.
  rewrite Hcoll, Hlive, Hreg. by case_decide.
Qed.

(** One rename that returns has appended the rename of the proxy, under the
    identifier the proxy keeps. *)
Lemma update_rename_cases (changeset changeset' : Changeset) (proxy : ProxyRef)
    (new_name : string) (s s' : St) :
  update_rename changeset (proxy, new_name) s = (Ok changeset', s') →
  changeset' = add_rename (mixer_uuid (heap s proxy), data (heap s proxy) "name",
                           new_name, proxy_str (heap s proxy)) changeset
  ∧ same_ids s s'.
Proof.
  unfold update_rename, rename. munfold. intros Hrun.
  repeat (case_match; simplify_eq/=); (split; [done|]); intros q; simpl;
    (destruct (decide (proxy = q)) as [->|];
       [by rewrite fn_lookup_insert|by rewrite fn_lookup_insert_ne]).
Qed.

(** ** DatablockCollectionProxy.update: the loops *)

Lemma filter_info_errors (records : list LogRecord) :
  Forall (λ r, log_level r = ERROR) records →
  filter (λ r, log_level r = INFO) records = [].
Proof.
  induction 1 as [|r records Hr _ IH]; [done|].
  rewrite filter_cons_False; [done|]. by rewrite Hr.
Qed.

(** The additions loop: the changeset grows by the proxies of the names whose
    loading succeeded, in the order of the names; every name opens with its
    [INFO] record, and nothing else is logged at that level. *)
Lemma update_additions_loop (added : list (string * string)) (names : list string)
    (changeset changeset' : Changeset) (s s' : St) :
  for_each names changeset (update_addition added) s = (Ok changeset', s') →
  removals changeset' = removals changeset
  ∧ renames changeset' = renames changeset
  ∧ (∃ records, log s' = log s ++ records
       ∧ filter (λ r, log_level r = INFO) records = creation_record added <$> names)
  ∧ (next_ref s ≤ next_ref s')%N
  ∧ (∀ p, (p < next_ref s)%N → heap s' p = heap s p)
  ∧ ∃ loaded_names new,
      sublist loaded_names names
      ∧ creations changeset' = creations changeset ++ new
      ∧ Forall2 (loaded_for s') loaded_names new
      ∧ Forall (λ p, (next_ref s ≤ p < next_ref s')%N) new.
Proof.
  revert changeset s. induction names as [|name names IH]; intros cs s.
  - intros [= <- <-]. repeat split; try done.
    + exists []. by rewrite app_nil_r.
    + exists [], []. rewrite app_nil_r. by repeat split.
  - rewrite for_each_cons.
    destruct (update_addition added cs name s) as [[cs1|e] s1] eqn:Hstep; [|done].
    intros Hrest.
    apply update_addition_cases in Hstep
      as (Hrem1 & Hren1 & (recs1 & Hlog1 & Herr1) & Hcases).
    apply IH in Hrest
      as (Hrem & Hren & (recs & Hlog & Hfilter) & Hle & Hheap & lnames & new & Hsub & Hcre & Hloaded & Hrange).
    split; [congruence|]. split; [congruence|]. split.
    { exists (creation_record added name :: recs1 ++ recs). split.
      - rewrite Hlog, Hlog1, <-app_assoc. done.
      - rewrite filter_cons_True by done. rewrite filter_app, Hfilter.
        by rewrite (filter_info_errors _ Herr1). }
    destruct Hcases as [(Hh1 & Hn1 & Hc1)|(id_ & cn & w & w' & Hload & Hc1 & Hh1 & Hn1)].
    + rewrite Hn1 in *. split; [done|]. split.
      { intros p Hp. rewrite Hheap by done. by rewrite Hh1. }
      exists lnames, new. split; [by apply sublist_cons|].
      split; [by rewrite Hcre, Hc1|]. done.
    + rewrite Hn1 in *. split; [lia|]. split.
      { intros p Hp. rewrite Hheap by lia. rewrite Hh1.
        rewrite fn_lookup_insert_ne; [done|lia]. }
      exists (name :: lnames), (next_ref s :: new).
      split; [by apply sublist_skip|].
      split; [by rewrite Hcre, Hc1, <-app_assoc|].
      split.
      * constructor; [|done]. exists id_, cn, w, w'.
        rewrite Hheap by lia. done.
      * constructor; [lia|]. eapply Forall_impl; [done|]. simpl. lia.
Qed.

(** The removals loop always returns; it extends the removals by one entry
    per listed proxy, in the order of the list. *)
Lemma update_removals_loop (items : list ProxyRef) (changeset : Changeset) (s : St) :
  ∃ changeset' s',
    for_each items changeset update_removal s = (Ok changeset', s')
    ∧ creations changeset' = creations changeset
    ∧ renames changeset' = renames changeset
    ∧ removals changeset'
      = removals changeset
        ++ ((λ p, (mixer_uuid (heap s p), collection_name (heap s p),
                   proxy_str (heap s p))) <$> items)
    ∧ same_heap s s'.
Proof.
  revert changeset s. induction items as [|proxy items IH]; intros cs s.
  - exists cs, s. rewrite app_nil_r. by repeat split.
  - rewrite for_each_cons.
    destruct (update_removal_run cs proxy s) as (s1 & -> & Hh1 & Hn1).
    destruct (IH (add_removal (mixer_uuid (heap s proxy),
                               collection_name (heap s proxy),
                               proxy_str (heap s proxy)) cs) s1)
      as (cs' & s' & -> & Hc & Hr & Hrem & Hh & Hn).
    exists cs', s'. split; [done|]. split; [done|]. split; [done|]. split.
    + rewrite Hrem. simpl. rewrite <-app_assoc. simpl. by rewrite Hh1.
    + split; congruence.
Qed.

(** The renames loop, when it returns, has extended the renames by one entry
    per listed pair, in the order of the list and under the identifier that
    the proxy has throughout. *)
Lemma update_renames_loop (items : list (ProxyRef * string))
    (changeset changeset' : Changeset) (s s' : St) :
  for_each items changeset update_rename s = (Ok changeset', s') →
  creations changeset' = creations changeset
  ∧ removals changeset' = removals changeset
  ∧ same_ids s s'
  ∧ ∃ new, renames changeset' = renames changeset ++ new
      ∧ (λ r, (r.1.1.1, r.1.2)) <$> new
        = (λ item, (mixer_uuid (heap s item.1), item.2)) <$> items.
Proof.
  revert changeset s. induction items as [|[proxy new_name] items IH]; intros cs s.
  - intros [= <- <-]. repeat split; try done. exists []. by rewrite app_nil_r.
  - rewrite for_each_cons.
    destruct (update_rename cs (proxy, new_name) s) as [[cs1|e] s1] eqn:Hstep; [|done].
    intros Hrest. apply update_rename_cases in Hstep as [-> Hids1].
    apply IH in Hrest as (Hc & Hr & Hids & new & Hren & Hnew).
    split; [done|]. split; [done|]. split; [by etrans|].
    eexists (_ :: new). split.
    + rewrite Hren. simpl. by rewrite <-app_assoc.
    + rewrite !fmap_cons. f_equal. rewrite Hnew. apply list_fmap_ext. intros _ [q n] _. simpl.
      unfold mixer_uuid. by destruct (Hids1 q) as [-> _].
Qed.

(** ** DatablockCollectionProxy.update: order and renames *)

Lemma update_additions_ok (diff : BpyPropCollectionDiff) (changeset : Changeset) (s : St) :
  ∃ changeset' s', update_additions diff changeset s = (Ok changeset', s').
Proof. apply update_addition_loop_ok, sorted_keys_subseteq. Qed.

Lemma update_additions_Permutation (diff diff' : BpyPropCollectionDiff)
    (changeset : Changeset) (s : St) :
  items_added diff' ≡ₚ items_added diff →
  NoDup (dict_keys (items_added diff)) →
  update_additions diff' changeset s = update_additions diff changeset s.
Proof.
  intros Hperm Hnd. unfold update_additions.
  rewrite (sorted_Permutation (dict_keys (items_added diff')) (dict_keys (items_added diff)))
    by (unfold dict_keys; by rewrite Hperm).
  apply for_each_ext. intros acc name s0 _. unfold update_addition.
  by rewrite (dict_getitem_Permutation (items_added diff) (items_added diff')).
Qed.

Lemma update_run (diff : BpyPropCollectionDiff) (s : St) :
  update diff s =
  match update_additions diff Changeset_new s with
  | (Ok changeset1, s1) =>
      match for_each (items_removed diff) changeset1 update_removal s1 with
      | (Ok changeset2, s2) => for_each (items_renamed diff) changeset2 update_rename s2
      | (Raise e, s2) => (Raise e, s2)
      end
  | (Raise e, s1) => (Raise e, s1)
  end.
Proof.
  unfold update, bind, ret.
  destruct (update_additions _ _ _) as [[cs1|e1] s1]; [|done].
  destruct (for_each (items_removed diff) _ _ _) as [[cs2|e2] s2]; [|done].
  by destruct (for_each (items_renamed diff) _ _ _) as [[cs3|e3] s3].
Qed.

(** C3. [update] walks the added names in sorted order, each once, whatever
    the order in which the diff lists them: the [INFO] records of the
    additions loop are those of the sorted names, in that order, and the
    creations are the proxies loaded for a subsequence of the sorted names;
    two diffs that list the same additions in different orders give the same
    result; the removals and the renames of the changeset follow the order of
    the diff.  Every sorted name has its place in the creations: the creations
    of the names before it come first, then its own, then those of the names
    after it; its own is the new proxy, holding what the load returned,
    whenever its datablock is found and loaded in the state in which the loop
    reaches the name, and there is none or this one otherwise. *)
Theorem update_order (diff : BpyPropCollectionDiff) (s : St) :
  let names := sorted (dict_keys (items_added diff)) in
  StronglySorted String.le names
  ∧ names ≡ₚ dict_keys (items_added diff)
  ∧ (∃ changeset1 s1 loaded_names,
       update_additions diff Changeset_new s = (Ok changeset1, s1)
       ∧ filter (λ r, log_level r = INFO) (log_since s s1)
         = creation_record (items_added diff) <$> names
       ∧ sublist loaded_names names
       ∧ Forall2 (loaded_for s1) loaded_names (creations changeset1))
  ∧ (∀ diff',
       items_added diff' ≡ₚ items_added diff →
       NoDup (dict_keys (items_added diff)) →
       items_removed diff' = items_removed diff →
       items_renamed diff' = items_renamed diff →
       update diff' s = update diff s)
  ∧ (∀ changeset s',
       update diff s = (Ok changeset, s') →
       (∃ s1, update_additions diff Changeset_new s
              = (Ok (mkChangeset (creations changeset) [] []), s1))
       ∧ (λ r, r.1.1) <$> removals changeset
         = (λ p, mixer_uuid (heap s' p)) <$> items_removed diff
       ∧ (λ r, (r.1.1.1, r.1.2)) <$> renames changeset
         = (λ item, (mixer_uuid (heap s' item.1), item.2)) <$> items_renamed diff)
  ∧ (∀ before name after,
       names = before ++ name :: after →
       ∃ changeset_b s_b changeset_n s_n changeset1 s1 later,
         for_each before Changeset_new (update_addition (items_added diff)) s
         = (Ok changeset_b, s_b)
         ∧ update_addition (items_added diff) changeset_b name s_b = (Ok changeset_n, s_n)
         ∧ for_each after changeset_n (update_addition (items_added diff)) s_n
           = (Ok changeset1, s1)
         ∧ update_additions diff Changeset_new s = (Ok changeset1, s1)
         ∧ creations changeset1 = creations changeset_n ++ later
         ∧ (creations changeset_n = creations changeset_b
            ∨ creations changeset_n = creations changeset_b ++ [next_ref s_b])
         ∧ ∀ collection_name collection id_ uuid w1 loaded w2,
             dict_getitem (items_added diff) name = Some collection_name →
             bpy_data_collection collection_name (world s_b) = Ok collection →
             coll_get (world s_b) collection name = Some id_ →
             ensure_uuid id_ (world s_b) = (Ok uuid, w1) →
             load_datablock id_ name collection_name
               (set_datablocks (<[uuid := Some id_]> (datablocks s_b))
                  (set_world w1
                     (logged INFO "Perform update/creation for %s[%s]"
                             [collection_name; name] s_b)))
             = (Ok loaded, w2) →
             creations changeset_n = creations changeset_b ++ [next_ref s_b]
             ∧ heap s1 (next_ref s_b) = loaded
             ∧ proxies s_n !! uuid = Some (next_ref s_b)
             ∧ self_data s_n !! uuid = Some (next_ref s_b)).
Proof.
  intros names.
  assert (∀ before name after,
       names = before ++ name :: after →
       ∃ changeset_b s_b changeset_n s_n changeset1 s1 later,
         for_each before Changeset_new (update_addition (items_added diff)) s
         = (Ok changeset_b, s_b)
         ∧ update_addition (items_added diff) changeset_b name s_b = (Ok changeset_n, s_n)
         ∧ for_each after changeset_n (update_addition (items_added diff)) s_n
           = (Ok changeset1, s1)
         ∧ update_additions diff Changeset_new s = (Ok changeset1, s1)
         ∧ creations changeset1 = creations changeset_n ++ later
         ∧ (creations changeset_n = creations changeset_b
            ∨ creations changeset_n = creations changeset_b ++ [next_ref s_b])
         ∧ ∀ collection_name collection id_ uuid w1 loaded w2,
             dict_getitem (items_added diff) name = Some collection_name →
             bpy_data_collection collection_name (world s_b) = Ok collection →
             coll_get (world s_b) collection name = Some id_ →
             ensure_uuid id_ (world s_b) = (Ok uuid, w1) →
             load_datablock id_ name collection_name
               (set_datablocks (<[uuid := Some id_]> (datablocks s_b))
                  (set_world w1
                     (logged INFO "Perform update/creation for %s[%s]"
                             [collection_name; name] s_b)))
             = (Ok loaded, w2) →
             creations changeset_n = creations changeset_b ++ [next_ref s_b]
             ∧ heap s1 (next_ref s_b) = loaded
             ∧ proxies s_n !! uuid = Some (next_ref s_b)
             ∧ self_data s_n !! uuid = Some (next_ref s_b)) as Hplaces.
  { intros before name after Hnames.
    pose proof (sorted_keys_subseteq (items_added diff)) as Hsub.
    fold names in Hsub. rewrite Hnames in Hsub.
    destruct (update_addition_loop_ok (items_added diff) before Changeset_new s)
      as (cs_b & s_b & Hbefore).
    { intros x Hx. apply Hsub. apply elem_of_app. by left. }
    destruct (update_addition_ok (items_added diff) cs_b name s_b)
      as (cs_n & s_n & Hname).
    { apply Hsub. apply elem_of_app. right. by left. }
    destruct (update_addition_loop_ok (items_added diff) after cs_n s_n)
      as (cs1 & s1 & Hafter).
    { intros x Hx. apply Hsub. apply elem_of_app. right. by right. }
    pose proof Hafter as Hloop.
    apply update_additions_loop in Hloop
      as (_ & _ & _ & Hle & Hheap & _ & later & _ & Hlater & _).
    pose proof Hname as Hstep.
    apply update_addition_cases in Hstep as (_ & _ & _ & Hcases).
    exists cs_b, s_b, cs_n, s_n, cs1, s1, later.
    split; [done|]. split; [done|]. split; [done|]. split.
    { unfold update_additions. fold names. rewrite Hnames.
      by rewrite for_each_app, Hbefore, for_each_cons, Hname. }
    split; [done|]. split.
    { destruct Hcases as [(_ & _ & Hc)|(? & ? & ? & ? & _ & Hc & _)]; [by left|by right]. }
    intros cn collection id_ uuid w1 loaded w2 Hcn Hcoll Hget Huuid Hload.
    destruct (update_addition_loaded_run (items_added diff) cs_b name cn s_b collection
                id_ uuid w1 w2 loaded Hcn Hcoll Hget Huuid Hload)
      as (s_n' & Hrun & _ & Hproxies & Hself & Hheap_n & Hnext & _).
    rewrite Hname in Hrun. injection Hrun as -> <-.
    split; [done|]. split.
    - rewrite Hheap by (rewrite Hnext; lia). by rewrite Hheap_n, fn_lookup_insert.
    - rewrite Hproxies, Hself. by rewrite !lookup_insert_eq. }
  destruct (update_additions_ok diff Changeset_new s) as (cs1 & s1 & Hadd).
  pose proof Hadd as Hloop. unfold update_additions in Hloop. fold names in Hloop.
  apply update_additions_loop in Hloop
    as (Hrem1 & Hren1 & (records & Hlog & Hfilter) & _ & _ & lnames & new & Hsub & Hcre & Hloaded & _).
  simpl in Hrem1, Hren1, Hcre.
  split; [apply StronglySorted_merge_sort; apply _|].
  split; [apply merge_sort_Permutation|]. split.
  { exists cs1, s1, lnames. split; [done|]. split; [|by rewrite Hcre].
    unfold log_since. by rewrite Hlog, drop_app_length. }
  split.
  { intros diff' Hperm Hnd Hrem Hren. rewrite !update_run.
    rewrite (update_additions_Permutation diff diff') by done.
    by rewrite Hrem, Hren. }
  split; [|exact Hplaces].
  intros cs3 s3. rewrite update_run, Hadd.
  destruct (update_removals_loop (items_removed diff) cs1 s1)
    as (cs2 & s2 & -> & Hc2 & Hr2 & Hrem2 & Hh2 & _).
  intros Hren.
  apply update_renames_loop in Hren as (Hc3 & Hr3 & Hids & new3 & Hren3 & Hnew3).
  assert (∀ q, mixer_uuid (heap s3 q) = mixer_uuid (heap s1 q)) as Huuid.
  { intros q. unfold mixer_uuid. destruct (Hids q) as [-> _]. by rewrite Hh2. }
  split; [|split].
  - exists s1. do 2 f_equal. destruct cs1; simpl in *. congruence.
  - rewrite Hr3, Hrem2, Hrem1. simpl. rewrite <-list_fmap_compose.
    apply list_fmap_ext. intros _ p _. simpl. by rewrite Huuid.
  - rewrite Hren3, Hr2, Hren1. simpl. rewrite Hnew3.
    apply list_fmap_ext. intros _ [q n] _. simpl. by rewrite Huuid, Hh2.
Qed.

(** C9. For a proxy with a registry entry whose cached name is [old_name],
    when the live collection has an entry under [new_name], [update] on a diff
    that only lists the rename of that proxy to [new_name] returns the
    changeset whose renames are the one tuple
    [(identifier, old_name, new_name, str(proxy))]; afterwards the cached name
    of the proxy is [new_name] and its identifier is the same.  So it is after
    [rename_datablock]. *)
Theorem update_single_rename (proxy : ProxyRef) (old_name new_name : string)
    (collection : Coll) (live : Datablock) (registered : option Datablock) (s : St) :
  let p := heap s proxy in
  let uuid := mixer_uuid p in
  data p "name" = PStr old_name →
  datablocks s !! uuid = Some registered →
  bpy_data_collection (collection_name p) (world s) = Ok collection →
  coll_get (world s) collection new_name = Some live →
  (∃ s',
     update (mkDiff [] [] [(proxy, new_name)]) s
     = (Ok (mkChangeset [] [] [(uuid, PStr old_name, new_name, proxy_str p)]), s')
     ∧ data (heap s' proxy) "name" = PStr new_name
     ∧ mixer_uuid (heap s' proxy) = uuid
     ∧ (∀ q, q ≠ proxy → heap s' q = heap s q)
     ∧ same_tables s s'
     ∧ world s' = world s)
  ∧ (∀ datablock, ∃ r s',
       rename_datablock proxy new_name datablock s = (r, s')
       ∧ data (heap s' proxy) "name" = PStr new_name
       ∧ mixer_uuid (heap s' proxy) = uuid).
Proof.
  intros p uuid Hname Hreg Hcoll Hlive. split.
  - rewrite update_run. unfold update_additions.
    cbn [items_added items_removed items_renamed].
    change (sorted (dict_keys [])) with (@nil string).
    cbn [for_each]. unfold ret at 1 2. unfold bind at 1.
    rewrite (update_rename_run _ _ _ _ _ _ _ Hcoll Hlive Hreg).
    fold p. fold uuid. rewrite Hname. simpl. unfold ret.
    eexists. split; [reflexivity|]. simpl.
    rewrite fn_lookup_insert. unfold data. simpl. rewrite lookup_insert_eq.
    split; [done|]. split; [done|].
    split; [by intros q Hq; rewrite fn_lookup_insert_ne|].
    by case_decide.
  - intros datablock. unfold rename_datablock, rename. munfold. simpl.
    destruct (db_set_name datablock (PStr new_name) (world s)) as [r w].
    eexists _, _. split; [reflexivity|]. simpl.
    rewrite fn_lookup_insert. unfold data. simpl. by rewrite lookup_insert_eq.
Qed.

(** ** DatablockRefCollectionProxy.diff *)

Lemma dom_blender_items_of (w : World) (collection : Coll) :
  dom (blender_items_of w collection) = live_ids w collection.
Proof.
  unfold blender_items_of, live_ids.
  assert (∀ l (m : gmap string Datablock),
            dom (foldl (λ m item, <[db_mixer_uuid w item := item]> m) m l)
            = dom m ∪ list_to_set (db_mixer_uuid w <$> l)) as Hfold.
  { induction l as [|x l IH]; intros m; simpl.
    - set_solver.
    - rewrite IH, dom_insert_L. set_solver. }
  rewrite Hfold, dom_empty_L. set_solver.
Qed.

Lemma diff_added_run (blender_items : gmap string Datablock)
    (acc : gmap string (Delta Value)) (k : string) (s : St) :
  diff_added blender_items acc k s =
  match added_entry s blender_items k with
  | Ok entry => (Ok (set_entry k entry acc), s)
  | Raise e => (Raise e, s)
  end.
Proof.
  unfold diff_added, added_entry. munfold.
  destruct (blender_items !! k); [|done].
  by destruct (read_attribute _ _ _) as [[]|].
Qed.

Lemma diff_deleted_run (acc : gmap string (Delta Value)) (k : string) (s : St) :
  diff_deleted acc k s =
  match deleted_entry (ref_data s) k with
  | Ok entry => (Ok (set_entry k entry acc), s)
  | Raise e => (Raise e, s)
  end.
Proof. unfold diff_deleted, deleted_entry. munfold. by destruct (ref_data s !! k). Qed.

Lemma diff_maybe_updated_run (blender_items : gmap string Datablock)
    (acc : gmap string (Delta Value)) (k : string) (s : St) :
  diff_maybe_updated blender_items acc k s =
  match updated_entry s (ref_data s) blender_items k with
  | Ok entry => (Ok (set_entry k entry acc), s)
  | Raise e => (Raise e, s)
  end.
Proof.
  unfold diff_maybe_updated, updated_entry. munfold.
  destruct (blender_items !! k); [|done].
  by destruct (diff_attribute _ _ _ _) as [[[]|]|].
Qed.

(** A loop that puts one entry per key: it reads the state only; when it
    returns, every key of the list has got its entry and the other keys are as
    they were; when it raises, the entry of some key of the list raised. *)
Lemma for_each_entries (entry : St → string → outcome (option (Delta Value)))
    (body : gmap string (Delta Value) → string → M (gmap string (Delta Value)))
    (keys : list string) (acc : gmap string (Delta Value)) (s : St) :
  (∀ acc k s, body acc k s =
     match entry s k with
     | Ok e => (Ok (set_entry k e acc), s)
     | Raise e => (Raise e, s)
     end) →
  NoDup keys →
  match for_each keys acc body s with
  | (Ok r, s') =>
      s' = s
      ∧ (∀ k, k ∈ keys →
           ∃ e, entry s k = Ok e ∧ r !! k = from_option Some (acc !! k) e)
      ∧ (∀ k, k ∉ keys → r !! k = acc !! k)
  | (Raise e, s') => s' = s ∧ ∃ k, k ∈ keys ∧ entry s k = Raise e
  end.
Proof.
  intros Hbody. revert acc. induction keys as [|x keys IH]; intros acc Hnd.
  - simpl. unfold ret. split; [done|]. split; [by intros k ?%elem_of_nil|done].
  - apply NoDup_cons in Hnd as [Hx Hnd]. rewrite for_each_cons, Hbody.
    destruct (entry s x) as [e|e] eqn:He.
    2:{ split; [done|]. exists x. split; [apply elem_of_cons; by left|done]. }
    specialize (IH (set_entry x e acc) Hnd).
    destruct (for_each keys _ body s) as [[r|e'] s'].
    + destruct IH as (-> & Hin & Hout). split; [done|]. split.
      * intros k [->|Hk]%elem_of_cons.
        -- exists e. split; [done|]. rewrite Hout by done.
           destruct e; simpl; [apply lookup_insert_eq|done].
        -- destruct (Hin k Hk) as (ek & Hek & Hr). exists ek. split; [done|].
           rewrite Hr. assert (x ≠ k) by congruence.
           destruct e; simpl; [by rewrite lookup_insert_ne|done].
      * intros k [Hne Hk]%not_elem_of_cons. rewrite Hout by done.
        destruct e; simpl; [by rewrite lookup_insert_ne|done].
    + destruct IH as (-> & k & Hk & Hek). split; [done|].
      exists k. split; [apply elem_of_cons; by right|done].
Qed.

Lemma diff_run (collection : Coll) (s : St) :
  let P := ref_data s in
  let B := blender_items_of (world s) collection in
  diff collection s =
  match for_each (elements (dom B ∖ dom P)) ∅ (diff_added B) s with
  | (Ok d1, s1) =>
      match for_each (elements (dom P ∖ dom B)) d1 diff_deleted s1 with
      | (Ok d2, s2) =>
          match for_each (elements (dom P ∩ dom B)) d2 (diff_maybe_updated B) s2 with
          | (Ok d3, s3) =>
              (Ok (if decide (size d3 ≠ 0) then Some (DeltaUpdate d3) else None), s3)
          | (Raise e, s3) => (Raise e, s3)
          end
      | (Raise e, s2) => (Raise e, s2)
      end
  | (Raise e, s1) => (Raise e, s1)
  end.
Proof.
  intros P B. unfold diff. munfold. fold P. fold B.
  destruct (for_each (elements (dom B ∖ dom P)) _ _ _) as [[d1|e1] s1]; [|done].
  destruct (for_each (elements (dom P ∖ dom B)) _ _ _) as [[d2|e2] s2]; [|done].
  destruct (for_each (elements (dom P ∩ dom B)) _ _ _) as [[d3|e3] s3]; [|done].
  by case_decide.
Qed.

Lemma diff_result_size (m : gmap string (Delta Value)) :
  (if decide (size m ≠ 0) then Some (DeltaUpdate m) else None) = diff_result m.
Proof.
  unfold diff_result. case_decide as Hsize; case_decide as Hm; try done.
  - subst m. by rewrite map_size_empty in Hsize.
  - by apply map_size_empty_inv in Hsize.
Qed.

(** The tags of a member map tell where a key comes from. *)
Lemma diff_members_tags (context : St) (P : gmap string DatablockRefProxy)
    (B : gmap string Datablock) (m : gmap string (Delta Value)) :
  diff_members context P B m →
  (∀ k, (∃ v, m !! k = Some (DeltaAddition v)) ↔ k ∈ dom B ∖ dom P)
  ∧ (∀ k, (∃ v, m !! k = Some (DeltaDeletion v)) ↔ k ∈ dom P ∖ dom B)
  ∧ (∀ k delta, m !! k = Some delta → is_update delta = true → k ∈ dom P ∩ dom B).
Proof.
  intros (Hadd & Hdel & Hupd & Hnone).
  assert (∀ k delta, m !! k = Some delta →
            (k ∈ dom B ∖ dom P ∧ is_addition delta = true)
            ∨ (k ∈ dom P ∖ dom B ∧ is_deletion delta = true)
            ∨ (k ∈ dom P ∩ dom B ∧ is_update delta = true)) as Hcases.
  { intros k delta Hk.
    destruct (decide (k ∈ dom P)) as [HP|HP], (decide (k ∈ dom B)) as [HB|HB].
    - right; right. split; [set_solver|].
      destruct (Hupd k) as (? & ? & _ & _ & _ & Hu); [set_solver|]. by apply Hu.
    - right; left. split; [set_solver|].
      destruct (Hdel k) as (? & _ & Hm); [set_solver|]. by simplify_eq.
    - left. split; [set_solver|].
      destruct (Hadd k) as (? & ? & _ & _ & Hm); [set_solver|]. by simplify_eq.
    - rewrite Hnone in Hk by set_solver. done. }
  split; [|split].
  - intros k. split.
    + intros [v Hv]. by destruct (Hcases _ _ Hv) as [[? _]|[[_ ?]|[_ ?]]].
    + intros Hk. destruct (Hadd k Hk) as (? & v & _ & _ & ?). eauto.
  - intros k. split.
    + intros [v Hv]. by destruct (Hcases _ _ Hv) as [[_ ?]|[[? _]|[_ ?]]].
    + intros Hk. destruct (Hdel k Hk) as (? & _ & ?). eauto.
  - intros k delta Hk Hu.
    destruct (Hcases _ _ Hk) as [[_ ?]|[[_ ?]|[? _]]]; [by destruct delta..|done].
Qed.

(** The loops of [diff], put together. *)
Lemma diff_characterised (collection : Coll) (s : St) :
  let w := world s in
  let P := ref_data s in
  let B := blender_items_of w collection in
  dom B = live_ids w collection
  ∧ (diff_reads_succeed s P B → ∃ r, diff collection s = (Ok r, s))
  ∧ (∀ r s', diff collection s = (Ok r, s') →
       s' = s
       ∧ ∃ m, r = diff_result m
           ∧ diff_members s P B m
           ∧ (∀ k, (∃ v, m !! k = Some (DeltaAddition v))
                   ↔ k ∈ live_ids w collection ∖ dom P)
           ∧ (∀ k, (∃ v, m !! k = Some (DeltaDeletion v))
                   ↔ k ∈ dom P ∖ live_ids w collection)
           ∧ (r = None ↔ m = ∅)).
Proof.
  intros w P B. split; [apply dom_blender_items_of|].
  pose proof (for_each_entries (λ s k, added_entry s B k) (diff_added B)
    (elements (dom B ∖ dom P)) ∅ s (diff_added_run B) (NoDup_elements _)) as H1.
  rewrite diff_run. fold w P B.
  destruct (for_each (elements (dom B ∖ dom P)) _ _ _) as [[d1|e1] s1].
  2:{ destruct H1 as (-> & k & [HB HP]%elem_of_elements%elem_of_difference & Hk).
      split; [|done]. intros [Hread _]. exfalso.
      apply elem_of_dom in HB as [item Hitem]. apply not_elem_of_dom in HP.
      destruct (Hread k item HP Hitem) as (v & Hv & Hother).
      unfold added_entry in Hk. rewrite Hitem, Hv in Hk.
      destruct v; try done. by eapply Hother. }
  destruct H1 as (-> & Hin1 & Hout1).
  pose proof (for_each_entries (λ s k, deleted_entry (ref_data s) k) diff_deleted
    (elements (dom P ∖ dom B)) d1 s diff_deleted_run (NoDup_elements _)) as H2.
  destruct (for_each (elements (dom P ∖ dom B)) _ _ _) as [[d2|e2] s2].
  2:{ destruct H2 as (-> & k & [HP HB]%elem_of_elements%elem_of_difference & Hk).
      split; [|done]. intros _. exfalso.
      apply elem_of_dom in HP as [old Hold].
      unfold deleted_entry in Hk. fold P in Hk. by rewrite Hold in Hk. }
  destruct H2 as (-> & Hin2 & Hout2).
  pose proof (for_each_entries (λ s k, updated_entry s (ref_data s) B k)
    (diff_maybe_updated B) (elements (dom P ∩ dom B)) d2 s
    (diff_maybe_updated_run B) (NoDup_elements _)) as H3.
  destruct (for_each (elements (dom P ∩ dom B)) _ _ _) as [[d3|e3] s3].
  2:{ destruct H3 as (-> & k & [HP HB]%elem_of_elements%elem_of_intersection & Hk).
      split; [|done]. intros [_ Hdiff]. exfalso.
      apply elem_of_dom in HP as [old Hold]. apply elem_of_dom in HB as [item Hitem].
      destruct (Hdiff k item old Hitem Hold) as (delta & Hdelta & Hupd).
      unfold updated_entry, ref_collection_data in Hk. fold P in Hk.
      rewrite Hitem, Hold in Hk. simpl in Hk. rewrite Hdelta in Hk.
      destruct delta as [[]|]; try done; by specialize (Hupd _ eq_refl). }
  destruct H3 as (-> & Hin3 & Hout3).
  rewrite diff_result_size. split; [by eauto|].
  intros r s' [= <- <-]. split; [done|]. exists d3. split; [done|].
  assert (diff_members s P B d3) as Hmembers.
  { repeat split.
    - intros k Hk. pose proof Hk as [HB HP]%elem_of_difference.
      rewrite Hout3, Hout2 by (rewrite elem_of_elements; set_solver).
      destruct (Hin1 k) as (e & He & ->); [by apply elem_of_elements|].
      unfold added_entry in He.
      destruct (B !! k) as [item|]; [|done].
      destruct (read_attribute s item k) as [v|] eqn:Hv; [|done].
      exists item, v. by destruct v; simplify_eq/=.
    - intros k Hk. pose proof Hk as [HP HB]%elem_of_difference.
      rewrite Hout3 by (rewrite elem_of_elements; set_solver).
      destruct (Hin2 k) as (e & He & ->); [by apply elem_of_elements|].
      unfold deleted_entry in He. fold P in He.
      destruct (P !! k) as [old|]; [|done]. exists old. by simplify_eq/=.
    - intros k Hk. pose proof Hk as [HP HB]%elem_of_intersection.
      destruct (Hin3 k) as (e & He & ->); [by apply elem_of_elements|].
      rewrite Hout2, Hout1 by (rewrite elem_of_elements; set_solver).
      rewrite lookup_empty.
      unfold updated_entry, ref_collection_data in He. fold P in He.
      destruct (B !! k) as [item|]; [|done].
      apply elem_of_dom in HP as [old Hold]. rewrite Hold in He |- *. simpl in He.
      exists item, old. split; [done|]. split; [done|].
      destruct (diff_attribute s item k (VRefProxy old)) as [[[]|]|];
        simplify_eq/=; split; try done; by intros ? [= <-].
    - intros k Hk.
      rewrite Hout3, Hout2, Hout1 by (rewrite elem_of_elements; set_solver).
      done. }
  split; [done|].
  destruct (diff_members_tags _ _ _ _ Hmembers) as (Htag1 & Htag2 & _).
  rewrite <-dom_blender_items_of. fold w B.
  split; [done|]. split; [done|].
  unfold diff_result. by case_decide.
Qed.


(** ** diff, then apply *)

(** A member that is not the addition of a reference adds no key: what is
    under its key afterwards is nothing, or what was there. *)
Lemma apply_member_no_new_key (collection : Coll) (to_blender : bool) (k : string)
    (member : Member) (s s1 : St) :
  apply_member collection to_blender tt (k, member) s = (Ok tt, s1) →
  (∀ r, member ≠ MDelta (DeltaAddition (VRefProxy r))) →
  ref_data s1 !! k = None ∨ ref_data s1 !! k = ref_data s !! k.
Proof.
  unfold apply_member, apply_member_try, apply_member_except.
  munfold. intros Hrun Hnot.
  repeat (case_match; simplify_eq/=);
    first [ by right | by left; apply lookup_delete_eq | by exfalso; eapply Hnot ].
Qed.

Lemma apply_loop_no_new_key (collection : Coll) (to_blender : bool)
    (items : list (string * Member)) (k : string) (s s' : St) :
  for_each items tt (apply_member collection to_blender) s = (Ok tt, s') →
  (∀ member r, (k, member) ∈ items → member ≠ MDelta (DeltaAddition (VRefProxy r))) →
  ref_data s' !! k = None ∨ ref_data s' !! k = ref_data s !! k.
Proof.
  revert s. induction items as [|[k' member] items IH]; intros s.
  - intros [= <-] _. by right.
  - rewrite for_each_cons.
    destruct (apply_member_ok collection to_blender (k', member) s) as [s1 Hstep].
    rewrite Hstep. intros Hrest Hnot.
    destruct (IH s1 Hrest) as [Hnone | Hsame].
    { intros member' r Hin. apply Hnot. by right. }
    { by left. }
    rewrite Hsame. destruct (decide (k' = k)) as [-> | Hne].
    + eapply apply_member_no_new_key; [done|]. intros r. apply Hnot. by left.
    + right.
      apply (keeps_run (apply_member_keeps_ref_at collection to_blender k (k', member) Hne)
               Hstep).
Qed.

(** The addition of a reference, when the link that [to_blender] asks for
    returns, and when it raises. *)
Lemma apply_addition_linked (collection : Coll) (to_blender : bool) (k : string)
    (r : DatablockRefProxy) (s : St) :
  (to_blender = true →
   ∀ datablock, py_get (datablocks s) (_datablock_uuid r) = Some datablock →
                (coll_link collection datablock (world s)).1 = Ok tt) →
  ∃ s1, apply_member collection to_blender tt (k, MDelta (DeltaAddition (VRefProxy r))) s
        = (Ok tt, s1)
    ∧ ref_data s1 = <[k := r]> (ref_data s).
Proof.
  intros Hlink. unfold apply_member, apply_member_try. munfold.
  destruct to_blender; simpl; [|by eexists].
  destruct (py_get (datablocks s) (_datablock_uuid r)) as [datablock|] eqn:Hregistered;
    simpl; [|by eexists].
  specialize (Hlink eq_refl datablock eq_refl).
  destruct (coll_link collection datablock (world s)) as [[[]|e] w]; [|done].
  by eexists.
Qed.

Lemma apply_addition_link_raises (collection : Coll) (k : string)
    (r : DatablockRefProxy) (datablock : Datablock) (e : exn) (w : World) (s : St) :
  py_get (datablocks s) (_datablock_uuid r) = Some datablock →
  coll_link collection datablock (world s) = (Raise e, w) →
  ∃ s1, apply_member collection true tt (k, MDelta (DeltaAddition (VRefProxy r))) s
        = (Ok tt, s1)
    ∧ ref_data s1 = ref_data s.
Proof.
  intros Hregistered Hlink.
  unfold apply_member, apply_member_try, apply_member_except. munfold. simpl.
  rewrite Hregistered. simpl. rewrite Hlink. simpl. by eexists.
Qed.

Lemma difference_id_iff (X Y : gset string) : X ∖ Y = X ↔ Y ∩ X = ∅.
Proof. set_solver. Qed.

Lemma size_1_singleton (X : gset string) : size X = 1 → ∃ x, X = {[x]}.
Proof. intros [x Hx]%size_1_elem_of. exists x. by apply leibniz_equiv. Qed.

(** C2, as the code has it. When the live collection has exactly one member
    that the proxy lacks and the proxy exactly one member that the live
    collection lacks, the delta of [diff] has exactly one entry tagged
    [DeltaAddition] and exactly one tagged [DeltaDeletion], every other entry
    being an update of a member of both, so exactly two entries when no member
    of both has a delta of its own.  Applied to an empty proxy, the delta
    leaves a proxy whose keys are the identifiers of the live collection that
    the first proxy lacked, that is the added member, provided that the link
    which [to_blender] asks for the added member returns, where [apply] makes
    it: after the members before it in the delta, for the datablock that the
    registry has for the reference.  These keys are all the live identifiers
    exactly when the live collection and the first proxy share no member.
    When that link raises, the proxy stays empty. *)
Theorem diff_then_apply_to_empty (collection : Coll) (s : St)
    (r : option (Delta (gmap string (Delta Value)))) :
  let w := world s in
  let P := ref_data s in
  let live := live_ids w collection in
  size (live ∖ dom P) = 1 →
  size (dom P ∖ live) = 1 →
  diff collection s = (Ok r, s) →
  ∃ m a b value old,
    r = Some (DeltaUpdate m)
    ∧ live ∖ dom P = {[a]}
    ∧ dom P ∖ live = {[b]}
    ∧ m !! a = Some (DeltaAddition value)
    ∧ m !! b = Some (DeltaDeletion (VRefProxy old))
    ∧ (∀ k delta, m !! k = Some delta → k ≠ a → k ≠ b →
         is_update delta = true ∧ k ∈ dom P ∩ live)
    ∧ ((∀ k, k ∈ dom P ∩ live → m !! k = None) → size m = 2)
    ∧ ∀ (parent : Parent) (key : string) (to_blender : bool) (target : Coll)
        (before after : list (string * Member)) (s0 s1 : St)
        (ref_update : DatablockRefProxy),
        let items := before ++ (a, MDelta (DeltaAddition value)) :: after in
        items ≡ₚ map_to_list (MDelta <$> m) →
        ref_data s0 = ∅ →
        value = VRefProxy ref_update →
        parent_getattr parent key (world s0) = Ok target →
        for_each before tt (apply_member target to_blender) s0 = (Ok tt, s1) →
        ∃ s', apply parent key (Some (DeltaUpdate (URefCollection items))) to_blender s0
              = (Ok tt, s')
          ∧ ((to_blender = true →
              ∀ datablock,
                py_get (datablocks s1) (_datablock_uuid ref_update) = Some datablock →
                (coll_link target datablock (world s1)).1 = Ok tt) →
             dom (ref_data s') = live ∖ dom P
             ∧ (dom (ref_data s') = live ↔ dom P ∩ live = ∅))
          ∧ (∀ datablock e w',
               to_blender = true →
               py_get (datablocks s1) (_datablock_uuid ref_update) = Some datablock →
               coll_link target datablock (world s1) = (Raise e, w') →
               ref_data s' = ∅).
Proof.
  intros w P live [a Ha]%size_1_singleton [b Hb]%size_1_singleton Hdiff.
  destruct (diff_characterised collection s) as (HdomB & _ & Hsound).
  destruct (Hsound _ _ Hdiff) as (_ & m & -> & Hmembers & Htag1 & Htag2 & Hnone).
  fold w P live in HdomB, Hmembers, Htag1, Htag2.
  destruct (diff_members_tags _ _ _ _ Hmembers) as (_ & _ & Htag3).
  rewrite HdomB in Htag3. fold live in Htag3.
  assert (∃ value, m !! a = Some (DeltaAddition value)) as [value Hva].
  { apply Htag1. rewrite Ha. set_solver. }
  assert (∃ v, m !! b = Some (DeltaDeletion v)) as [vb Hvb].
  { apply Htag2. rewrite Hb. set_solver. }
  assert (∃ old, vb = VRefProxy old) as [old ->].
  { destruct Hmembers as (_ & Hdel & _). destruct (Hdel b) as (old & _ & Hm).
    - rewrite HdomB. fold live. rewrite Hb. set_solver.
    - exists old. congruence. }
  assert (∀ k delta, m !! k = Some delta → k ≠ a → k ≠ b →
            is_update delta = true ∧ k ∈ dom P ∩ live) as Hrest.
  { intros k delta Hk Hka Hkb.
    assert (is_update delta = true) as Hu.
    { destruct delta as [v|v|v]; [| |done].
      - assert (k ∈ live ∖ dom P) as Hin by (apply Htag1; eauto).
        rewrite Ha in Hin. set_solver.
      - assert (k ∈ dom P ∖ live) as Hin by (apply Htag2; eauto).
        rewrite Hb in Hin. set_solver. }
    split; [done|]. by eapply Htag3. }
  assert (a ≠ b) as Hab by (intros ->; congruence).
  exists m, a, b, value, old.
  split. { unfold diff_result. rewrite decide_False; [done|]. by intros ->. }
  do 5 (split; [done|]). split.
  { intros Hcommon.
    assert (m = {[a := DeltaAddition value; b := DeltaDeletion (VRefProxy old)]}) as ->.
    { apply map_eq. intros k.
      destruct (decide (k = a)) as [->|Hka]; [by rewrite lookup_insert_eq|].
      rewrite lookup_insert_ne by done.
      destruct (decide (k = b)) as [->|Hkb]; [by rewrite lookup_singleton_eq|].
      rewrite lookup_singleton_ne by done.
      destruct (m !! k) as [delta|] eqn:Hk; [|done].
      destruct (Hrest _ _ Hk Hka Hkb) as [_ Hin]. by rewrite Hcommon in Hk. }
    rewrite map_size_insert_None by by rewrite lookup_singleton_ne.
    by rewrite map_size_singleton. }
  intros parent key to_blender target before after s0 s1 ref_update items
    Hitems Hempty -> Hattr Hbefore.
  assert (NoDup items.*1) as Hnd.
  { rewrite Hitems. apply NoDup_fst_map_to_list. }
  unfold items in Hnd. rewrite fmap_app, fmap_cons in Hnd. simpl in Hnd.
  apply NoDup_app in Hnd as (_ & Hbefore_a & [Hafter_a _]%NoDup_cons).
  assert (∀ k member r', (k, member) ∈ items → k ≠ a →
            member ≠ MDelta (DeltaAddition (VRefProxy r'))) as Hothers.
  { intros k member r' Hin Hka ->. rewrite Hitems in Hin.
    apply elem_of_map_to_list in Hin. rewrite lookup_fmap in Hin.
    destruct (m !! k) as [delta|] eqn:Hk; [|done]. simpl in Hin.
    injection Hin as ->.
    assert (k ∈ live ∖ dom P) as Hin by (apply Htag1; eauto).
    rewrite Ha in Hin. set_solver. }
  assert (∀ k member r', (k, member) ∈ before →
            member ≠ MDelta (DeltaAddition (VRefProxy r'))) as Hbefore_others.
  { intros k member r' Hin. apply (Hothers k).
    - apply elem_of_app. by left.
    - intros ->. apply (Hbefore_a a); [|by left].
      apply list_elem_of_fmap. by exists (a, member). }
  assert (∀ k member r', (k, member) ∈ after →
            member ≠ MDelta (DeltaAddition (VRefProxy r'))) as Hafter_others.
  { intros k member r' Hin. apply (Hothers k).
    - apply elem_of_app. right. by right.
    - intros ->. apply Hafter_a. apply list_elem_of_fmap. by exists (a, member). }
  assert (ref_data s1 = ∅) as Hempty1.
  { apply map_eq. intros k. rewrite lookup_empty.
    destruct (apply_loop_no_new_key target to_blender before k s0 s1 Hbefore)
      as [Hk | Hk]; [by eauto|done|].
    by rewrite Hk, Hempty, lookup_empty. }
  destruct (apply_member_ok target to_blender
              (a, MDelta (DeltaAddition (VRefProxy ref_update))) s1) as [s2 Hmember].
  destruct (apply_loop_ok target to_blender after s2) as [s' Hafter].
  pose proof (keeps_run (apply_loop_keeps_ref_at target to_blender _ _ Hafter_a) Hafter)
    as Hkeep. unfold same_ref_at in Hkeep.
  assert (∀ k, k ≠ a → ref_data s' !! k = None ∨ ref_data s' !! k = ref_data s2 !! k)
    as Hafter_keys.
  { intros k _. eapply apply_loop_no_new_key; [done|]. by eauto. }
  exists s'. split.
  { unfold apply. simpl. unfold bind at 1, host_read at 1. rewrite Hattr.
    unfold items. rewrite for_each_app, Hbefore, for_each_cons. by rewrite Hmember. }
  split.
  - intros Hlink.
    destruct (apply_addition_linked target to_blender a ref_update s1 Hlink)
      as (s2' & Hmember' & Href2).
    rewrite Hmember in Hmember'. injection Hmember' as <-.
    assert (dom (ref_data s') = live ∖ dom P) as Hdom.
    { rewrite Ha. apply set_eq. intros k. rewrite elem_of_dom, elem_of_singleton.
      destruct (decide (k = a)) as [-> | Hka].
      - rewrite Hkeep, Href2, lookup_insert_eq. split; [done|by eexists].
      - split; [|done]. intros [rk Hrk]. exfalso.
        destruct (Hafter_keys k Hka) as [Hk | Hk]; [congruence|].
        rewrite Hk, Href2, lookup_insert_ne, Hempty1, lookup_empty in Hrk by done.
        done. }
    split; [done|]. rewrite Hdom. apply difference_id_iff.
  - intros datablock e w' -> Hregistered Hlink.
    destruct (apply_addition_link_raises target a ref_update datablock e w' s1
                Hregistered Hlink) as (s2' & Hmember' & Href2).
    rewrite Hmember in Hmember'. injection Hmember' as <-.
    apply map_eq. intros k. rewrite lookup_empty.
    destruct (decide (k = a)) as [-> | Hka].
    + by rewrite Hkeep, Href2, Hempty1, lookup_empty.
    + destruct (Hafter_keys k Hka) as [Hk | Hk]; [done|].
      by rewrite Hk, Href2, Hempty1, lookup_empty.
Qed.

(** * More of DatablockCollectionProxy *)

(** X1. One removal of [update] always returns, with the removal of the
    proxy appended to the changeset.  Its [try] is left at the first missing
    entry: the entry of the collection map goes whenever there is one; the
    registry's entry for the proxy only when the collection map and the
    registry's datablocks both had the identifier; the registry's datablock
    only when all three had it.  Otherwise the handler logs its error record
    and then one error record for each line of the traceback of the
    KeyError. *)
Theorem update_removal_stops_at_missing_entry (changeset : Changeset)
    (proxy : ProxyRef) (s : St) :
  let p := heap s proxy in
  let uuid := mixer_uuid p in
  let tracked := bool_decide (is_Some (self_data s !! uuid)) in
  let known := bool_decide (is_Some (datablocks s !! uuid)) in
  let proxied := bool_decide (is_Some (proxies s !! uuid)) in
  let started := logged INFO "Perform removal for %s" [] s in
  let raised :=
    logged ERROR "Exception during update/removed for proxy )  :" []
      (if tracked then set_self_data (delete uuid (self_data s)) started else started) in
  ∃ s', update_removal changeset proxy s
        = (Ok (add_removal (uuid, collection_name p, proxy_str p) changeset), s')
    ∧ self_data s' = delete uuid (self_data s)
    ∧ proxies s' = (if tracked && known then delete uuid (proxies s) else proxies s)
    ∧ datablocks s' = (if tracked && known && proxied then delete uuid (datablocks s)
                       else datablocks s)
    ∧ log s' = log s ++ mkLog INFO "Perform removal for %s" []
               :: (if tracked && known && proxied then []
                   else mkLog ERROR "Exception during update/removed for proxy )  :" []
                        :: ((λ line, mkLog ERROR line []) <$> format_exc raised KeyError))
    ∧ world s' = world s ∧ heap s' = heap s ∧ next_ref s' = next_ref s
    ∧ ref_data s' = ref_data s
    ∧ unresolved_refs s' = unresolved_refs s.
Proof. apply update_removal_cases. Qed.

(** X2. Without renames [update] always returns: no addition and no removal
    can make it raise.  The changeset has one removal per removed proxy, in
    the order of the diff, and no rename. *)
Theorem update_without_renames_returns (diff : BpyPropCollectionDiff) (s : St) :
  items_renamed diff = [] →
  ∃ changeset s',
    update diff s = (Ok changeset, s')
    ∧ renames changeset = []
    ∧ (λ r, r.1.1) <$> removals changeset
      = (λ p, mixer_uuid (heap s' p)) <$> items_removed diff.
Proof.
  intros Hrenamed. rewrite update_run, Hrenamed.
  destruct (update_additions diff Changeset_new s) as [[cs1|e] s1] eqn:Hadd.
  2:{ destruct (update_additions_ok diff Changeset_new s) as (? & ? & Hok).
      congruence. }
  destruct (update_removals_loop (items_removed diff) cs1 s1)
    as (cs2 & s2 & -> & _ & Hren & Hrem & Hheap & _).
  exists cs2, s2. split; [done|].
  assert (removals cs1 = [] ∧ renames cs1 = []) as [Hrem1 Hren1].
  { clear -Hadd. unfold update_additions in Hadd. revert Hadd.
    generalize (sorted (dict_keys (items_added diff))) as names.
    assert (removals Changeset_new = [] ∧ renames Changeset_new = []) as Hnew by done.
    revert Hnew. generalize Changeset_new as cs0. intros cs0 Hcs0 names. revert cs0 s Hcs0.
    induction names as [|name names IH]; intros cs0 s Hcs0; [by intros [= <- <-]|].
    rewrite for_each_cons.
    destruct (update_addition _ cs0 name s) as [[cs'|e] s'] eqn:Hstep; [|done].
    apply update_addition_cases in Hstep as (Hr & Hn & _).
    apply IH. destruct Hcs0. split; congruence. }
  split; [congruence|]. rewrite Hrem, Hrem1. simpl.
  rewrite <- list_fmap_compose. apply list_fmap_ext. intros _ p _. simpl.
  by rewrite Hheap.
Qed.

(** X3. A rename is not guarded: when the live collection has nothing under
    the new name of the first renamed proxy, or the registry no datablock
    for its identifier, [update] raises KeyError.  The additions and the
    removals have been done by then and stay done, and the changeset that
    records them is lost. *)
Theorem update_failed_rename_raises (diff : BpyPropCollectionDiff) (s s0 s1 : St)
    (changeset0 changeset1 : Changeset) (proxy : ProxyRef) (new_name : string)
    (rest : list (ProxyRef * string)) (collection : Coll) :
  update_additions diff Changeset_new s = (Ok changeset0, s0) →
  for_each (items_removed diff) changeset0 update_removal s0 = (Ok changeset1, s1) →
  items_renamed diff = (proxy, new_name) :: rest →
  bpy_data_collection (collection_name (heap s1 proxy)) (world s1) = Ok collection →
  coll_get (world s1) collection new_name = None
  ∨ datablocks s1 !! mixer_uuid (heap s1 proxy) = None →
  update diff s = (Raise KeyError, s1).
Proof.
  intros Hadd Hrem Hrenamed Hcoll Hmissing.
  rewrite update_run, Hadd, Hrem, Hrenamed, for_each_cons.
  unfold update_rename, proxy_collection. munfold. rewrite Hcoll.
  destruct (coll_get (world s1) collection new_name) as [live|]; [|done].
  destruct Hmissing as [Hnone | Hnone]; [done|]. by rewrite Hnone.
Qed.

(** X4. An addition of [update] registers the datablock before it loads
    the proxy: when the load raises, whatever the exception, the addition
    still returns, with the changeset as it was, and the registry keeps the
    datablock under its identifier, with no proxy for it in the registry or
    in the collection map beyond what was there. *)
Theorem update_addition_failed_load_keeps_datablock (added : list (string * string))
    (changeset : Changeset) (name collection_name : string) (s : St)
    (collection : Coll) (id_ : Datablock) (uuid : string) (w1 w2 : World) (e : exn) :
  let context :=
    set_datablocks (<[uuid := Some id_]> (datablocks s))
      (set_world w1
         (logged INFO "Perform update/creation for %s[%s]" [collection_name; name] s)) in
  dict_getitem added name = Some collection_name →
  bpy_data_collection collection_name (world s) = Ok collection →
  coll_get (world s) collection name = Some id_ →
  ensure_uuid id_ (world s) = (Ok uuid, w1) →
  load_datablock id_ name collection_name context = (Raise e, w2) →
  ∃ s', update_addition added changeset name s = (Ok changeset, s')
    ∧ datablocks s' = <[uuid := Some id_]> (datablocks s)
    ∧ proxies s' = proxies s
    ∧ self_data s' = self_data s
    ∧ heap s' = heap s ∧ next_ref s' = next_ref s
    ∧ world s' = w2.
Proof.
  intros context Hname Hcoll Hget Huuid Hload.
  rewrite (update_addition_run _ _ _ _ _ Hname).
  unfold update_addition_try, alloc. munfold.
  set (sL := logged _ _ _ s) in *.
  change (world sL) with (world s). rewrite Hcoll, Hget.
  change (world sL) with (world s). rewrite Huuid.
  change (datablocks (set_world w1 sL)) with (datablocks s).
  fold context. rewrite Hload.
  match goal with
  | |- context [update_addition_except changeset e ?s1] =>
      destruct (update_addition_except_run changeset e s1) as (records & -> & _)
  end.
  by eexists.
Qed.

(** X5. When the load returns, the addition puts the loaded proxy at a new
    address, registers this address under the identifier of the datablock
    both in the registry and in the collection map, registers the datablock,
    and appends the address to the creations. *)
Theorem update_addition_registers_loaded_proxy (added : list (string * string))
    (changeset : Changeset) (name collection_name : string) (s : St)
    (collection : Coll) (id_ : Datablock) (uuid : string) (w1 w2 : World)
    (loaded : ProxyObj) :
  let context :=
    set_datablocks (<[uuid := Some id_]> (datablocks s))
      (set_world w1
         (logged INFO "Perform update/creation for %s[%s]" [collection_name; name] s)) in
  dict_getitem added name = Some collection_name →
  bpy_data_collection collection_name (world s) = Ok collection →
  coll_get (world s) collection name = Some id_ →
  ensure_uuid id_ (world s) = (Ok uuid, w1) →
  load_datablock id_ name collection_name context = (Ok loaded, w2) →
  ∃ s', update_addition added changeset name s
        = (Ok (add_creation (next_ref s) changeset), s')
    ∧ datablocks s' = <[uuid := Some id_]> (datablocks s)
    ∧ proxies s' = <[uuid := next_ref s]> (proxies s)
    ∧ self_data s' = <[uuid := next_ref s]> (self_data s)
    ∧ heap s' = <[next_ref s := loaded]> (heap s)
    ∧ next_ref s' = N.succ (next_ref s)
    ∧ world s' = w2
    ∧ log s' = log s ++ [creation_record added name].
Proof. apply update_addition_loaded_run. Qed.

(** X6. [remove_datablock] works on the collection map, the log and
    Blender only: whatever it returns or raises, the registry (proxies,
    datablocks, deferred references), the reference snapshot and the proxy
    objects are as before, and the collection map is as before or has lost
    the entry of the proxy. *)
Theorem remove_datablock_leaves_registry (proxy : ProxyRef) (datablock : Datablock)
    (s : St) :
  let s' := (remove_datablock proxy datablock s).2 in
  proxies s' = proxies s
  ∧ datablocks s' = datablocks s
  ∧ unresolved_refs s' = unresolved_refs s
  ∧ ref_data s' = ref_data s
  ∧ heap s' = heap s
  ∧ (self_data s' = self_data s
     ∨ (is_Some (self_data s !! mixer_uuid (heap s proxy))
        ∧ (remove_datablock proxy datablock s).1 = Ok tt
        ∧ self_data s' = delete (mixer_uuid (heap s proxy)) (self_data s))).
Proof.
  destruct (remove_datablock proxy datablock s) as [r s'] eqn:Hrun. simpl.
  revert Hrun.
  unfold remove_datablock. unfold bind at 1. unfold logger at 1, modify at 1.
  set (s0 := set_log _ s).
  unfold bind at 1, try_except.
  pose proof (remove_datablock_try_keeps same_tables proxy datablock s0)
    as (Hself & Href & Hdb & Hpr & Hun).
  pose proof (remove_datablock_try_keeps same_heap proxy datablock s0) as (Hheap & _).
  assert (∀ s1 : St,
            self_data s1 = self_data s → ref_data s1 = ref_data s →
            datablocks s1 = datablocks s → proxies s1 = proxies s →
            unresolved_refs s1 = unresolved_refs s → heap s1 = heap s →
            (do uuid <- gets (λ s, mixer_uuid (heap s proxy));
             delitem self_data set_self_data uuid) s1 = (r, s') →
            proxies s' = proxies s ∧ datablocks s' = datablocks s
            ∧ unresolved_refs s' = unresolved_refs s ∧ ref_data s' = ref_data s
            ∧ heap s' = heap s
            ∧ (self_data s' = self_data s
               ∨ is_Some (self_data s !! mixer_uuid (heap s proxy))
                 ∧ r = Ok tt
                 ∧ self_data s' = delete (mixer_uuid (heap s proxy)) (self_data s)))
    as Hdel.
  { intros s1 H1 H2 H3 H4 H5 H6. munfold. simpl. rewrite H6, H1.
    destruct (self_data s !! _) as [entry|] eqn:Hentry; intros [= <- <-]; simpl;
      repeat (split; [congruence|]).
    - right. split; [by eexists|]. by rewrite H1.
    - by left. }
  destruct (remove_datablock_try proxy datablock s0) as [[[]|e] s1] eqn:Htry;
    simpl in Hself, Href, Hdb, Hpr, Hun, Hheap.
  - by apply Hdel.
  - destruct (is_ReferenceError e).
    + by apply Hdel.
    + intros [= <- <-]. repeat (split; [congruence|]). by left.
Qed.

(** * More of DatablockRefCollectionProxy *)

Lemma apply_member_offline (collection : Coll) (k : string) (member : Member) (s : St) :
  ∃ s1, apply_member collection false tt (k, member) s = (Ok tt, s1)
    ∧ ref_data s1 = partial_alter (applied_entry member) k (ref_data s)
    ∧ world s1 = world s.
Proof.
  assert (∀ (P P' : gmap string DatablockRefProxy),
            (∀ k', P' !! k' = if decide (k = k') then applied_entry member (P !! k)
                              else P !! k') →
            P' = partial_alter (applied_entry member) k P) as Halter.
  { intros P P' HP. apply map_eq. intros k'. rewrite HP.
    case_decide as Heq; [subst k'; by rewrite lookup_partial_alter_eq|].
    by rewrite lookup_partial_alter_ne. }
  unfold apply_member, apply_member_try, apply_member_except. munfold.
  destruct member as [[[r|p|d]|[r|p|d]|v]|d]; simpl;
    try destruct (ref_data s !! k) as [old|] eqn:Hold; simpl;
    (eexists; split; [done|]; split; [|done]); simpl;
    apply Halter; intros k'; case_decide as Heq; try subst k'; simpl;
    rewrite ?lookup_insert_eq, ?lookup_insert_ne, ?lookup_delete_eq,
      ?lookup_delete_ne by done; done.
Qed.

Lemma apply_loop_offline (collection : Coll) (items : list (string * Member)) (s : St) :
  NoDup items.*1 →
  ∃ s', for_each items tt (apply_member collection false) s = (Ok tt, s')
    ∧ world s' = world s
    ∧ ∀ k, ref_data s' !! k
           = match dict_getitem items k with
             | Some member => applied_entry member (ref_data s !! k)
             | None => ref_data s !! k
             end.
Proof.
  revert s. induction items as [|[k' member] items IH]; intros s Hnd.
  - by exists s.
  - apply NoDup_cons in Hnd as [Hk' Hnd]. simpl in Hk'. rewrite for_each_cons.
    destruct (apply_member_offline collection k' member s) as (s1 & -> & Hstep & Hw1).
    destruct (IH s1 Hnd) as (s' & Hrest & Hw & Hlook).
    exists s'. split; [done|]. split; [congruence|]. intros k.
    rewrite Hlook, Hstep. simpl. case_decide as Heq.
    + subst k'. destruct (dict_getitem items k) as [other|] eqn:Hother.
      * exfalso. apply Hk'. apply dict_getitem_elem_of in Hother; [|done].
        apply list_elem_of_fmap. by exists (k, other).
      * by rewrite lookup_partial_alter_eq.
    + by rewrite lookup_partial_alter_ne.
Qed.

Lemma no_difference_eq (X Y : gset string) :
  (∀ k, k ∉ X ∖ Y) → (∀ k, k ∉ Y ∖ X) → X = Y.
Proof.
  intros HXY HYX. apply set_eq. intros k. specialize (HXY k). specialize (HYX k).
  rewrite elem_of_difference in HXY, HYX.
  destruct (decide (k ∈ X)), (decide (k ∈ Y)); tauto.
Qed.

(** X7. Diff, then apply to the same proxy.  When [diff] returns None the
    keys of the proxy are the identifiers of the live collection.  When it
    returns a delta whose additions are reference proxies, applying the delta
    to the proxy that made it, without writing to Blender, returns, leaves
    Blender alone and makes the keys of the proxy the identifiers of the live
    collection; a second [diff] then finds neither an addition nor a
    deletion. *)
Theorem diff_then_apply_offline_converges (collection : Coll) (s : St)
    (r : option (Delta (gmap string (Delta Value)))) :
  diff collection s = (Ok r, s) →
  match r with
  | None => dom (ref_data s) = live_ids (world s) collection
  | Some delta =>
      ∀ (parent : Parent) (key : string) (target : Coll)
        (items : list (string * Member)),
        items ≡ₚ map_to_list (MDelta <$> delta_value delta) →
        (∀ k value, delta_value delta !! k = Some (DeltaAddition value) →
                    ∃ ref_update, value = VRefProxy ref_update) →
        parent_getattr parent key (world s) = Ok target →
        ∃ s', apply parent key (Some (DeltaUpdate (URefCollection items))) false s
              = (Ok tt, s')
          ∧ dom (ref_data s') = live_ids (world s) collection
          ∧ world s' = world s
          ∧ ∀ r' s'' m' k d,
              diff collection s' = (Ok r', s'') →
              r' = Some (DeltaUpdate m') → m' !! k = Some d → is_update d = true
  end.
Proof.
  intros Hdiff.
  destruct (diff_characterised collection s) as (_ & _ & Hsound).
  destruct (Hsound _ _ Hdiff) as (_ & m & -> & Hmembers & Hadd & Hdel & Hnone).
  destruct (diff_members_tags _ _ _ _ Hmembers) as (_ & _ & Hupd).
  rewrite dom_blender_items_of in Hupd.
  unfold diff_result. case_decide as Hm.
  { subst m. apply no_difference_eq; intros k Hk.
    - apply Hdel in Hk as [v Hv]. by rewrite lookup_empty in Hv.
    - apply Hadd in Hk as [v Hv]. by rewrite lookup_empty in Hv. }
  simpl. intros parent key target items Hitems Hrefs Hattr.
  assert (NoDup items.*1) as Hnd.
  { rewrite Hitems. apply NoDup_fst_map_to_list. }
  assert (∀ k, dict_getitem items k = MDelta <$> m !! k) as Hget.
  { intros k. destruct (m !! k) as [d|] eqn:Hk; simpl.
    - apply dict_getitem_elem_of; [done|]. rewrite Hitems.
      apply elem_of_map_to_list. by rewrite lookup_fmap, Hk.
    - destruct (dict_getitem items k) as [member|] eqn:Hmember; [|done].
      apply dict_getitem_elem_of in Hmember; [|done]. rewrite Hitems in Hmember.
      apply elem_of_map_to_list in Hmember. by rewrite lookup_fmap, Hk in Hmember. }
  destruct (apply_loop_offline target items s Hnd) as (s' & Hloop & Hworld & Hlook).
  assert (dom (ref_data s') = live_ids (world s) collection) as Hdom.
  { apply set_eq. intros k. rewrite elem_of_dom, Hlook, Hget.
    destruct (m !! k) as [[v|v|v]|] eqn:Hk; simpl.
    - destruct (Hrefs _ _ Hk) as [ref_update ->]. simpl.
      assert (k ∈ live_ids (world s) collection ∖ dom (ref_data s)) as Hin
        by (apply Hadd; eauto).
      apply elem_of_difference in Hin as [Hin _]. split; [done|]. by eexists.
    - assert (k ∈ dom (ref_data s) ∖ live_ids (world s) collection) as Hin
        by (apply Hdel; eauto).
      apply elem_of_difference in Hin as [Hin Hout].
      destruct Hmembers as (_ & Hdeleted & _).
      destruct (Hdeleted k) as (old & _ & Hold).
      { rewrite dom_blender_items_of. by apply elem_of_difference. }
      rewrite Hk in Hold. injection Hold as ->. simpl.
      split; [by intros [? ?]|done].
    - pose proof (Hupd k _ Hk eq_refl) as Hboth.
      apply elem_of_intersection in Hboth as [Hin Hlive].
      rewrite <- elem_of_dom. tauto.
    - rewrite <- elem_of_dom. split; intros Hin.
      + destruct (decide (k ∈ live_ids (world s) collection)) as [|Hout]; [done|].
        assert (k ∈ dom (ref_data s) ∖ live_ids (world s) collection) as Hdiff'
          by by apply elem_of_difference.
        apply Hdel in Hdiff' as [v Hv]. congruence.
      + destruct (decide (k ∈ dom (ref_data s))) as [|Hout]; [done|].
        assert (k ∈ live_ids (world s) collection ∖ dom (ref_data s)) as Hdiff'
          by by apply elem_of_difference.
        apply Hadd in Hdiff' as [v Hv]. congruence. }
  exists s'. split.
  { unfold apply. simpl. unfold bind at 1, host_read at 1. by rewrite Hattr. }
  split; [done|]. split; [done|].
  intros r' s'' m' k d Hdiff' -> Hk.
  destruct (diff_characterised collection s') as (_ & _ & Hsound').
  destruct (Hsound' _ _ Hdiff') as (_ & m0 & Hr' & _ & Hadd' & Hdel' & _).
  unfold diff_result in Hr'. case_decide; [done|]. injection Hr' as <-.
  rewrite Hworld, Hdom in Hadd', Hdel'.
  destruct d as [v|v|v]; [| |done]; exfalso.
  - assert (k ∈ live_ids (world s) collection ∖ live_ids (world s) collection) as Hin
      by (apply Hadd'; eauto).
    apply elem_of_difference in Hin. tauto.
  - assert (k ∈ live_ids (world s) collection ∖ live_ids (world s) collection) as Hin
      by (apply Hdel'; eauto).
    apply elem_of_difference in Hin. tauto.
Qed.

(** X8. With [to_blender], [apply] makes at most one call to Blender for an
    addition or a deletion of a reference: a link or an unlink of the
    registered datablock, and none when the registry has no datablock for the
    reference.  The member always returns; when the call raised, the snapshot
    is as before, and otherwise the snapshot changes as it does without
    [to_blender]. *)
Theorem apply_snapshot_follows_blender (collection : Coll) (k : string)
    (ref_update : DatablockRefProxy) (added : bool) (s : St) :
  let member :=
    MDelta (if added then DeltaAddition (VRefProxy ref_update)
            else DeltaDeletion (VRefProxy ref_update)) in
  let blender :=
    match py_get (datablocks s) (_datablock_uuid ref_update) with
    | Some datablock =>
        (if added then coll_link else coll_unlink) collection datablock (world s)
    | None => (Ok tt, world s)
    end in
  ∃ s1, apply_member collection true tt (k, member) s = (Ok tt, s1)
    ∧ world s1 = blender.2
    ∧ ref_data s1 = match blender.1 with
                    | Ok _ => partial_alter (applied_entry member) k (ref_data s)
                    | Raise _ => ref_data s
                    end.
Proof.
  assert (∀ (member : Member) (P P' : gmap string DatablockRefProxy),
            (∀ k', P' !! k' = if decide (k = k') then applied_entry member (P !! k)
                              else P !! k') →
            P' = partial_alter (applied_entry member) k P) as Halter.
  { intros member P P' HP. apply map_eq. intros k'. rewrite HP.
    case_decide as Heq; [subst k'; by rewrite lookup_partial_alter_eq|].
    by rewrite lookup_partial_alter_ne. }
  intros member blender. subst member blender.
  unfold apply_member, apply_member_try, apply_member_except. munfold.
  cbv beta.
  destruct added;
    destruct (py_get (datablocks s) (_datablock_uuid ref_update)) as [datablock|];
    simpl;
    [ destruct (coll_link collection datablock (world s)) as [[[]|e] w']; simpl
    | idtac
    | destruct (coll_unlink collection datablock (world s)) as [[[]|e] w']; simpl
    | idtac ];
    try destruct (ref_data s !! k) as [old|] eqn:Hold; simpl;
    (eexists; split; [done|]; split; [done|]); simpl; try done;
    apply Halter; intros k'; case_decide as Heq; try subst k'; simpl;
    rewrite ?lookup_insert_eq, ?lookup_insert_ne, ?lookup_delete_eq,
      ?lookup_delete_ne by done; done.
Qed.

(** * More of specifics.py *)

(** X9. [bpy_data_ctor] returns None for images and for the collections
    without a constructor of their own only (never for objects, lights, node
    groups or sounds), and then it has logged two records, warnings for an
    image and errors otherwise, and has left the proxy objects and the tables
    alone. *)
Theorem bpy_data_ctor_none_is_logged (collection_name : string) (proxy : ProxyRef)
    (s s' : St) :
  bpy_data_ctor collection_name proxy s = (Ok None, s') →
  (collection_name = "images"
   ∨ collection_name ∉ ["images"; "objects"; "lights"; "node_groups"; "sounds"])
  ∧ (∃ record1 record2,
       log s' = log s ++ [record1; record2]
       ∧ log_level record1 = (if decide (collection_name = "images") then WARNING
                              else ERROR)
       ∧ log_level record2 = log_level record1)
  ∧ heap s' = heap s
  ∧ same_tables s s'.
Proof.
  unfold bpy_data_ctor, has_packed_files, unpack2, target, same_tables. munfold.
  intros Hrun.
  repeat (case_match; simplify_eq/=);
    (split; [first [by left | right; set_solver]|]);
    (split; [eexists _, _; rewrite <- ?(assoc_L (++)); by repeat split|]);
    done.
Qed.

(** X10. [bpy_data_ctor] writes to the proxy in one case only: when it
    returns an image, the file path and the raw file path of the proxy are
    the resolved file path.  In every other case, also when it raises, the
    proxy objects are as before; and it never changes the tables. *)
Theorem bpy_data_ctor_writes_resolved_path (collection_name : string)
    (proxy : ProxyRef) (s : St) :
  let resolved_filepath :=
    get_resolved_file_path (world s) (data (heap s proxy) "filepath") in
  let r := (bpy_data_ctor collection_name proxy s).1 in
  let s' := (bpy_data_ctor collection_name proxy s).2 in
  same_tables s s'
  ∧ (heap s' = heap s
     ∨ (collection_name = "images"
        ∧ (∃ image, r = Ok (Some image))
        ∧ heap s' = <[proxy := set_data "filepath_raw" resolved_filepath
                                 (set_data "filepath" resolved_filepath (heap s proxy))]>
                      (heap s))).
Proof.
  intros resolved_filepath r s'. subst resolved_filepath r s'.
  split; [apply bpy_data_ctor_keeps_tables|].
  destruct (bpy_data_ctor collection_name proxy s) as [r s'] eqn:Hrun. simpl.
  revert Hrun.
  unfold bpy_data_ctor, has_packed_files, unpack2, target. munfold.
  intros Hrun.
  repeat (case_match; simplify_eq/=);
    first [by left | right; split; [done|]; split; [by eexists|done]].
Qed.

End Proofs.

(** * Properties of more of the code *)

(** ** node_proxy.py *)

Lemma find_socket_from_spec (i : Z) (sockets : list NodeSocket) (identifier_ : string) :
  (find_socket_from i sockets identifier_ = -1
   ∧ ∀ socket, socket ∈ sockets → identifier socket ≠ identifier_)%Z
  ∨ ∃ (n : nat) socket,
      find_socket_from i sockets identifier_ = (i + Z.of_nat n)%Z
      ∧ sockets !! n = Some socket
      ∧ identifier socket = identifier_
      ∧ ∀ j socket', (j < n)%nat → sockets !! j = Some socket' →
                     identifier socket' ≠ identifier_.
Proof.
  revert i. induction sockets as [|socket sockets IH]; intros i; simpl.
  - left. split; [done|]. by intros ? ?%elem_of_nil.
  - case_decide as Heq.
    + right. exists 0%nat, socket. rewrite Z.add_0_r. repeat split; try done. lia.
    + destruct (IH (i + 1)%Z) as [[Hr Hall]|(n & sock & Hr & Hn & Hid & Hbefore)].
      * left. split; [done|]. intros s [->|Hs]%elem_of_cons; auto.
      * right. exists (S n), sock. repeat split; try done; [lia|].
        intros [|j] socket' Hj Hlook; simpl in Hlook; [by simplify_eq|].
        eapply Hbefore; [|done]. lia.
Qed.

(** X11. [_find_socket] returns -1 exactly when no socket has the identifier;
    otherwise it returns the index of the first socket that has it. *)
Theorem find_socket_first_match (sockets : list NodeSocket) (identifier_ : string) :
  let i := _find_socket sockets identifier_ in
  (i = -1 ↔ ∀ socket, socket ∈ sockets → identifier socket ≠ identifier_)%Z
  ∧ (i = -1 ∨ 0 ≤ i < Z.of_nat (length sockets))%Z
  ∧ ∀ socket, sockets !! Z.to_nat i = Some socket → i ≠ (-1)%Z →
      identifier socket = identifier_
      ∧ ∀ j socket', (j < Z.to_nat i)%nat → sockets !! j = Some socket' →
                     identifier socket' ≠ identifier_.
Proof.
  intros i. unfold _find_socket in i.
  destruct (find_socket_from_spec 0 sockets identifier_)
    as [[Hr Hall]|(n & sock & Hr & Hn & Hid & Hbefore)]; fold i in Hr.
  - split; [done|]. split; [by left|]. intros ? _ ?. done.
  - assert (i = Z.of_nat n) as Hi by lia.
    apply lookup_lt_Some in Hn as Hlt.
    split; [|split].
    + split; [lia|]. intros Hall. exfalso. eapply Hall; [|done].
      by eapply list_elem_of_lookup_2.
    + right. lia.
    + intros socket Hsocket _. rewrite Hi, Nat2Z.id in Hsocket |- *.
      by simplify_eq.
Qed.

Lemma find_socket_unique (sockets : list NodeSocket) (socket : NodeSocket) :
  socket ∈ sockets → NoDup (identifier <$> sockets) →
  py_index sockets (_find_socket sockets (identifier socket)) = Some socket.
Proof.
  intros Hin Hnd.
  destruct (find_socket_from_spec 0 sockets (identifier socket))
    as [[_ Hall]|(n & sock & Hr & Hn & Hid & _)].
  - exfalso. by eapply Hall.
  - unfold _find_socket, py_index. rewrite Hr, decide_True by lia.
    replace (Z.to_nat (0 + Z.of_nat n)) with n by lia. rewrite Hn. f_equal.
    apply list_elem_of_lookup in Hin as [m Hm].
    assert (n = m) as ->; [|congruence].
    eapply NoDup_lookup; [done| |]; rewrite list_lookup_fmap.
    + by rewrite Hn.
    + rewrite Hm. simpl. by rewrite Hid.
Qed.

(** X12. [_load] makes one item per link, in the order of the links, with the
    names of the two nodes; when the sockets of the link are among the outputs
    and inputs of its nodes, and identifiers are not repeated there, the
    indices of the item lead back to these sockets. *)
Theorem load_indices_lead_back (links : list NodeLink) (n : nat) (link : NodeLink) :
  links !! n = Some link →
  link_from_socket link ∈ node_outputs (link_from_node link) →
  NoDup (identifier <$> node_outputs (link_from_node link)) →
  link_to_socket link ∈ node_inputs (link_to_node link) →
  NoDup (identifier <$> node_inputs (link_to_node link)) →
  length (_load links) = length links
  ∧ ∃ item, _load links !! n = Some item
      ∧ from_node item = node_name (link_from_node link)
      ∧ to_node item = node_name (link_to_node link)
      ∧ py_index (node_outputs (link_from_node link)) (from_socket item)
        = Some (link_from_socket link)
      ∧ py_index (node_inputs (link_to_node link)) (to_socket item)
        = Some (link_to_socket link).
Proof.
  intros Hn Hfrom Hfrom_nd Hto Hto_nd. unfold _load.
  split; [by rewrite length_fmap|].
  eexists. rewrite list_lookup_fmap, Hn. simpl. split; [done|]. simpl.
  split; [done|]. split; [done|]. split; by apply find_socket_unique.
Qed.

Section NodeLinksProofs.
Context {World : Type} `{!NodeHost World}.

Implicit Types (s : St World) (node_tree parent : Parent).

Ltac nunfold :=
  unfold save_link, getitem_index, logger, host, gets, modify, bind, ret, raise.

(** X13. Whatever the proxy holds, applying to it the update that
    [NodeLinksProxy.diff] computes against some links, without writing to
    Blender, succeeds, leaves the state alone and makes the proxy equal to a
    fresh load of the links: a second diff finds nothing. So does a diff
    right after a load; and a diff of None leaves a proxy that already holds
    the loaded links. *)
Theorem links_diff_apply_converges (self : NodeLinksProxy) (links : list NodeLink)
    parent (key : string) s :
  NodeLinksProxy_diff (NodeLinksProxy_load self links) links = None
  ∧ match NodeLinksProxy_diff self links with
    | None => _sequence self = _load links
    | Some delta =>
        is_update delta = true
        ∧ ∃ self',
            NodeLinksProxy_apply self parent (PStr key) delta false s = (Ok tt, self', s)
            ∧ self' = NodeLinksProxy_load self links
            ∧ NodeLinksProxy_diff self' links = None
    end.
Proof.
  unfold NodeLinksProxy_diff, NodeLinksProxy_load. simpl.
  split; [by rewrite decide_True|].
  case_decide as Hsame; [done|]. split; [done|].
  eexists. split; [done|]. split; [done|]. simpl. by rewrite decide_True.
Qed.

Lemma save_link_missing_node node_tree (link_proxy : LinkItem) s :
  (∀ w, nodes_get w node_tree (from_node link_proxy) = None)
  ∨ (∀ w, nodes_get w node_tree (to_node link_proxy) = None) →
  (save_link node_tree link_proxy s).1 ≠ Ok true.
Proof.
  intros Hmissing. nunfold. simpl.
  destruct (nodes_get (world s) node_tree (from_node link_proxy)) as [fn|] eqn:Hfrom;
    [|done].
  destruct Hmissing as [Hmissing|Hmissing]; [by rewrite Hmissing in Hfrom|].
  destruct (py_index _ _) as [[from_socket|]|]; simpl; [|done..].
  rewrite Hmissing. done.
Qed.

(** X14. [NodeLinksProxy.save] gives up at the first item that names a node
    the tree does not have: the items after it are never looked at, so the
    outcome and the state are those of saving the sequence cut after this
    item, and no exception reports the links that were not made. *)
Theorem save_stops_at_missing_node node_tree (before after : list LinkItem)
    (bad : LinkItem) s :
  (∀ w, nodes_get w node_tree (from_node bad) = None)
  ∨ (∀ w, nodes_get w node_tree (to_node bad) = None) →
  NodeLinksProxy_save (mkNodeLinks (before ++ bad :: after)) node_tree s
  = NodeLinksProxy_save (mkNodeLinks (before ++ [bad])) node_tree s.
Proof.
  intros Hmissing.
  assert (∀ s, save_links node_tree (before ++ bad :: after) s
               = save_links node_tree (before ++ [bad]) s) as Hloop.
  { induction before as [|link_proxy before IH]; intros s0; simpl.
    - pose proof (save_link_missing_node node_tree bad s0 Hmissing) as Hbad.
      unfold bind. destruct (save_link node_tree bad s0) as [[[]|e] s1]; done.
    - unfold bind. destruct (save_link node_tree link_proxy s0) as [[[]|e] s1];
        [apply IH|done..]. }
  unfold NodeLinksProxy_save, bind, gets. simpl.
  destruct (negb (is_node_tree (world s) node_tree)); [done|].
  destruct (host _ s) as [[[]|e] s2]; [apply Hloop|done].
Qed.

(** X15. When no output of the node of a link has the identifier of the
    socket the link starts from, [_load] stores the index -1; [save] then
    takes the last output of the node for it, whatever its identifier, and
    raises IndexError when the node has no output. *)
Theorem save_unfound_socket_takes_last (links : list NodeLink) (n : nat)
    (link : NodeLink) (item : LinkItem) :
  links !! n = Some link →
  _load links !! n = Some item →
  (∀ socket, socket ∈ node_outputs (link_from_node link) →
             identifier socket ≠ identifier (link_from_socket link)) →
  from_socket item = (-1)%Z
  ∧ ∀ node_tree s node,
      nodes_get (world s) node_tree (from_node item) = Some node →
      (outputs_of (world s) node = [] →
       save_link node_tree item s = (Raise (OtherException "IndexError"), s))
      ∧ ∀ outputs last node' to_socket_,
          outputs_of (world s) node = outputs ++ [Some last] →
          nodes_get (world s) node_tree (to_node item) = Some node' →
          py_index (inputs_of (world s) node') (to_socket item)
          = Some (Some to_socket_) →
          save_link node_tree item s
          = (let '(r, w) := links_new node_tree last to_socket_ (world s) in
             (match r with Ok _ => Ok true | Raise e => Raise e end, set_world w s)).
Proof.
  intros Hlink Hitem Hnone.
  unfold _load in Hitem. rewrite list_lookup_fmap, Hlink in Hitem.
  simpl in Hitem. injection Hitem as <-. simpl.
  assert (_find_socket (node_outputs (link_from_node link))
                       (identifier (link_from_socket link)) = (-1)%Z) as Hminus.
  { destruct (find_socket_from_spec 0 (node_outputs (link_from_node link))
                (identifier (link_from_socket link)))
      as [[Hr _]|(m & sock & _ & Hm & Hid & _)]; [done|].
    exfalso. eapply Hnone; [|done]. by eapply list_elem_of_lookup_2. }
  split; [done|]. intros node_tree s node Hnode. split.
  - intros Hempty. nunfold. simpl. rewrite Hnode, Hminus, Hempty. done.
  - intros outputs last node' to_socket_ Houtputs Hnode' Hto.
    nunfold. simpl. rewrite Hnode, Hminus, Houtputs. unfold py_index at 1.
    rewrite decide_False, decide_True by (rewrite ?length_app; simpl; lia).
    rewrite length_app. simpl.
    replace (Z.to_nat (Z.of_nat (length outputs + 1) + -1)) with (length outputs) by lia.
    rewrite lookup_app_r, Nat.sub_diag by lia. simpl.
    rewrite Hnode', Hto.
    destruct (links_new node_tree last to_socket_ (world s)) as [[[]|e] w]; done.
Qed.

End NodeLinksProofs.

(** ** specifics.py: [conditional_properties] *)

Lemma dict_setitem_fresh {V} (items : list (string * V)) (k : string) (v : V) :
  k ∉ items.*1 → dict_setitem items k v = items ++ [(k, v)].
Proof.
  induction items as [|[k' v'] items IH]; simpl; [done|].
  intros [Hne Hnotin]%not_elem_of_cons. rewrite decide_False by done.
  by rewrite IH.
Qed.

Lemma filtered_items_from {V} (filtered properties : list (string * V))
    (filter_props : list string) :
  NoDup (filtered.*1 ++ properties.*1) →
  foldl (λ filtered kv, if decide (kv.1 ∈ filter_props) then filtered
                         else dict_setitem filtered kv.1 kv.2)
        filtered properties
  = filtered ++ filter (λ kv, kv.1 ∉ filter_props) properties.
Proof.
  revert filtered.
  induction properties as [|[k v] properties IH]; intros filtered Hnd; simpl.
  - by rewrite filter_nil, app_nil_r.
  - rewrite filter_cons. simpl in *.
    apply NoDup_app in Hnd as Hparts. destruct Hparts as (Hleft & Hdisj & Hright).
    apply NoDup_cons in Hright as [Hk Hright].
    case_decide as Hin.
    + rewrite decide_False by tauto. apply IH.
      apply NoDup_app. split; [done|]. split; [|done].
      intros x Hx Hx'. eapply Hdisj; [done|]. by right.
    + rewrite decide_True by done. rewrite dict_setitem_fresh.
      * rewrite IH; [by rewrite <- (assoc_L (++))|].
        rewrite fmap_app, <- (assoc_L (++)). done.
      * intros Hk'. eapply Hdisj; [done|]. by left.
Qed.

Lemma filtered_items_filter {V} (properties : list (string * V))
    (filter_props : list string) :
  NoDup properties.*1 →
  filtered_items properties filter_props
  = filter (λ kv, kv.1 ∉ filter_props) properties.
Proof. intros Hnd. unfold filtered_items. by rewrite filtered_items_from. Qed.

Lemma filter_names_nil {V} (properties : list (string * V)) :
  properties = filter (λ kv : string * V, kv.1 ∉ ([] : list string)) properties.
Proof.
  symmetry. induction properties as [|kv properties IH]; [done|].
  rewrite filter_cons, decide_True by set_solver. by rewrite IH.
Qed.

Lemma conditional_properties_filter (bpy_struct : BpyStruct) :
  ∃ dropped : list string,
    dropped ⊆ conditional_names
    ∧ ∀ V (properties : list (string * V)),
        NoDup properties.*1 →
        conditional_properties bpy_struct properties
        = filter (λ kv, kv.1 ∉ dropped) properties.
Proof.
  unfold conditional_properties, conditional_names.
  repeat match goal with
         | |- context [if ?b then _ else _] =>
             match type of b with bool => destruct b end
         end; simpl;
    try (exists []; split; [by intros x ?%elem_of_nil|]; intros V properties _;
         apply filter_names_nil);
    (eexists; split; [|intros V properties Hnd; by apply filtered_items_filter]);
    intros x; rewrite ?elem_of_cons, ?elem_of_nil; tauto.
Qed.

(** X16. Given properties with distinct names, [conditional_properties]
    returns them in their order less those whose name is in a set that the
    struct alone determines, and only the eight conditional names can be in
    this set: every other property is kept as it is. *)
Theorem conditional_properties_drops_conditional_names {V} (bpy_struct : BpyStruct)
    (properties : list (string * V)) :
  NoDup properties.*1 →
  ∃ dropped : list string,
    dropped ⊆ conditional_names
    ∧ conditional_properties bpy_struct properties
      = filter (λ kv, kv.1 ∉ dropped) properties
    ∧ sublist (conditional_properties bpy_struct properties) properties
    ∧ ∀ kv, kv ∈ properties → kv.1 ∉ conditional_names →
            kv ∈ conditional_properties bpy_struct properties.
Proof.
  intros Hnd.
  destruct (conditional_properties_filter bpy_struct) as (dropped & Hsub & Hfilter).
  exists dropped. rewrite (Hfilter V properties Hnd).
  split; [done|]. split; [done|]. split; [apply sublist_filter|].
  intros kv Hin Hname. apply list_elem_of_filter. split; [|done].
  intros Hdropped. apply Hname, Hsub, Hdropped.
Qed.

(** X17. On properties with distinct names [conditional_properties] is
    idempotent for a given struct. *)
Theorem conditional_properties_idempotent {V} (bpy_struct : BpyStruct)
    (properties : list (string * V)) :
  NoDup properties.*1 →
  conditional_properties bpy_struct (conditional_properties bpy_struct properties)
  = conditional_properties bpy_struct properties.
Proof.
  intros Hnd.
  destruct (conditional_properties_filter bpy_struct) as (dropped & _ & Hfilter).
  rewrite (Hfilter V properties Hnd).
  rewrite Hfilter.
  - rewrite list_filter_filter. apply list_filter_iff. tauto.
  - eapply sublist_NoDup; [done|]. apply fmap_sublist, sublist_filter.
Qed.

(** ** More of the collections, and misc_proxies.py *)

Section CollectionProofs.
Context {World : Type} `{!Host World} `{!CollectionHost World}.

Implicit Types (s : St World) (collection : Coll).

Ltac cunfold :=
  unfold setitem, logger, try_except, bind, ret, raise, gets, modify, host,
    host_read, context_read in *.

Lemma by_uuid_lookup (uuid_of : Datablock → string) (items : list Datablock)
    (by_uuid : gmap string (option Datablock)) (uuid : string) :
  foldl (λ m d, <[uuid_of d := Some d]> m) by_uuid items !! uuid
  = match last (filter (λ d, uuid_of d = uuid) items) with
    | Some d => Some (Some d)
    | None => by_uuid !! uuid
    end.
Proof.
  revert by_uuid. induction items as [|d items IH]; intros by_uuid; simpl; [done|].
  rewrite IH, filter_cons. case_decide as Hd.
  - rewrite last_cons. destruct (last _); [done|]. subst uuid.
    by rewrite lookup_insert_eq.
  - destruct (last _); [done|]. by rewrite lookup_insert_ne.
Qed.

Lemma datablocks_by_uuid_run collection (items : list Datablock) s :
  coll_iter (world s) collection = Some <$> items →
  datablocks_by_uuid collection s
  = (Ok (foldl (λ m d, <[db_mixer_uuid (world s) d := Some d]> m) ∅ items), s).
Proof.
  intros Hitems. unfold datablocks_by_uuid. unfold bind at 1, gets at 1.
  rewrite Hitems. clear Hitems.
  generalize (∅ : gmap string (option Datablock)) as by_uuid.
  induction items as [|d items IH]; intros by_uuid; simpl; [done|].
  cunfold. apply IH.
Qed.

(** X18. [reload_datablocks] puts every datablock of the collection under
    its identifier (the last one, when several have the same) and keeps every
    other entry of the dict, also the entries of datablocks that the
    collection no longer has; it changes nothing else, and a second reload
    gives the same dict. *)
Theorem reload_datablocks_overrides_live (_name : string)
    (datablocks : gmap string (option Datablock)) s collection
    (items : list Datablock) :
  bpy_data_collection _name (world s) = Ok collection →
  coll_iter (world s) collection = Some <$> items →
  ∃ reloaded,
    reload_datablocks _name datablocks s = (Ok reloaded, s)
    ∧ (∀ uuid, reloaded !! uuid
               = match last (filter (λ d, db_mixer_uuid (world s) d = uuid) items) with
                 | Some d => Some (Some d)
                 | None => datablocks !! uuid
                 end)
    ∧ reload_datablocks _name reloaded s = (Ok reloaded, s).
Proof.
  intros Hcollection Hitems.
  assert (∀ given, reload_datablocks _name given s
            = (Ok (foldl (λ m d, <[db_mixer_uuid (world s) d := Some d]> m) ∅ items
                   ∪ given), s)) as Hrun.
  { intros given. unfold reload_datablocks. unfold bind at 1, host_read at 1.
    rewrite Hcollection. unfold bind at 1.
    by rewrite (datablocks_by_uuid_run _ _ _ Hitems). }
  eexists. split; [apply Hrun|]. split.
  - intros uuid. rewrite lookup_union, by_uuid_lookup, lookup_empty.
    destruct (last _); [|by rewrite (left_id_L None _)].
    by destruct (datablocks !! uuid).
  - rewrite Hrun. f_equal. f_equal. apply map_eq. intros uuid.
    rewrite !lookup_union.
    by destruct (foldl _ _ _ !! uuid), (datablocks !! uuid).
Qed.

Lemma load_reference_run (key : string) (item : option Datablock) s s' :
  load_reference key tt item s = (Ok tt, s') →
  world s' = world s
  ∧ dom (ref_data s')
    = dom (ref_data s) ∪ list_to_set (db_mixer_uuid (world s) <$> option_list item).
Proof.
  unfold load_reference. cunfold. destruct item as [item|]; simpl.
  - destruct (ref_proxy_load s item _) as [proxy|e]; [|done].
    intros [= <-]. simpl. split; [done|]. rewrite dom_insert_L. set_solver.
  - intros [= <-]. simpl. split; [done|]. set_solver.
Qed.

Lemma load_loop_keys (key : string) (items : list (option Datablock)) s s' :
  for_each items tt (load_reference key) s = (Ok tt, s') →
  world s' = world s
  ∧ dom (ref_data s')
    = dom (ref_data s) ∪ list_to_set (db_mixer_uuid (world s) <$> omap id items).
Proof.
  revert s. induction items as [|item items IH]; intros s; simpl.
  - intros [= <-]. split; [done|]. set_solver.
  - unfold bind. destruct (load_reference key tt item s) as [[[]|e] s1] eqn:Hitem;
      [|done].
    intros Hrest. apply load_reference_run in Hitem as [Hw1 Hd1].
    apply IH in Hrest as [Hw Hd]. split; [congruence|].
    rewrite Hd, Hd1, Hw1. destruct item as [item|]; simpl; set_solver.
Qed.

Lemma load_loop_returns (key : string) (items : list (option Datablock))
    (w : World) s :
  world s = w →
  (∀ context item, Some item ∈ items → world context = w →
     ∃ proxy, ref_proxy_load context item (db_name w item) = Ok proxy) →
  ∃ s', for_each items tt (load_reference key) s = (Ok tt, s').
Proof.
  revert s. induction items as [|item items IH]; intros s Hw Hloads; simpl;
    [by eexists|].
  unfold bind.
  destruct (load_reference key tt item s) as [[[]|e] s1] eqn:Hitem.
  - apply load_reference_run in Hitem as [Hw1 _].
    apply IH; [congruence|]. intros context item' Hin Hcontext.
    apply Hloads; [by right|done].
  - exfalso. revert Hitem. unfold load_reference. cunfold.
    destruct item as [item|]; [|done]. rewrite Hw.
    destruct (Hloads s item) as [proxy Hproxy]; [by left|done|].
    by rewrite Hproxy.
Qed.

(** X19. When loading the references does not raise,
    [DatablockRefCollectionProxy.load] returns, leaves Blender alone and adds
    to the keys of the proxy the identifiers of the items of the collection
    that are not None.  It removes no key: the keys the proxy had are still
    there. *)
Theorem ref_collection_load_adds_keys (bl_collection : Coll) (key : string) s :
  (∀ context item,
     Some item ∈ coll_iter (world s) bl_collection →
     world context = world s →
     ∃ proxy, ref_proxy_load context item (db_name (world s) item) = Ok proxy) →
  ∃ s', DatablockRefCollectionProxy_load bl_collection key s = (Ok tt, s')
    ∧ world s' = world s
    ∧ dom (ref_data s')
      = dom (ref_data s)
        ∪ list_to_set (db_mixer_uuid (world s)
                         <$> omap id (coll_iter (world s) bl_collection))
    ∧ dom (ref_data s) ⊆ dom (ref_data s').
Proof.
  intros Hloads.
  assert (∃ s', DatablockRefCollectionProxy_load bl_collection key s = (Ok tt, s'))
    as [s' Hrun].
  { unfold DatablockRefCollectionProxy_load. unfold bind at 1, gets at 1.
    by apply (load_loop_returns key _ (world s)). }
  exists s'. split; [done|].
  revert Hrun. unfold DatablockRefCollectionProxy_load. unfold bind at 1, gets at 1.
  intros [Hw Hd]%load_loop_keys. split; [done|]. split; [done|].
  rewrite Hd. set_solver.
Qed.

(** X20. Load, then diff.  When iterating the collection gives the datablocks
    that [values()] lists, a [diff] right after a [load] that returned finds
    no addition; and if the proxy was empty before the load, it finds no
    deletion either, so all it can find are updates of members. *)
Theorem load_then_diff_has_no_addition (collection : Coll) (key : string) s s'
    (r : option (Delta (gmap string (Delta Value)))) (s'' : St World)
    (m : gmap string (Delta Value)) (k : string) (delta : Delta Value) :
  omap id (coll_iter (world s) collection) = coll_values (world s) collection →
  DatablockRefCollectionProxy_load collection key s = (Ok tt, s') →
  diff collection s' = (Ok r, s'') →
  r = Some (DeltaUpdate m) →
  m !! k = Some delta →
  is_addition delta = false
  ∧ (ref_data s = ∅ → is_update delta = true).
Proof.
  intros Hvalues Hload Hdiff -> Hk.
  revert Hload. unfold DatablockRefCollectionProxy_load. unfold bind at 1, gets at 1.
  intros [Hw Hd]%load_loop_keys. rewrite Hvalues in Hd.
  fold (live_ids (world s) collection) in Hd.
  destruct (diff_characterised collection s') as (_ & _ & Hsound).
  destruct (Hsound _ _ Hdiff) as (_ & m0 & Hr & _ & Hadd & Hdel & _).
  unfold diff_result in Hr. case_decide; [done|]. injection Hr as <-.
  rewrite Hw, Hd in Hadd, Hdel.
  assert (is_addition delta = false) as Hno_addition.
  { destruct delta as [v|v|v]; [|done..]. exfalso.
    assert (k ∈ live_ids (world s) collection
                ∖ (dom (ref_data s) ∪ live_ids (world s) collection)) as Hin
      by (apply Hadd; eauto).
    set_solver. }
  split; [done|]. intros Hempty.
  destruct delta as [v|v|v]; [done| |done]. exfalso.
  assert (k ∈ (dom (ref_data s) ∪ live_ids (world s) collection)
              ∖ live_ids (world s) collection) as Hin
    by (apply Hdel; eauto).
  rewrite Hempty, dom_empty_L in Hin. set_solver.
Qed.

(** X21. [NonePtrProxy.save] never raises AttributeError: it writes None
    to the attribute, and when Blender answers with AttributeError it logs
    two debug records and returns.  Every other outcome of the write is the
    outcome of [save]. *)
Theorem none_ptr_save_swallows_attribute_error (bl_instance : Parent)
    (attr_name : string) s :
  let written := struct_setattr bl_instance attr_name None (world s) in
  let swallowed :=
    match written.1 with Raise e => is_AttributeError e | Ok _ => false end in
  (NonePtrProxy_save bl_instance attr_name s).1 ≠ Raise AttributeError
  ∧ world (NonePtrProxy_save bl_instance attr_name s).2 = written.2
  ∧ (NonePtrProxy_save bl_instance attr_name s).1
    = (if swallowed then Ok tt else written.1)
  ∧ ∃ records,
      log (NonePtrProxy_save bl_instance attr_name s).2 = log s ++ records
      ∧ Forall (λ record, log_level record = DEBUG) records
      ∧ length records = (if swallowed then 2 else 0)%nat.
Proof.
  intros written swallowed. subst written swallowed.
  unfold NonePtrProxy_save, is_AttributeError. cunfold.
  destruct (struct_setattr bl_instance attr_name None (world s)) as [[[]|e] w]; simpl.
  - repeat split; try done. exists []. by rewrite app_nil_r.
  - case_bool_decide as He; simpl.
    + repeat split; try done.
      eexists [_; _]. rewrite <- (assoc_L (++)).
      split; [done|]. split; [by repeat constructor|done].
    + repeat split; try congruence. exists []. by rewrite app_nil_r.
Qed.

(** X22. [NonePtrProxy.apply] with a reference whose identifier the registry
    does not have writes None to the attribute, as [save] does, logs nothing,
    and returns the reference proxy all the same: the proxy then holds a
    reference where Blender holds None. *)
Theorem none_ptr_apply_unregistered_writes_none (parent : Parent) (key : string)
    (delta : Delta Value) (update : DatablockRefProxy) s (w' : World) :
  delta_value delta = VRefProxy update →
  py_get (datablocks s) (_datablock_uuid update) = None →
  struct_setattr parent key None (world s) = (Ok tt, w') →
  NonePtrProxy_apply parent key delta true s = (Ok (Some update), set_world w' s)
  ∧ NonePtrProxy_save parent key s = (Ok tt, set_world w' s)
  ∧ NonePtrProxy_apply parent key delta false s = (Ok (Some update), s).
Proof.
  intros Hupdate Hunregistered Hwrite.
  unfold NonePtrProxy_apply, NonePtrProxy_save. rewrite Hupdate. cunfold.
  by rewrite Hunregistered, Hwrite.
Qed.

End CollectionProofs.

(** ** specifics.py: [truncate_collection] *)

Section TruncateProofs.
Context {World : Type} `{!SequenceHost World} `{!Traceback World}.

Implicit Types (s : St World) (target : Coll).

Ltac tunfold :=
  unfold logger, try_except, bind, ret, raise, gets, modify, host in *.

Lemma pop_while_run target (rounds : nat) :
  (∀ w, (0 < target_len w target)%Z →
        ∃ w', target_pop target w = (Ok tt, w')
              ∧ target_len w' target = (target_len w target - 1)%Z) →
  ∀ (fuel : nat) s,
    (rounds < fuel)%nat →
    (Z.of_nat rounds ≤ target_len (world s) target)%Z →
    ∃ s', pop_while fuel target (- Z.of_nat rounds) s = (Ok (Some tt), s')
      ∧ target_len (world s') target = (target_len (world s) target - Z.of_nat rounds)%Z
      ∧ log s' = log s.
Proof.
  intros Hpop. induction rounds as [|rounds IH]; intros fuel s Hfuel Hlen.
  - destruct fuel as [|fuel]; [lia|]. cbn [pop_while].
    rewrite decide_False by lia. exists s. split; [done|]. split; [lia|done].
  - destruct fuel as [|fuel]; [lia|]. cbn [pop_while]. rewrite decide_True by lia.
    tunfold. destruct (Hpop (world s)) as (w' & -> & Hlen'); [lia|].
    destruct (IH fuel (set_world w' s)) as (s' & Hrun & Hlen'' & Hlog);
      [lia|simpl; lia|].
    replace (- Z.of_nat (S rounds) + 1)%Z with (- Z.of_nat rounds)%Z by lia.
    exists s'. split; [done|]. simpl in Hlen''. split; [lia|done].
Qed.

(** X23. On a collection of stroke points, when [add] lengthens the
    collection by what it is given and [pop] shortens a collection that is
    not empty by one, [truncate_collection] returns once the fuel exceeds the
    number of points to drop, and the collection then has the incoming
    length. *)
Theorem truncate_stroke_points_reaches_length (fuel : nat) target
    (incoming_length : Z) (incoming_keys : gset string) s :
  has_bl_rna (world s) target = true →
  rna_always_clear (world s) target = false →
  rna_resize_geometry (world s) target = false →
  rna_stroke_points (world s) target = true →
  (∀ w n, (0 < n)%Z →
          ∃ w', target_add target n w = (Ok tt, w')
                ∧ target_len w' target = (target_len w target + n)%Z) →
  (∀ w, (0 < target_len w target)%Z →
        ∃ w', target_pop target w = (Ok tt, w')
              ∧ target_len w' target = (target_len w target - 1)%Z) →
  (0 ≤ incoming_length)%Z →
  (Z.to_nat (target_len (world s) target - incoming_length) < fuel)%nat →
  ∃ s', truncate_collection fuel target incoming_length incoming_keys s
        = (Ok (Some tt), s')
    ∧ target_len (world s') target = incoming_length
    ∧ log s' = log s.
Proof.
  intros Hrna Hclear Hresize Hstroke Hadd Hpop Hincoming Hfuel.
  unfold truncate_collection. unfold bind at 1, gets at 1. rewrite Hrna. simpl.
  unfold bind at 1, gets at 1. rewrite Hclear.
  unfold bind at 1, gets at 1. rewrite Hresize.
  unfold bind at 1, gets at 1. rewrite Hstroke.
  unfold bind at 1, gets at 1.
  case_decide as Hdelta.
  - tunfold. destruct (Hadd (world s) (incoming_length - target_len (world s) target)%Z)
      as (w' & -> & Hlen); [lia|].
    eexists. split; [done|]. simpl. split; [lia|done].
  - destruct (pop_while_run target
                (Z.to_nat (target_len (world s) target - incoming_length)) Hpop fuel s)
      as (s' & Hrun & Hlen & Hlog); [done|lia|].
    replace (- Z.of_nat (Z.to_nat (target_len (world s) target - incoming_length)))%Z
      with (incoming_length - target_len (world s) target)%Z in Hrun by lia.
    exists s'. split; [done|]. split; [lia|done].
Qed.

(** X24. On a collection without [bl_rna] [truncate_collection] does
    nothing.  On a collection of no special kind it never raises, with any
    fuel: when removing one of the surplus keys raises, the exception is
    caught, and a warning is logged followed by one warning for each line of
    the traceback of this exception; nothing is logged otherwise. *)
Theorem truncate_generic_never_raises (fuel : nat) target (incoming_length : Z)
    (incoming_keys : gset string) s :
  has_bl_rna (world s) target = false
  ∨ (rna_always_clear (world s) target = false
     ∧ rna_resize_geometry (world s) target = false
     ∧ rna_stroke_points (world s) target = false
     ∧ rna_keying_sets (world s) target = false) →
  ∃ s' records,
    truncate_collection fuel target incoming_length incoming_keys s = (Ok (Some tt), s')
    ∧ log s' = log s ++ records
    ∧ (records = []
       ∨ ∃ e raised k w w',
           records
           = mkLog WARNING "Not implemented truncate_collection for type  for  ..." []
             :: ((λ line, mkLog WARNING ("..." +:+ line) []) <$> format_exc raised e)
           ∧ k ∈ target_keys (world s) target ∖ incoming_keys
           ∧ target_remove_key target k w = (Raise e, w')
           ∧ log raised
             = log s ++ [mkLog WARNING
                           "Not implemented truncate_collection for type  for  ..." []])
    ∧ (has_bl_rna (world s) target = false → s' = s).
Proof.
  intros Hkind. unfold truncate_collection. unfold bind at 1, gets at 1.
  destruct (has_bl_rna (world s) target) eqn:Hrna; simpl.
  2:{ exists s, []. rewrite app_nil_r. repeat split; try done. by left. }
  destruct Hkind as [|(Hclear & Hresize & Hstroke & Hkeying)]; [done|].
  unfold bind at 1, gets at 1. rewrite Hclear.
  unfold bind at 1, gets at 1. rewrite Hresize.
  unfold bind at 1, gets at 1. rewrite Hstroke.
  unfold bind at 1, gets at 1.
  case_decide as Hkeys.
  { exists s, []. rewrite app_nil_r. repeat split; try done. by left. }
  unfold bind at 1, gets at 1. rewrite Hkeying.
  assert (∀ keys s0, ∃ r s1,
            for_each keys tt (λ _ k, host (target_remove_key target k)) s0 = (r, s1)
            ∧ log s1 = log s0
            ∧ ∀ e, r = Raise e →
                ∃ k w w', k ∈ keys ∧ target_remove_key target k w = (Raise e, w'))
    as Hloop.
  { induction keys as [|k keys IH]; intros s0; simpl.
    - eexists _, _. split; [done|]. split; [done|]. intros e. unfold ret. by intros [=].
    - tunfold. destruct (target_remove_key target k (world s0)) as [[[]|e] w'] eqn:Hk.
      + destruct (IH (set_world w' s0)) as (r & s1 & -> & Hlog & Hraised).
        eexists _, _. split; [done|]. split; [done|]. intros e He.
        destruct (Hraised e He) as (k' & w & w'' & Hin & Hk').
        exists k', w, w''. split; [by right|done].
      + eexists _, _. split; [done|]. split; [done|]. intros e' [= <-].
        exists k, (world s0), w'. split; [by left|done]. }
  destruct (Hloop (elements (target_keys (world s) target ∖ incoming_keys)) s)
    as (r & s1 & Hrun & Hlog & Hraised).
  unfold bind, try_except. rewrite Hrun. destruct r as [[]|e]; simpl.
  - exists s1, []. rewrite app_nil_r. repeat split; try done. by left.
  - rewrite log_traceback_run. unfold ret.
    eexists _, (_ :: _). split; [done|]. simpl.
    rewrite Hlog, <- (assoc_L (++)). split; [done|]. split; [|done].
    right. destruct (Hraised e eq_refl) as (k & w & w' & Hin & Hk).
    eexists e, _, k, w, w'. split; [done|]. split; [by apply elem_of_elements|].
    split; done.
Qed.


End TruncateProofs.

(** * The properties on the small Blender *)

Section SampleRuns.
Import Sample.
Open Scope N_scope.

Ltac by_evaluation := vm_compute; reflexivity.


(** C2 as stated fails on the sample scene: the live collection has one new
    member (Cone) and lacks one member of the proxy (Light); the delta has two
    entries, but applied to an empty proxy it leaves the key of Cone only,
    while the live collection has Cube and Cone.  With the stale reference
    under the key of Cube, the delta has a third entry, the update of Cube. *)
Lemma diff_apply_round_trip_counterexample :
  let P := ref_data s0 in
  let live := live_ids w0 100 in
  let applied to_blender :=
    apply 0 "objects"
      (Some (DeltaUpdate (URefCollection (map_to_list (MDelta <$> delta0)))))
      to_blender (set_ref_data ∅ s0) in
  (size (live ∖ dom P) = 1%nat
   ∧ size (dom P ∖ live) = 1%nat
   ∧ diff 100 s0 = (Ok (Some (DeltaUpdate delta0)), s0)
   ∧ size delta0 = 2%nat
   ∧ (applied true).1 = Ok tt
   ∧ (applied false).1 = Ok tt
   ∧ elements live = ["u-cone"; "u-cube"]
   ∧ elements (dom (ref_data (applied true).2)) = ["u-cone"]
   ∧ elements (dom (ref_data (applied false).2)) = ["u-cone"]
   ∧ dom (ref_data (applied true).2) ≠ live
   ∧ dom (ref_data (applied false).2) ≠ live)
  ∧ (size (live_ids (world s_stale) 100 ∖ dom (ref_data s_stale)) = 1%nat
     ∧ size (dom (ref_data s_stale) ∖ live_ids (world s_stale) 100) = 1%nat
     ∧ diff 100 s_stale = (Ok (Some (DeltaUpdate delta_stale)), s_stale)
     ∧ size delta_stale = 3%nat).
Proof.
  intros P live applied. split.
  - do 9 (split; [by_evaluation|]).
    split; intros Heq; apply (f_equal elements) in Heq; revert Heq; by vm_compute.
  - repeat split; by_evaluation.
Qed.

(** The amended C2 on the sample scene: the delta adds Cone and deletes
    Light.  On a receiving side that has Cone in its registry, applied with
    [to_blender] to an empty proxy of another collection, it links Cone and
    leaves the key of Cone; applied to an empty proxy of the collection that
    has Cone already, the link raises and the proxy stays empty. *)
Lemma diff_then_apply_to_empty_witness :
  let receiver :=
    set_ref_data ∅ (set_datablocks (<["u-cone" := Some 12]> (datablocks s0)) s0) in
  let items :=
    [("u-light", MDelta (DeltaDeletion (VRefProxy (mkRef "u-light" "Light"))));
     ("u-cone", MDelta (DeltaAddition (VRefProxy (mkRef "u-cone" "ref"))))] in
  diff 100 s0 = (Ok (Some (DeltaUpdate delta0)), s0)
  ∧ live_ids w0 100 ∖ dom (ref_data s0) = {["u-cone"]}
  ∧ (∃ s', apply 1 "objects" (Some (DeltaUpdate (URefCollection items))) true receiver
           = (Ok tt, s')
       ∧ dom (ref_data s') = live_ids w0 100 ∖ dom (ref_data s0)
       ∧ coll_values (world s') 101 = [12])
  ∧ (∃ s', apply 0 "objects" (Some (DeltaUpdate (URefCollection items))) true receiver
           = (Ok tt, s')
       ∧ ref_data s' = ∅).
Proof.
  intros receiver items.
  assert (diff 100 s0 = (Ok (Some (DeltaUpdate delta0)), s0)) as Hdiff by by_evaluation.
  destruct (diff_then_apply_to_empty 100 s0 (Some (DeltaUpdate delta0)))
    as (m & a & b & value & old & Hr & Ha & Hb & Hma & Hmb & _ & _ & Happly).
  - by_evaluation.
  - by_evaluation.
  - exact Hdiff.
  - injection Hr as <-.
    assert (a = "u-cone") as ->.
    { assert ("u-cone" ∈ live_ids (world s0) 100 ∖ dom (ref_data s0)) as Hin
        by (apply (bool_decide_unpack _); by_evaluation).
      rewrite Ha in Hin. by apply elem_of_singleton in Hin. }
    assert (value = VRefProxy (mkRef "u-cone" "ref")) as ->.
    { vm_compute in Hma. congruence. }
    assert (items ≡ₚ map_to_list (MDelta <$> delta0)) as Hitems.
    { assert (map_to_list (MDelta <$> delta0)
              = [("u-cone", MDelta (DeltaAddition (VRefProxy (mkRef "u-cone" "ref"))));
                 ("u-light", MDelta (DeltaDeletion (VRefProxy (mkRef "u-light" "Light"))))])
        as -> by by_evaluation.
      apply perm_swap. }
    split; [exact Hdiff|]. split; [exact Ha|]. split.
    + set (before := [("u-light",
                       MDelta (DeltaDeletion (VRefProxy (mkRef "u-light" "Light"))))]).
      destruct (Happly 1 "objects" true 101 before [] receiver
                  (for_each before tt (apply_member 101 true) receiver).2
                  (mkRef "u-cone" "ref"))
        as (s' & Hrun & Hlinked & _).
      * exact Hitems.
      * reflexivity.
      * reflexivity.
      * reflexivity.
      * by_evaluation.
      * destruct Hlinked as [Hdom _].
        { intros _ datablock Hregistered. vm_compute in Hregistered.
          injection Hregistered as <-. by_evaluation. }
        exists s'. split; [exact Hrun|]. split; [exact Hdom|].
        pose proof (f_equal snd Hrun) as Hstate. cbn [snd] in Hstate.
        rewrite <- Hstate. by_evaluation.
    + set (before := [("u-light",
                       MDelta (DeltaDeletion (VRefProxy (mkRef "u-light" "Light"))))]).
      destruct (Happly 0 "objects" true 100 before [] receiver
                  (for_each before tt (apply_member 100 true) receiver).2
                  (mkRef "u-cone" "ref"))
        as (s' & Hrun & _ & Hraises).
      * exact Hitems.
      * reflexivity.
      * reflexivity.
      * reflexivity.
      * by_evaluation.
      * exists s'. split; [exact Hrun|].
        apply (Hraises 12 RuntimeError
                 (world (for_each before tt (apply_member 100 true) receiver).2)).
        -- reflexivity.
        -- by_evaluation.
        -- by_evaluation.
Defined.

(** C3 on the sample scene: the diff lists Plane, Deep, Cone; they are
    processed as Cone, Deep, Plane, and listing them in another order changes
    nothing.  Cone and Plane are loaded and Deep is not: the creations are
    the proxy of Cone and then the proxy of Plane. *)
Lemma update_order_witness :
  let diff := mkDiff [("Plane", "objects"); ("Deep", "objects"); ("Cone", "objects")]
                     [2] [(0, "Box")] in
  let diff' := mkDiff [("Deep", "objects"); ("Plane", "objects"); ("Cone", "objects")]
                      [2] [(0, "Box")] in
  sorted (dict_keys (items_added diff)) = ["Cone"; "Deep"; "Plane"]
  ∧ update diff' s0 = update diff s0
  ∧ (∃ changeset s',
       update diff s0 = (Ok changeset, s')
       ∧ (λ r, r.1.1) <$> removals changeset = ["u-gone"]
       ∧ (λ r, (r.1.1.1, r.1.2)) <$> renames changeset = [("u-cube", "Box")])
  ∧ ∃ changeset1 s1,
      update_additions diff Changeset_new s0 = (Ok changeset1, s1)
      ∧ creations changeset1 = [6; 7]
      ∧ heap s1 7 = mkProxy "u-plane" "objects" {["name" := PStr "Plane"]}
      ∧ proxies s1 !! "u-plane" = Some 7.
Proof.
  intros diff diff'.
  destruct (update_order diff s0) as (_ & _ & _ & Hperm & Horder & Hplaces).
  split; [by_evaluation|]. split; [|split].
  - apply Hperm.
    + apply Permutation_swap.
    + apply (bool_decide_unpack _). by_evaluation.
    + reflexivity.
    + reflexivity.
  - destruct (update diff s0) as [[changeset|e] s'] eqn:Hupdate.
    + exists changeset, s'. split; [reflexivity|].
      destruct (Horder changeset s' eq_refl) as (_ & -> & ->).
      assert (heap s' = heap (update diff s0).2) as -> by by rewrite Hupdate.
      split; by_evaluation.
    + exfalso. revert Hupdate. vm_compute. discriminate.
  - destruct (Hplaces ["Cone"; "Deep"] "Plane" [])
      as (cs_b & s_b & cs_n & s_n & cs1 & s1 & later
          & Hbefore & Hname & Hafter & Hall & _ & _ & Hloaded).
    { by_evaluation. }
    set (run := for_each ["Cone"; "Deep"] Changeset_new
                  (update_addition (items_added diff)) s0) in *.
    assert (s_b = run.2) as -> by by rewrite Hbefore.
    assert (Ok cs_b = run.1) as Hcs_b by by rewrite Hbefore.
    vm_compute in Hcs_b. injection Hcs_b as ->.
    injection Hafter as <- <-.
    destruct (Hloaded "objects" 1 15 "u-plane" w0
                (mkProxy "u-plane" "objects" {["name" := PStr "Plane"]}) w0)
      as (Hcreations & Hheap & Hproxy & _).
    + reflexivity.
    + by_evaluation.
    + by_evaluation.
    + by_evaluation.
    + by_evaluation.
    + exists cs_n, s_n. split; [exact Hall|].
      split; [rewrite Hcreations; by_evaluation|].
      split; [|exact Hproxy].
      rewrite <- Hheap. f_equal.
Defined.

(** C4 on the sample scene: Cube is already linked, so linking it raises; the
    addition of Plane after it is processed. *)
Lemma apply_isolates_member_failures_witness :
  let cube_again := MDelta (DeltaAddition (VRefProxy (mkRef "u-cube" "Cube"))) in
  let plane := MDelta (DeltaAddition (VRefProxy (mkRef "u-plane" "Plane"))) in
  let batch := DeltaUpdate (URefCollection [("u-cube", cube_again); ("u-plane", plane)]) in
  apply_member_try 100 true "u-cube" cube_again s0 = (Raise RuntimeError, s0)
  ∧ ∃ s2 s',
      apply_member 100 true tt ("u-cube", cube_again) s0 = (Ok tt, s2)
      ∧ log s2 = apply_warnings "u-cube"
      ∧ for_each [("u-plane", plane)] tt (apply_member 100 true) s2 = (Ok tt, s')
      ∧ apply 0 "objects" (Some batch) true s0 = (Ok tt, s').
Proof.
  intros cube_again plane batch.
  assert (apply_member_try 100 true "u-cube" cube_again s0 = (Raise RuntimeError, s0))
    as Htry by by_evaluation.
  split; [exact Htry|].
  destruct (apply_isolates_member_failures 0 "objects" batch true 100
              [] [("u-plane", plane)] "u-cube" cube_again s0)
    as (s1 & s' & Hbefore & Happly & Hfail).
  - reflexivity.
  - reflexivity.
  - injection Hbefore as <-.
    destruct (Hfail RuntimeError s0 Htry) as (s2 & Hmember & _ & Hlog & Hafter).
    exists s2, s'. by repeat split.
Defined.

(** C5 on the sample scene: the light behind handle 13 is gone. *)
Lemma remove_datablock_dangling_reference_witness :
  ∃ s2, remove_datablock 2 13 s0 = (Ok tt, s2)
    ∧ self_data s2 = delete "u-gone" (self_data s0)
    ∧ self_data s2 !! "u-gone" = None.
Proof.
  destruct (remove_datablock_dangling_reference 2 13 s0
              (logged INFO "Perform removal for %s" [] s0))
    as (s2 & Hrun & Hdel & Hnone & _).
  - by eexists.
  - by_evaluation.
  - exists s2. by repeat split.
Defined.

(** C6 on the sample scene: no proxy is registered for the identifier of the
    incoming proxy 3; the update of the light makes another datablock. *)
Lemma update_datablock_fail_soft_or_delegate_witness :
  (∃ l msg args, update_datablock (DeltaUpdate 3) s0 = (Ok None, logged l msg args s0))
  ∧ ∃ s2, update_datablock (DeltaUpdate 1) s0 = (Ok (Some 21), s2)
      ∧ datablocks s2 = <["u-light" := Some 21]> (datablocks s0).
Proof.
  split.
  - destruct (update_datablock_fail_soft_or_delegate (DeltaUpdate 3) s0)
      as [Hsoft _].
    destruct Hsoft as (l & msg & args & _ & _ & Hrun).
    + left. by_evaluation.
    + by exists l, msg, args.
  - destruct (update_datablock_fail_soft_or_delegate (DeltaUpdate 1) s0)
      as [_ Hdelegate].
    specialize (Hdelegate 1 11 eq_refl eq_refl eq_refl).
    change (update_standalone_datablock 1 11 (DeltaUpdate 1) s0)
      with (@Ok (option Datablock) (Some 21), s0) in Hdelegate.
    destruct Hdelegate as (s2 & Hrun & _ & Hmorph).
    destruct Hmorph as [Hd _]; [done|].
    exists s2. by split.
Defined.

(** C7 on the sample scene: a material proxy without a name cannot be
    constructed; the material Mat can, and the reference collection that was
    waiting for its identifier gets it. *)
Lemma create_datablock_registers_iff_constructed_witness :
  (create_datablock 4 s0).1 = Ok (None, None)
  ∧ same_tables s0 (create_datablock 4 s0).2
  ∧ ∃ renames s',
      create_datablock 3 s0 = (Ok (Some 1005, renames), s')
      ∧ self_data s' !! "u-new" = Some 3
      ∧ datablocks s' !! "u-new" = Some (Some 1005)
      ∧ proxies s' !! "u-new" = Some 3
      ∧ unresolved_refs s' !! "u-new" = None
      ∧ (100, 1005) ∈ members (world s').
Proof.
  split; [|split].
  - destruct (create_datablock_registers_iff_constructed 4 s0) as [Hfail _].
    destruct (Hfail (bpy_data_ctor "materials" 4 s0).2) as (r & s2 & Hrun & _ & _ & Hr).
    + by_evaluation.
    + rewrite Hrun. apply Hr. done.
  - destruct (create_datablock_registers_iff_constructed 4 s0) as [Hfail _].
    destruct (Hfail (bpy_data_ctor "materials" 4 s0).2) as (r & s2 & Hrun & Hsame & _).
    + by_evaluation.
    + by rewrite Hrun.
  - destruct (create_datablock_registers_iff_constructed 3 s0) as [_ Hok].
    pose (s1 := (bpy_data_ctor "materials" 3 s0).2).
    pose (s3 := (run_deferred [100] 1005 (registered "u-new" 3 1005 s1)).2).
    destruct (Hok 1005 s1 s1 s3) as (renames & s' & Hrun & Hs & Hd & Hp & _ & Hu & Hw & _).
    + by_evaluation.
    + by_evaluation.
    + by_evaluation.
    + exists renames, s'. split; [exact Hrun|].
      rewrite Hs, Hd, Hp, Hw.
      split; [by_evaluation|]. split; [by_evaluation|]. split; [by_evaluation|].
      split; [exact Hu|]. apply (bool_decide_unpack _). by_evaluation.
Defined.

(** C8 on the sample scene: loading Deep exceeds the nesting depth; Cone
    before it and Plane after it are created. *)
Lemma update_additions_isolate_failures_witness :
  let diff := mkDiff [("Plane", "objects"); ("Deep", "objects"); ("Cone", "objects")]
                     [] [] in
  ∃ changeset0 s0' s2 changeset s',
    for_each ["Cone"] Changeset_new (update_addition (items_added diff)) s0
      = (Ok changeset0, s0')
    ∧ update_addition (items_added diff) changeset0 "Deep" s0' = (Ok changeset0, s2)
    ∧ log_since s0' s2
      = mkLog INFO "Perform update/creation for %s[%s]" ["objects"; "Deep"]
        :: max_depth_records
    ∧ update_additions diff Changeset_new s0 = (Ok changeset, s')
    ∧ creations changeset = [6; 7]
    ∧ data (heap s' 6) "name" = PStr "Cone"
    ∧ data (heap s' 7) "name" = PStr "Plane".
Proof.
  intros diff.
  destruct (update_additions_isolate_failures diff ["Cone"] ["Plane"] "Deep" s0)
    as (cn & cs0 & st0 & cs' & s' & Hcn & Hbefore & Hall & Hfail).
  - by_evaluation.
  - assert (cn = "objects") as -> by (vm_compute in Hcn; congruence).
    set (run := for_each ["Cone"] Changeset_new (update_addition (items_added diff)) s0)
      in *.
    assert (st0 = run.2) as -> by by rewrite Hbefore.
    assert (Ok cs0 = run.1) as Hcs0 by by rewrite Hbefore.
    vm_compute in Hcs0. injection Hcs0 as ->.
    set (try := update_addition_try (mkChangeset [6] [] []) "objects" "Deep"
                  (logged INFO "Perform update/creation for %s[%s]"
                          ["objects"; "Deep"] run.2)).
    destruct (Hfail MaxDepthExceeded try.2) as (s2 & records & Hstep & Hs2 & _ & _ & Hmax & _).
    { by_evaluation. }
    rewrite (Hmax eq_refl) in Hs2.
    exists (mkChangeset [6] [] []), run.2, s2, cs', s'.
    split; [exact Hbefore|]. split; [exact Hstep|]. split; [rewrite Hs2; by_evaluation|].
    split; [exact Hall|].
    assert (Ok cs' = (update_additions diff Changeset_new s0).1) as Hcs
      by by rewrite Hall.
    assert (s' = (update_additions diff Changeset_new s0).2) as -> by by rewrite Hall.
    vm_compute in Hcs. injection Hcs as ->.
    repeat split; by_evaluation.
Defined.

(** C9 on the sample scene: Blender has renamed Cube into Box. *)
Lemma update_single_rename_witness :
  ∃ s', update (mkDiff [] [] [(0, "Box")]) s0
        = (Ok (mkChangeset [] [] [("u-cube", PStr "Cube", "Box", "DatablockProxy u-cube")]),
           s')
    ∧ data (heap s' 0) "name" = PStr "Box"
    ∧ mixer_uuid (heap s' 0) = "u-cube".
Proof.
  destruct (update_single_rename 0 "Cube" "Box" 1 10 (Some 10) s0)
    as [(s' & Hrun & Hname & Huuid & _) _].
  - by_evaluation.
  - by_evaluation.
  - by_evaluation.
  - by_evaluation.
  - exists s'. by repeat split.
Defined.

(** C10 on the sample scene: no datablock is registered for Cone. *)
Lemma apply_addition_unregistered_recorded_witness :
  let cone := mkRef "u-cone" "ref" in
  let batch :=
    DeltaUpdate (URefCollection
      [("u-cone", MDelta (DeltaAddition (VRefProxy cone)));
       ("u-light", MDelta (DeltaDeletion (VRefProxy (mkRef "u-light" "Light"))))]) in
  ∃ s', apply 0 "objects" (Some batch) true (set_ref_data ∅ s0) = (Ok tt, s')
    ∧ ref_data s' !! "u-cone" = Some cone
    ∧ coll_values (world s') 100 = [10; 12].
Proof.
  intros cone batch.
  destruct (apply_addition_unregistered_recorded 0 "objects" batch 100 []
              [("u-light", MDelta (DeltaDeletion (VRefProxy (mkRef "u-light" "Light"))))]
              "u-cone" cone (set_ref_data ∅ s0))
    as (s1 & s' & _ & _ & Hrun & Hk & _).
  - reflexivity.
  - reflexivity.
  - by_evaluation.
  - apply (bool_decide_unpack _). by_evaluation.
  - exists s'. split; [exact Hrun|]. split; [exact Hk|].
    assert (s' = (apply 0 "objects" (Some batch) true (set_ref_data ∅ s0)).2) as ->
      by by rewrite Hrun.
    by_evaluation.
Defined.

(** ** More of the code on the small Blender *)

Import SampleCollections.

(** X16 on an object with data: the instance collection is left out. *)
Lemma conditional_properties_drops_conditional_names_witness :
  ∃ dropped : list string,
    dropped ⊆ conditional_names
    ∧ conditional_properties object_with_data object_properties
      = filter (λ kv, kv.1 ∉ dropped) object_properties
    ∧ sublist (conditional_properties object_with_data object_properties)
              object_properties
    ∧ ∀ kv, kv ∈ object_properties → kv.1 ∉ conditional_names →
            kv ∈ conditional_properties object_with_data object_properties.
Proof.
  apply (conditional_properties_drops_conditional_names object_with_data
           object_properties).
  apply (bool_decide_unpack _). by_evaluation.
Defined.

(** X17 on the same object. *)
Lemma conditional_properties_idempotent_witness :
  conditional_properties object_with_data
    (conditional_properties object_with_data object_properties)
  = conditional_properties object_with_data object_properties.
Proof.
  apply (conditional_properties_idempotent object_with_data object_properties).
  apply (bool_decide_unpack _). by_evaluation.
Defined.

(** X2 on the sample scene: Plane is added and the proxy of Light removed. *)
Lemma update_without_renames_returns_witness :
  ∃ changeset s',
    update diff_plane s0 = (Ok changeset, s')
    ∧ renames changeset = []
    ∧ (λ r, r.1.1) <$> removals changeset
      = (λ p, mixer_uuid (heap s' p)) <$> items_removed diff_plane.
Proof. apply (update_without_renames_returns diff_plane s0). reflexivity. Defined.

(** X3 on the sample scene: the objects have nothing named Nowhere. *)
Lemma update_failed_rename_raises_witness :
  update (mkDiff [] [] [(0, "Nowhere")]) s0 = (Raise KeyError, s0).
Proof.
  apply (update_failed_rename_raises (mkDiff [] [] [(0, "Nowhere")]) s0 s0 s0
           Changeset_new Changeset_new 0 "Nowhere" [] 1).
  - reflexivity.
  - reflexivity.
  - reflexivity.
  - by_evaluation.
  - left. by_evaluation.
Defined.

(** X4 on the sample scene: loading Deep exceeds the nesting depth. *)
Lemma update_addition_failed_load_keeps_datablock_witness :
  ∃ s', update_addition [("Deep", "objects")] Changeset_new "Deep" s0
        = (Ok Changeset_new, s')
    ∧ datablocks s' = <["u-deep" := Some 14]> (datablocks s0)
    ∧ proxies s' = proxies s0
    ∧ self_data s' = self_data s0
    ∧ heap s' = heap s0 ∧ next_ref s' = next_ref s0
    ∧ world s' = w0.
Proof.
  apply (update_addition_failed_load_keeps_datablock [("Deep", "objects")]
           Changeset_new "Deep" "objects" s0 1 14 "u-deep" w0 w0 MaxDepthExceeded).
  - reflexivity.
  - reflexivity.
  - by_evaluation.
  - by_evaluation.
  - by_evaluation.
Defined.

(** X5 on the sample scene: Plane is loaded. *)
Lemma update_addition_registers_loaded_proxy_witness :
  let loaded := mkProxy "u-plane" "objects" {["name" := PStr "Plane"]} in
  ∃ s', update_addition [("Plane", "objects")] Changeset_new "Plane" s0
        = (Ok (add_creation 6 Changeset_new), s')
    ∧ datablocks s' = <["u-plane" := Some 15]> (datablocks s0)
    ∧ proxies s' = <["u-plane" := 6]> (proxies s0)
    ∧ self_data s' = <["u-plane" := 6]> (self_data s0)
    ∧ heap s' = <[6 := loaded]> (heap s0)
    ∧ next_ref s' = 7
    ∧ world s' = w0
    ∧ log s' = log s0 ++ [creation_record [("Plane", "objects")] "Plane"].
Proof.
  intros loaded.
  apply (update_addition_registers_loaded_proxy [("Plane", "objects")]
           Changeset_new "Plane" "objects" s0 1 15 "u-plane" w0 w0 loaded).
  - reflexivity.
  - reflexivity.
  - by_evaluation.
  - by_evaluation.
  - by_evaluation.
Defined.

(** X7 on the sample scene: after the delta is applied to the proxy that made
    it, the keys of the proxy are those of Cube and Cone. *)
Lemma diff_then_apply_offline_converges_witness :
  ∃ s', apply 0 "objects"
          (Some (DeltaUpdate (URefCollection (map_to_list (MDelta <$> delta0)))))
          false s0
        = (Ok tt, s')
    ∧ dom (ref_data s') = live_ids w0 100
    ∧ world s' = w0.
Proof.
  pose proof (diff_then_apply_offline_converges 100 s0 (Some (DeltaUpdate delta0)))
    as Hconverges.
  destruct (Hconverges ltac:(by_evaluation) 0 "objects" 100
              (map_to_list (MDelta <$> delta0))) as (s' & Happly & Hdom & Hworld & _).
  - reflexivity.
  - intros k value Hk. simpl in Hk. unfold delta0 in Hk.
    destruct (decide (k = "u-cone")) as [Hcone | Hcone].
    + subst k. rewrite lookup_insert_eq in Hk. injection Hk as <-. by eexists.
    + rewrite lookup_insert_ne in Hk by done.
      destruct (decide (k = "u-light")) as [Hlight | Hlight].
      * subst k. rewrite lookup_singleton_eq in Hk. discriminate Hk.
      * rewrite lookup_singleton_ne in Hk by done. discriminate Hk.
  - reflexivity.
  - exists s'. split; [exact Happly|]. split; [exact Hdom|exact Hworld].
Defined.

(** X9 on the sample scene, where no image can be loaded. *)
Lemma bpy_data_ctor_none_is_logged_witness :
  let s' := logged WARNING "..." [] (logged WARNING "Cannot load image original" [] s0) in
  bpy_data_ctor "images" 3 s0 = (Ok None, s')
  ∧ (∃ record1 record2,
       log s' = log s0 ++ [record1; record2]
       ∧ log_level record1 = WARNING
       ∧ log_level record2 = log_level record1)
  ∧ heap s' = heap s0.
Proof.
  intros s'.
  assert (bpy_data_ctor "images" 3 s0 = (Ok None, s')) as Hrun by by_evaluation.
  destruct (bpy_data_ctor_none_is_logged "images" 3 s0 s' Hrun)
    as (_ & Hlog & Hheap & _).
  split; [exact Hrun|]. split; [exact Hlog|exact Hheap].
Defined.

(** X18 on the objects of the sample scene: the registry gains Cone, Deep and
    Plane and keeps the light that is gone. *)
Lemma reload_datablocks_overrides_live_witness :
  ∃ reloaded,
    reload_datablocks "objects" (datablocks s0) s0 = (Ok reloaded, s0)
    ∧ (∀ uuid, reloaded !! uuid
               = match last (filter (λ d, db_mixer_uuid w0 d = uuid) [10; 11; 12; 14; 15]) with
                 | Some d => Some (Some d)
                 | None => datablocks s0 !! uuid
                 end)
    ∧ reload_datablocks "objects" reloaded s0 = (Ok reloaded, s0).
Proof.
  apply (reload_datablocks_overrides_live "objects" (datablocks s0) s0 1
           [10; 11; 12; 14; 15]).
  - reflexivity.
  - by_evaluation.
Defined.

(** X19 on the reference collection of the sample scene. *)
Lemma ref_collection_load_adds_keys_witness :
  ∃ s', DatablockRefCollectionProxy_load 100 "objects" s0 = (Ok tt, s')
    ∧ world s' = w0
    ∧ dom (ref_data s')
      = dom (ref_data s0)
        ∪ list_to_set (db_mixer_uuid w0 <$> omap id (coll_iter w0 100))
    ∧ dom (ref_data s0) ⊆ dom (ref_data s').
Proof.
  apply (ref_collection_load_adds_keys 100 "objects" s0).
  intros context item _ _. eexists. reflexivity.
Defined.

(** X20 on the sample scene: after the load the proxy still has Light, which
    the live collection lacks, so the diff has its deletion and no
    addition. *)
Lemma load_then_diff_has_no_addition_witness :
  let s' := (DatablockRefCollectionProxy_load 100 "objects" s0).2 in
  let delta := DeltaDeletion (VRefProxy (mkRef "u-light" "Light")) in
  diff 100 s' = (Ok (Some (DeltaUpdate {["u-light" := delta]})), s')
  ∧ is_addition delta = false
  ∧ (ref_data s0 = ∅ → is_update delta = true).
Proof.
  intros s' delta.
  assert (diff 100 s' = (Ok (Some (DeltaUpdate {["u-light" := delta]})), s')) as Hdiff
    by by_evaluation.
  split; [exact Hdiff|].
  apply (load_then_diff_has_no_addition 100 "objects" s0 s'
           (Some (DeltaUpdate {["u-light" := delta]})) s' {["u-light" := delta]}
           "u-light" delta).
  - by_evaluation.
  - by_evaluation.
  - exact Hdiff.
  - reflexivity.
  - reflexivity.
Defined.

(** X22 on the sample scene: no camera is registered. *)
Lemma none_ptr_apply_unregistered_writes_none_witness :
  let camera := mkRef "u-camera" "Camera" in
  NonePtrProxy_apply 0 "camera" (DeltaUpdate (VRefProxy camera)) true s0
  = (Ok (Some camera), set_world w0 s0)
  ∧ NonePtrProxy_save 0 "camera" s0 = (Ok tt, set_world w0 s0)
  ∧ NonePtrProxy_apply 0 "camera" (DeltaUpdate (VRefProxy camera)) false s0
    = (Ok (Some camera), s0).
Proof.
  intros camera.
  apply (none_ptr_apply_unregistered_writes_none 0 "camera"
           (DeltaUpdate (VRefProxy camera)) camera s0 w0).
  - reflexivity.
  - by_evaluation.
  - reflexivity.
Defined.

End SampleRuns.

(** * The properties on the small node tree *)

Section NodeRuns.
Import SampleNodes.

Ltac by_evaluation := vm_compute; reflexivity.

(** X12 on the link from Alpha of Texture to Surface of Output. *)
Lemma load_indices_lead_back_witness :
  length (_load [link0]) = length [link0]
  ∧ ∃ item, _load [link0] !! 0%nat = Some item
      ∧ from_node item = "Texture"
      ∧ to_node item = "Output"
      ∧ py_index [color; alpha] (from_socket item) = Some alpha
      ∧ py_index [surface] (to_socket item) = Some surface.
Proof.
  apply (load_indices_lead_back [link0] 0 link0).
  - reflexivity.
  - apply (bool_decide_unpack _). by_evaluation.
  - apply (bool_decide_unpack _). by_evaluation.
  - apply (bool_decide_unpack _). by_evaluation.
  - apply (bool_decide_unpack _). by_evaluation.
Defined.

(** X14 on the small node tree, which has no node Missing. *)
Lemma save_stops_at_missing_node_witness :
  NodeLinksProxy_save (mkNodeLinks ([good] ++ bad :: [good; good])) 0%N s0
  = NodeLinksProxy_save (mkNodeLinks ([good] ++ [bad])) 0%N s0.
Proof.
  apply (save_stops_at_missing_node 0%N [good] [good; good] bad s0).
  left. intros w. reflexivity.
Defined.

(** X15 on a link from a socket that Texture no longer has: the index is -1,
    and saving it links Alpha, the last output of Texture. *)
Lemma save_unfound_socket_takes_last_witness :
  from_socket (mkItem "Texture" (-1) "Output" 0) = (-1)%Z
  ∧ save_link 0%N (mkItem "Texture" (-1) "Output" 0) s0
    = (Ok true, set_world [(color, surface); (alpha, surface)] s0).
Proof.
  destruct (save_unfound_socket_takes_last [link_gone] 0 link_gone
              (mkItem "Texture" (-1) "Output" 0)) as [Hindex Hsave].
  - reflexivity.
  - reflexivity.
  - intros socket Hin Hid.
    apply elem_of_cons in Hin as [Hin | Hin]; [subst socket; discriminate Hid|].
    apply elem_of_cons in Hin as [Hin | Hin]; [subst socket; discriminate Hid|].
    by apply elem_of_nil in Hin.
  - split; [exact Hindex|].
    destruct (Hsave 0%N s0 1%N eq_refl) as [_ Hlast].
    apply (Hlast [Some color] alpha 2%N surface); reflexivity.
Defined.

End NodeRuns.

(** * The properties on the stroke points *)

Section StrokeRuns.
Import SampleStrokes.

(** X23 on five points truncated to two, with fuel for four rounds. *)
Lemma truncate_stroke_points_reaches_length_witness :
  ∃ s', truncate_collection 4 0%N 2 ∅ s0 = (Ok (Some tt), s')
    ∧ target_len (world s') 0%N = 2%Z
    ∧ log s' = log s0.
Proof.
  apply (truncate_stroke_points_reaches_length 4 0%N 2 ∅ s0).
  - reflexivity.
  - reflexivity.
  - reflexivity.
  - reflexivity.
  - intros w n Hn. eexists. simpl. rewrite decide_True by lia.
    split; [reflexivity|]. lia.
  - intros w Hw. destruct w as [|w']; simpl in Hw; [lia|].
    exists w'. simpl. split; [reflexivity|]. lia.
  - lia.
  - vm_compute. lia.
Defined.

(** X24 on the collection of no special kind, whose key b cannot be
    removed: the warning is followed by the two lines of the traceback. *)
Lemma truncate_generic_never_raises_witness :
  ∃ s', truncate_collection 0 1%N 0 {["a"]} s0 = (Ok (Some tt), s')
    ∧ log s'
      = [mkLog WARNING "Not implemented truncate_collection for type  for  ..." [];
         mkLog WARNING "...Traceback (most recent call last):" [];
         mkLog WARNING "...TypeError" []].
Proof.
  destruct (truncate_generic_never_raises 0 1%N 0 {["a"]} s0)
    as (s' & records & Hrun & _).
  - right. repeat split; reflexivity.
  - exists s'. split; [exact Hrun|].
    assert (s' = (truncate_collection 0 1%N 0 {["a"]} s0).2) as ->
      by (rewrite Hrun; reflexivity).
    vm_compute. reflexivity.
Defined.


End StrokeRuns.
